(** * scikit-motionplan: constraints and solver orchestration

    A shallow embedding of [skmp/constraint.py], [skmp/solver/interface.py]
    and the box limits of [skmp/robot/jaxon.py].

    - Scalars are IEEE binary64 numbers ([PrimFloat.float]), as numpy's
      [float64].
    - A numpy array is a shape and its elements in row-major order.
    - A call either returns a value or raises a Python exception ([result]).
    - The abstract base class [AbstractConst] is an object holding the
      readiness flag and a payload whose type implements the abstract
      methods ([ConstImpl]).
    - External collaborators (kinematics maps, signed-distance functions, the
      internal solver, the motion-step check) are functions carried by the
      objects that use them.

    Embedded from [constraint.py]: [AbstractConst] ([evaluate],
    [evaluate_single], [dummy_jacobian], [reflect_skrobot_model]),
    [_CompositeConst] with its two subclasses, [BoxConst] (with
    [from_urdf]), [ConfigPointConst], [PointCollFreeConst], [PoseConstraint],
    [CollFreeConst] and [ReducedCollisionFreeConst].
    Embedded from [interface.py]: [Problem] ([check_init_feasibility],
    [motion_step_box], [is_constrained], [is_satisfied]), [AbstractSolver]
    ([setup], [solve], [as_parallel_solver]), [ParallelSolver] ([_setup],
    [_solve]) and [NearestNeigborSolver] ([init], [_knn_trajectories],
    [_solve]).
    Embedded from [robot/jaxon.py]: [JaxonConfig._get_control_joint_names]
    and [JaxonConfig.get_box_const].

    Part I holds the model and the notions the statements use, Part II the
    properties. *)

From Stdlib Require Import String Ascii ZArith Lia Bool PeanoNat Floats Uint63.
From Stdlib Require Import List Permutation Sorted.
From Stdlib Require Decimal DecimalString.
Import ListNotations.

Set Implicit Arguments.

Local Open Scope string_scope.
Local Open Scope nat_scope.
Local Open Scope list_scope.

(* ================================================================== *)
(** * Part I. The model *)
(* ================================================================== *)

(** ** Python exceptions and results *)

Inductive exn : Type :=
| RuntimeError (msg : string)
| ValueError (msg : string)
| IndexError (msg : string)
| AssertionError (msg : string)
| TypeError (msg : string)
| UnboundLocalError (var : string)
| AttributeError (msg : string)
| KeyError (key : string)
| TimeoutError.

(** The text of the [AttributeError] a failed attribute lookup raises. *)
Definition no_attribute (type_name attr : string) : string :=
  "'" ++ type_name ++ "' object has no attribute '" ++ attr ++ "'".

Inductive result (A : Type) : Type :=
| Ok (a : A)
| Raise (e : exn).

Arguments Ok {A} a.
Arguments Raise {A} e.

Definition bind {A B : Type} (c : result A) (k : A -> result B) : result B :=
  match c with
  | Ok a => k a
  | Raise e => Raise e
  end.

Declare Scope py_scope.
Delimit Scope py_scope with py.
Notation "x <- c ;; k" := (bind c (fun x => k))
  (at level 61, c at next level, right associativity) : py_scope.
Notation "' p <- c ;; k" := (bind c (fun x => let p := x in k))
  (at level 61, p pattern, c at next level, right associativity) : py_scope.
Local Open Scope py_scope.

Definition py_assert (b : bool) (msg : string) : result unit :=
  if b then Ok tt else Raise (AssertionError msg).

(** [for x in l: ...] over a body that may raise: the first exception stops
    the loop. *)
Fixpoint mapM {A B : Type} (f : A -> result B) (l : list A) : result (list B) :=
  match l with
  | [] => Ok []
  | x :: l' => y <- f x ;; ys <- mapM f l' ;; Ok (y :: ys)
  end.

(** ** numpy arrays *)

Record ndarray : Type := mk_ndarray { shape : list nat; data : list float }.

Definition prod_shape (s : list nat) : nat := fold_right Nat.mul 1 s.

Definition ndim (a : ndarray) : nat := length (shape a).
Definition size (a : ndarray) : nat := prod_shape (shape a).

(** An array is well formed when it holds as many elements as its shape says. *)
Definition wf_ndarray (a : ndarray) : Prop := length (data a) = size a.

Fixpoint shape_eqb (s t : list nat) : bool :=
  match s, t with
  | [], [] => true
  | x :: s', y :: t' => (x =? y) && shape_eqb s' t'
  | _, _ => false
  end.

(** The [i]-th block of [c] consecutive elements. *)
Definition chunk {A : Type} (i c : nat) (l : list A) : list A :=
  firstn c (skipn (i * c) l).

(** [np.array([x0, x1, ...])] of scalars. *)
Definition np_array1 (l : list float) : ndarray :=
  {| shape := [length l]; data := l |}.

(** [np.array([[x00, ...], [x10, ...], ...])] of rows of equal length [d]. *)
Definition np_array2 (d : nat) (rows : list (list float)) : ndarray :=
  {| shape := [length rows; d]; data := concat rows |}.

(** [a.flatten()] *)
Definition flatten (a : ndarray) : ndarray :=
  {| shape := [size a]; data := data a |}.

(** [a.reshape(dims)], where [None] stands for the [-1] entry. *)
Definition reshape (dims : list (option nat)) (a : ndarray) : result ndarray :=
  let known := prod_shape (flat_map (fun d => match d with Some k => [k] | None => [] end) dims) in
  let unknown := length (filter (fun d => match d with None => true | Some _ => false end) dims) in
  match unknown with
  | 0 =>
      if known =? size a
      then Ok {| shape := map (fun d => match d with Some k => k | None => 0 end) dims;
                 data := data a |}
      else Raise (ValueError "cannot reshape array")
  | 1 =>
      if (known =? 0) || negb (size a mod known =? 0)
      then Raise (ValueError "cannot reshape array")
      else Ok {| shape := map (fun d => match d with Some k => k | None => size a / known end) dims;
                 data := data a |}
  | _ => Raise (ValueError "can only specify one unknown dimension")
  end.

(** [np.expand_dims(a, axis=0)] *)
Definition expand_dims0 (a : ndarray) : ndarray :=
  {| shape := 1 :: shape a; data := data a |}.

(** [a[i]] for a natural index. *)
Definition getitem (a : ndarray) (i : nat) : result ndarray :=
  match shape a with
  | [] => Raise (IndexError "invalid index to scalar variable")
  | n :: rest =>
      if i <? n
      then Ok {| shape := rest; data := chunk i (prod_shape rest) (data a) |}
      else Raise (IndexError "index out of bounds")
  end.

(** [n, d = a.shape] *)
Definition unpack_shape2 (a : ndarray) : result (nat * nat) :=
  match shape a with
  | [n; d] => Ok (n, d)
  | _ => Raise (ValueError "wrong number of values to unpack")
  end.

(** *** Broadcasting *)

Definition pad_shape (n : nat) (s : list nat) : list nat :=
  repeat 1 (n - length s) ++ s.

Definition bdim (a b : nat) : option nat :=
  if a =? b then Some a
  else if a =? 1 then Some b
  else if b =? 1 then Some a
  else None.

Fixpoint bshape (sa sb : list nat) : option (list nat) :=
  match sa, sb with
  | [], [] => Some []
  | a :: sa', b :: sb' =>
      match bdim a b, bshape sa' sb' with
      | Some d, Some r => Some (d :: r)
      | _, _ => None
      end
  | _, _ => None
  end.

(** Elementwise [f] over two operands whose shapes [sa] and [sb] have the same
    length: an axis of extent 1 is repeated along the other operand's axis. *)
Fixpoint bcast2 {B : Type} (f : float -> float -> B)
         (sa sb : list nat) (da db : list float) : list B :=
  match sa, sb with
  | a :: sa', b :: sb' =>
      let ca := prod_shape sa' in
      let cb := prod_shape sb' in
      flat_map
        (fun i => bcast2 f sa' sb'
                    (if a =? 1 then da else chunk i ca da)
                    (if b =? 1 then db else chunk i cb db))
        (seq 0 (if a =? 1 then b else a))
  | _, _ =>
      match da, db with
      | x :: _, y :: _ => [f x y]
      | _, _ => []
      end
  end.

Definition np_broadcast {B : Type} (f : float -> float -> B) (a b : ndarray)
  : result (list nat * list B) :=
  let n := Nat.max (ndim a) (ndim b) in
  let sa := pad_shape n (shape a) in
  let sb := pad_shape n (shape b) in
  match bshape sa sb with
  | Some s => Ok (s, bcast2 f sa sb (data a) (data b))
  | None => Raise (ValueError "operands could not be broadcast together")
  end.

(** [a - b] *)
Definition np_sub (a b : ndarray) : result ndarray :=
  '(s, d) <- np_broadcast PrimFloat.sub a b ;;
  Ok {| shape := s; data := d |}.

(** [np.all(a < b)] and [np.all(a > b)] *)
Definition np_all_lt (a b : ndarray) : result bool :=
  '(_, d) <- np_broadcast PrimFloat.ltb a b ;;
  Ok (forallb (fun x => x) d).

Definition np_all_gt (a b : ndarray) : result bool :=
  '(_, d) <- np_broadcast (fun x y => PrimFloat.ltb y x) a b ;;
  Ok (forallb (fun x => x) d).

(** [np.all(a > 0)] *)
Definition np_all_pos (a : ndarray) : bool :=
  forallb (fun x => PrimFloat.ltb 0%float x) (data a).

(** [-a] *)
Definition np_neg (a : ndarray) : ndarray :=
  {| shape := shape a; data := map PrimFloat.opp (data a) |}.

(** [np.eye(d)] *)
Definition np_eye (d : nat) : ndarray :=
  {| shape := [d; d];
     data := flat_map (fun i => map (fun j => if i =? j then 1%float else 0%float) (seq 0 d))
                      (seq 0 d) |}.

(** *** Joining arrays *)

Definition same_tail (rest : list nat) (b : ndarray) : bool :=
  match shape b with
  | _ :: rest' => shape_eqb rest rest'
  | [] => false
  end.

(** [np.concatenate(l, axis=0)] *)
Definition np_concatenate0 (l : list ndarray) : result ndarray :=
  match l with
  | [] => Raise (ValueError "need at least one array to concatenate")
  | a :: _ =>
      match shape a with
      | [] => Raise (ValueError "zero-dimensional arrays cannot be concatenated")
      | _ :: rest =>
          if forallb (same_tail rest) l
          then Ok {| shape := list_sum (map (fun b => hd 0 (shape b)) l) :: rest;
                     data := flat_map data l |}
          else Raise (ValueError "all the input array dimensions except for the concatenation axis must match exactly")
      end
  end.

Definition same_but_axis1 (n : nat) (rest : list nat) (b : ndarray) : bool :=
  match shape b with
  | n' :: _ :: rest' => (n' =? n) && shape_eqb rest rest'
  | _ => false
  end.

Definition dim1 (b : ndarray) : nat := nth 1 (shape b) 0.

(** The number of elements below the first axis. *)
Definition row_size (b : ndarray) : nat := prod_shape (tl (shape b)).

(** [np.concatenate(l, axis=1)] *)
Definition np_concatenate1 (l : list ndarray) : result ndarray :=
  match l with
  | [] => Raise (ValueError "need at least one array to concatenate")
  | a :: _ =>
      match shape a with
      | n :: _ :: rest =>
          if forallb (same_but_axis1 n rest) l
          then Ok {| shape := n :: list_sum (map dim1 l) :: rest;
                     data := flat_map (fun i => flat_map (fun b => chunk i (row_size b) (data b)) l)
                                      (seq 0 n) |}
          else Raise (ValueError "all the input array dimensions except for the concatenation axis must match exactly")
      | _ => Raise (ValueError "axis 1 is out of bounds")
      end
  end.

(** [np.atleast_1d] *)
Definition atleast_1d (a : ndarray) : ndarray :=
  match shape a with
  | [] => {| shape := [1]; data := data a |}
  | _ => a
  end.

(** [np.hstack(l)]: along the first axis for 1-D arrays, the second otherwise. *)
Definition np_hstack (l : list ndarray) : result ndarray :=
  let arrs := map atleast_1d l in
  match arrs with
  | a :: _ => if ndim a =? 1 then np_concatenate0 arrs else np_concatenate1 arrs
  | [] => np_concatenate1 arrs
  end.

(** [np.atleast_2d] and [np.vstack(l)] *)
Definition atleast_2d (a : ndarray) : ndarray :=
  match shape a with
  | [] => {| shape := [1; 1]; data := data a |}
  | [n] => {| shape := [1; n]; data := data a |}
  | _ => a
  end.

Definition np_vstack (l : list ndarray) : result ndarray :=
  np_concatenate0 (map atleast_2d l).

(** [np.array(l)] for a Python list of arrays: a new leading axis; the empty
    list gives the empty 1-D array. *)
Definition np_array_of (l : list ndarray) : result ndarray :=
  match l with
  | [] => Ok {| shape := [0]; data := [] |}
  | a :: _ =>
      if forallb (fun b => shape_eqb (shape a) (shape b)) l
      then Ok {| shape := length l :: shape a; data := flat_map data l |}
      else Raise (ValueError "setting an array element with a sequence: inhomogeneous shape")
  end.

(** [v.dot(v)], accumulated from the left. *)
Definition dot_self (v : ndarray) : float :=
  fold_left (fun acc x => PrimFloat.add acc (PrimFloat.mul x x)) (data v) 0%float.

(** [a / x] and [a + x] for a scalar [x] *)
Definition np_div_scalar (a : ndarray) (x : float) : ndarray :=
  {| shape := shape a; data := map (fun y => PrimFloat.div y x) (data a) |}.

(** [a[:, i] += x] on a 2-D array with [d] columns. *)
Definition add_to_column (d i : nat) (x : float) (a : ndarray) : ndarray :=
  {| shape := shape a;
     data := map (fun '(k, y) => if (k mod d) =? i then PrimFloat.add y x else y)
                 (combine (seq 0 (length (data a))) (data a)) |}.

(** The values a right-hand side [v] takes when it is assigned to a slice of
    shape [(n, 1)]: [v] must broadcast to that shape. *)
Fixpoint strip_leading_ones (k : nat) (s : list nat) : list nat :=
  match k, s with
  | S k', 1 :: s' => strip_leading_ones k' s'
  | _, _ => s
  end.

Definition broadcast_to_column (n : nat) (v : ndarray) : result (list float) :=
  match pad_shape 2 (strip_leading_ones (ndim v - 2) (shape v)) with
  | [p; 1] =>
      if p =? n then Ok (firstn n (data v))
      else if p =? 1 then Ok (repeat (hd 0%float (data v)) n)
      else Raise (ValueError "could not broadcast input array")
  | _ => Raise (ValueError "could not broadcast input array")
  end.

(** ** The constraint contract ([AbstractConst]) *)

(** Modelled from the spec: the robot-model reflection target, "any object
    exposing current joint angles by name" ([skrobot.model.RobotModel], an
    external package). *)
Record RobotModel : Type := { joint_angle : string -> option float }.

(** The abstract methods a concrete constraint class supplies. *)
Class ConstImpl (C : Type) : Type := {
  type_name : C -> string;                    (* type(self).__name__ *)
  is_equality : C -> bool;
  _evaluate : C -> ndarray -> bool -> result (ndarray * ndarray);
  _reflect_skrobot_model : C -> option RobotModel -> result C
}.

(** An instance of a constraint class: the base class's flag and the
    subclass's attributes. *)
Record AbstractConst (C : Type) : Type := {
  reflect_robot_flag : bool;
  self : C
}.

(** A fresh instance sees the class attribute [reflect_robot_flag = False]. *)
Definition new_object {C : Type} (c : C) : AbstractConst C :=
  {| reflect_robot_flag := false; self := c |}.

Definition not_reflected_message (name : string) : string :=
  name ++ ": you need to call reflect_skrobot_model beforehand".

Definition evaluate {C : Type} `{ConstImpl C}
           (o : AbstractConst C) (qs : ndarray) (with_jacobian : bool)
  : result (ndarray * ndarray) :=
  if negb (reflect_robot_flag o)
  then Raise (RuntimeError (not_reflected_message (type_name (self o))))
  else _evaluate (self o) qs with_jacobian.

Definition evaluate_single {C : Type} `{ConstImpl C}
           (o : AbstractConst C) (q : ndarray) (with_jacobian : bool)
  : result (ndarray * ndarray) :=
  _ <- py_assert (ndim q =? 1) "q.ndim == 1" ;;
  '(f, jac) <- evaluate o (expand_dims0 q) with_jacobian ;;
  f0 <- getitem f 0 ;;
  jac0 <- getitem jac 0 ;;
  Ok (f0, jac0).

(** [np.array([[np.nan]])] *)
Definition dummy_jacobian : ndarray := {| shape := [1; 1]; data := [nan] |}.

Definition reflect_skrobot_model {C : Type} `{ConstImpl C}
           (o : AbstractConst C) (robot_model : option RobotModel)
  : result (AbstractConst C) :=
  c <- _reflect_skrobot_model (self o) robot_model ;;
  Ok {| reflect_robot_flag := true; self := c |}.

(** ** [_CompositeConst] *)

Record CompositeConst (M : Type) : Type := {
  const_list : list (AbstractConst M);
  composite_is_equality : bool      (* EqCompositeConst or IneqCompositeConst *)
}.

Definition CompositeConst__evaluate {M : Type} `{ConstImpl M}
           (c : CompositeConst M) (qs : ndarray) (with_jacobian : bool)
  : result (ndarray * ndarray) :=
  rs <- mapM (fun const => evaluate const qs with_jacobian) (const_list c) ;;
  let valuess_list := map fst rs in
  let jacs_list := map snd rs in
  valuess_out <- np_hstack valuess_list ;;
  if negb with_jacobian then Ok (valuess_out, dummy_jacobian)
  else
    jacs_out <- np_concatenate1 jacs_list ;;
    Ok (valuess_out, jacs_out).

Definition CompositeConst__reflect_skrobot_model {M : Type} `{ConstImpl M}
           (c : CompositeConst M) (robot_model : option RobotModel)
  : result (CompositeConst M) :=
  l <- mapM (fun const => reflect_skrobot_model const robot_model) (const_list c) ;;
  Ok {| const_list := l; composite_is_equality := composite_is_equality c |}.

#[export] Instance CompositeConst_impl (M : Type) `{ConstImpl M}
  : ConstImpl (CompositeConst M) := {|
  type_name c := if composite_is_equality c then "EqCompositeConst" else "IneqCompositeConst";
  is_equality c := composite_is_equality c;
  _evaluate := CompositeConst__evaluate;
  _reflect_skrobot_model := CompositeConst__reflect_skrobot_model
|}.

(** [_CompositeConst.__init__]: the members must share the composite's
    polarity; the flag is set without any reflection. *)
Definition CompositeConst_init {M : Type} `{ConstImpl M}
           (is_eq : bool) (l : list (AbstractConst M))
  : result (AbstractConst (CompositeConst M)) :=
  _ <- mapM (fun const => py_assert (Bool.eqb (is_equality (self const)) is_eq)
                                    "const.is_equality() == self.is_equality()") l ;;
  Ok {| reflect_robot_flag := true;
        self := {| const_list := l; composite_is_equality := is_eq |} |}.

Definition IneqCompositeConst_init {M : Type} `{ConstImpl M} := CompositeConst_init (M := M) false.
Definition EqCompositeConst_init {M : Type} `{ConstImpl M} := CompositeConst_init (M := M) true.

(** Members of different classes in one list: the class of a member is the
    side of the sum it stands on. *)
#[export] Instance sum_impl (A B : Type) `{ConstImpl A} `{ConstImpl B}
  : ConstImpl (A + B) := {|
  type_name c := match c with inl a => type_name a | inr b => type_name b end;
  is_equality c := match c with inl a => is_equality a | inr b => is_equality b end;
  _evaluate c qs wj :=
    match c with inl a => _evaluate a qs wj | inr b => _evaluate b qs wj end;
  _reflect_skrobot_model c rm :=
    match c with
    | inl a => a' <- _reflect_skrobot_model a rm ;; Ok (inl a')
    | inr b => b' <- _reflect_skrobot_model b rm ;; Ok (inr b')
    end
|}.

(** ** Concrete constraint classes *)

(** *** [BoxConst] *)

Record BoxConst : Type := { lb : ndarray; ub : ndarray }.

Definition BoxConst__evaluate (c : BoxConst) (qs : ndarray) (with_jacobian : bool)
  : result (ndarray * ndarray) :=
  '(n_point, dim) <- unpack_shape2 qs ;;
  lower <- np_sub qs (lb c) ;;
  let f_lower := flatten lower in
  upper <- np_sub (ub c) qs ;;
  let f_upper := flatten upper in
  stacked <- np_hstack [f_lower; f_upper] ;;
  f <- reshape [Some n_point; None] stacked ;;
  if with_jacobian then
    jac_single <- np_vstack [np_eye dim; np_neg (np_eye dim)] ;;
    jac <- np_array_of (repeat jac_single n_point) ;;
    Ok (f, jac)
  else Ok (f, dummy_jacobian).

#[export] Instance BoxConst_impl : ConstImpl BoxConst := {|
  type_name _ := "BoxConst";
  is_equality _ := false;
  _evaluate := BoxConst__evaluate;
  _reflect_skrobot_model c _ := Ok c
|}.

(** [BoxConst.__init__] *)
Definition BoxConst_init (lb ub : ndarray) : result (AbstractConst BoxConst) :=
  reflect_skrobot_model (new_object {| lb := lb; ub := ub |}) None.

(** *** [ConfigPointConst] *)

Record ConfigPointConst : Type := { desired_angles : ndarray }.

Definition ConfigPointConst__evaluate (c : ConfigPointConst) (qs : ndarray)
           (with_jacobian : bool) : result (ndarray * ndarray) :=
  '(n_point, dim) <- unpack_shape2 qs ;;
  val <- np_sub qs (desired_angles c) ;;
  if with_jacobian then
    jac <- np_array_of (repeat (np_eye dim) n_point) ;;
    Ok (val, jac)
  else Ok (val, dummy_jacobian).

#[export] Instance ConfigPointConst_impl : ConstImpl ConfigPointConst := {|
  type_name _ := "ConfigPointConst";
  is_equality _ := true;
  _evaluate := ConfigPointConst__evaluate;
  _reflect_skrobot_model c _ := Ok c
|}.

Definition ConfigPointConst_init (desired_angles : ndarray)
  : result (AbstractConst ConfigPointConst) :=
  reflect_skrobot_model (new_object {| desired_angles := desired_angles |}) None.

(** *** [PointCollFreeConst] *)

(** The signed-distance function is supplied by the caller. *)
Record PointCollFreeConst : Type := { sdf : ndarray -> ndarray }.

(** The class attribute [eps = 1e-6]. *)
Definition PointCollFreeConst_eps : float := 0x1.0c6f7a0b5ed8dp-20%float.  (* 1e-6 *)

Definition PointCollFreeConst__evaluate (c : PointCollFreeConst) (qs : ndarray)
           (with_jacobian : bool) : result (ndarray * ndarray) :=
  '(n_point, n_dim) <- unpack_shape2 qs ;;
  let fs := sdf c qs in
  columns <- mapM (fun i =>
                     let qs1 := add_to_column n_dim i PointCollFreeConst_eps qs in
                     diff <- np_sub (sdf c qs1) fs ;;
                     broadcast_to_column n_point (np_div_scalar diff PointCollFreeConst_eps))
                  (seq 0 n_dim) ;;
  let jacs_stacked :=
    {| shape := [n_point; 1; n_dim];
       data := flat_map (fun k => map (fun col => nth k col 0%float) columns) (seq 0 n_point) |} in
  f <- reshape [None; Some 1] fs ;;
  Ok (f, jacs_stacked).

#[export] Instance PointCollFreeConst_impl : ConstImpl PointCollFreeConst := {|
  type_name _ := "PointCollFreeConst";
  is_equality _ := false;
  _evaluate := PointCollFreeConst__evaluate;
  _reflect_skrobot_model c _ := Ok c
|}.

Definition PointCollFreeConst_init (sdf : ndarray -> ndarray)
  : result (AbstractConst PointCollFreeConst) :=
  reflect_skrobot_model (new_object {| sdf := sdf |}) None.

(** *** Kinematics maps (external) *)

(** Modelled from the spec: a kinematics map, [map(Q) -> (X, J)], which
    "exposes feature count, task-space dimensionality, and a model-reflection
    entry point" ([skmp.kinematics], not among the files at hand).  The robot
    state cached by the last reflection is [kin_state]. *)
Record KinematicsMap : Type := {
  n_feature : nat;
  dim_tspace : nat;
  radius_list : list float;
  kin_state : option RobotModel;
  kin_fk : option RobotModel -> ndarray -> ndarray * ndarray
}.

Definition kin_map (k : KinematicsMap) (qs : ndarray) : ndarray * ndarray :=
  kin_fk k (kin_state k) qs.

Definition kin_reflect_skrobot_model (k : KinematicsMap) (robot_model : RobotModel)
  : KinematicsMap :=
  {| n_feature := n_feature k; dim_tspace := dim_tspace k; radius_list := radius_list k;
     kin_state := Some robot_model; kin_fk := kin_fk k |}.

(** *** [PoseConstraint] *)

Record PoseConstraint : Type := {
  desired_poses : list ndarray;
  efkin : KinematicsMap
}.

Definition PoseConstraint__evaluate (c : PoseConstraint) (qs : ndarray)
           (with_jacobian : bool) : result (ndarray * ndarray) :=
  '(n_point, n_dim) <- unpack_shape2 qs ;;
  let '(xs_tmp, jacs_tmp) := kin_map (efkin c) qs in
  xs <- reshape [Some n_point; None] xs_tmp ;;
  jacs <- reshape [Some n_point; None; Some n_dim] jacs_tmp ;;
  target <- np_hstack (desired_poses c) ;;
  values <- np_sub xs target ;;
  Ok (values, jacs).

Definition PoseConstraint__reflect_skrobot_model (c : PoseConstraint)
           (robot_model : option RobotModel) : result PoseConstraint :=
  match robot_model with
  | None => Raise (AssertionError "robot_model is not None")
  | Some rm =>
      Ok {| desired_poses := desired_poses c;
            efkin := kin_reflect_skrobot_model (efkin c) rm |}
  end.

#[export] Instance PoseConstraint_impl : ConstImpl PoseConstraint := {|
  type_name _ := "PoseConstraint";
  is_equality _ := true;
  _evaluate := PoseConstraint__evaluate;
  _reflect_skrobot_model := PoseConstraint__reflect_skrobot_model
|}.

Definition PoseConstraint_init (desired_poses : list ndarray) (efkin : KinematicsMap)
           (robot_model : option RobotModel) : result (AbstractConst PoseConstraint) :=
  _ <- py_assert (length desired_poses =? n_feature efkin)
                 "len(desired_poses) == efkin.n_feature" ;;
  reflect_skrobot_model
    (new_object {| desired_poses := desired_poses; efkin := efkin |}) robot_model.

(** ** Acceptance of a configuration *)

(** [c.is_valid(q)], which [Problem.check_init_feasibility] evaluates at
    interface.py:52 and :55.  [AbstractConst], [AbstractIneqConst],
    [AbstractEqConst], [_CompositeConst] and the constraint classes of
    constraint.py define no attribute [is_valid], and none of them defines
    [__getattr__]: on an object of any of these classes the attribute lookup
    raises [AttributeError] before a call is made, whatever [q] is.  No
    verdict comes back, so the type of verdicts is empty. *)
Definition is_valid {C : Type} `{ConstImpl C} (o : AbstractConst C) (q : ndarray)
  : result Empty_set :=
  Raise (AttributeError (no_attribute (type_name (self o)) "is_valid")).

(** ** Trajectories (external) *)

(** Modelled from the spec: a trajectory is its sequence of waypoints
    ([skmp.trajectory.Trajectory], not among the files at hand); [traj[i]],
    [len(traj)] and [traj.numpy()] are those of the list of waypoints. *)
Definition Trajectory : Type := list ndarray.

Definition traj_numpy (t : Trajectory) : result ndarray := np_array_of t.

(** [traj[-1]] *)
Definition traj_last (t : Trajectory) : result ndarray :=
  match t with
  | [] => Raise (IndexError "list index out of range")
  | q :: t' => Ok (last t' q)
  end.

(** The pairs [(traj[i], traj[i + 1])] for [i] in [range(len(traj) - 1)]. *)
Fixpoint consecutive_pairs (t : Trajectory) : list (ndarray * ndarray) :=
  match t with
  | q1 :: ((q2 :: _) as t') => (q1, q2) :: consecutive_pairs t'
  | _ => []
  end.

(** ** [Problem] *)

(** [global_ineq_const] is either an [IneqCompositeConst] (over members of
    classes [M]) or an inequality constraint of another class [L]; the side of
    the sum answers [isinstance(_, IneqCompositeConst)]. *)
Definition IneqConst (L M : Type) : Type :=
  (AbstractConst L + AbstractConst (CompositeConst M))%type.

Definition ineq_evaluate {L M : Type} `{ConstImpl L} `{ConstImpl M}
           (c : IneqConst L M) (qs : ndarray) (with_jacobian : bool)
  : result (ndarray * ndarray) :=
  match c with
  | inl plain => evaluate plain qs with_jacobian
  | inr composite => evaluate composite qs with_jacobian
  end.

Definition ineq_is_valid {L M : Type} `{ConstImpl L} `{ConstImpl M}
           (c : IneqConst L M) (q : ndarray) : result Empty_set :=
  match c with
  | inl plain => is_valid plain q
  | inr composite => is_valid composite q
  end.

(** [type(c).__name__] *)
Definition ineq_type_name {L M : Type} `{ConstImpl L} `{ConstImpl M}
           (c : IneqConst L M) : string :=
  match c with
  | inl plain => type_name (self plain)
  | inr composite => type_name (self composite)
  end.

(** [motion_step_box_: Union[float, np.ndarray]] *)
Inductive step_box : Type :=
| StepFloat (x : float)
| StepArray (a : ndarray).

Record Problem (G L M E : Type) : Type := {
  start : ndarray;
  box_const : AbstractConst BoxConst;
  goal_const : AbstractConst G;
  global_ineq_const : option (IneqConst L M);
  global_eq_const : option (AbstractConst E);
  eqconst_admissible_mse : float;
  motion_step_box_ : step_box;
  skip_init_feasibility_check : bool
}.

Section ProblemMethods.
Context {G L M E : Type} `{ConstImpl G} `{ConstImpl L} `{ConstImpl M} `{ConstImpl E}.

(** The external routine [skmp.solver.motion_step_box.is_valid_motion_step]
    (step box, the two waypoints, the constraint). *)
Variable is_valid_motion_step : ndarray -> ndarray -> ndarray -> IneqConst L M -> bool.

Definition does_not_satisfy (what : string) : string :=
  "q_start doesn't satisfy " ++ what.

(** The messages [check_init_feasibility] collects for the global inequality
    constraint (lines 51 to 58).  The test of line 52 is evaluated first, and
    its attribute lookup raises: the statements it guards (the loop over the
    members of a composite, which looks [is_valid] up again at line 55, and
    the formatting of the messages) are not reached. *)
Definition ineq_messages (c : IneqConst L M) (q : ndarray) : result (list string) :=
  ok <- ineq_is_valid c q ;;
  match ok return result (list string) with end.

Definition init_messages (p : Problem G L M E) : result (list string) :=
  below <- np_all_lt (start p) (ub (self (box_const p))) ;;
  let upper_msgs := if negb below then [does_not_satisfy "BoxConst upper"] else [] in
  above <- np_all_gt (start p) (lb (self (box_const p))) ;;
  let lower_msgs := if negb above then [does_not_satisfy "BoxConst lower"] else [] in
  ineq_msgs <- match global_ineq_const p with
               | Some c => ineq_messages c (start p)
               | None => Ok []
               end ;;
  Ok (upper_msgs ++ lower_msgs ++ ineq_msgs).

Definition check_init_feasibility (p : Problem G L M E) : result (bool * string) :=
  if skip_init_feasibility_check p then Ok (true, "")
  else
    msg_list <- init_messages p ;;
    let is_init_feasible := length msg_list =? 0 in
    let msg_concat := String.concat ", " msg_list in
    Ok (is_init_feasible, msg_concat).

(** The property [motion_step_box]: a scalar resolution is spread over the
    [len(self.start)] dimensions. *)
Definition motion_step_box (p : Problem G L M E) : result ndarray :=
  match motion_step_box_ p with
  | StepArray a => Ok a
  | StepFloat x =>
      match shape (start p) with
      | [] => Raise (TypeError "len() of unsized object")
      | n_dim :: _ => Ok (np_array1 (repeat (PrimFloat.mul 1%float x) n_dim))
      end
  end.

(** The loop over consecutive waypoints: the first invalid step answers
    [False]. *)
Fixpoint motion_steps_valid (p : Problem G L M E) (c : IneqConst L M)
         (pairs : list (ndarray * ndarray)) : result bool :=
  match pairs with
  | [] => Ok true
  | (q1, q2) :: rest =>
      box <- motion_step_box p ;;
      if negb (is_valid_motion_step box q1 q2 c) then Ok false
      else motion_steps_valid p c rest
  end.

Definition is_constrained (p : Problem G L M E) : bool :=
  match global_eq_const p with Some _ => true | None => false end.

Definition is_satisfied (p : Problem G L M E) (traj : Trajectory) : result bool :=
  q_end <- traj_last traj ;;
  '(vals, _) <- evaluate_single (goal_const p) q_end false ;;
  if PrimFloat.ltb (eqconst_admissible_mse p) (dot_self vals) then Ok false
  else
    ineq_ok <- match global_ineq_const p with
               | Some c =>
                   qs <- traj_numpy traj ;;
                   '(valss, _) <- ineq_evaluate c qs false ;;
                   Ok (np_all_pos valss)
               | None => Ok true
               end ;;
    if negb ineq_ok then Ok false
    else
      match global_ineq_const p with
      | Some c => motion_steps_valid p c (consecutive_pairs traj)
      | None => Ok true
      end.


End ProblemMethods.

(** ** Solvers *)

(** [ResultProtocol]: the shared fields of a solver's result and its canonical
    failed-without-running instance. *)
Class ResultProtocol (R : Type) : Type := {
  traj : R -> option Trajectory;
  abnormal : R
}.

(** [ConfigProtocol] *)
Record SolverConfig : Type := {
  n_max_call : Z;
  timeout : option float
}.

(** An internal solver, seen through its [_solve(guide)]. *)
Record ScratchSolver (R : Type) : Type := {
  scratch_solve : option Trajectory -> R
}.

(** *** [ParallelSolver._solve] *)

(** What the orchestrator does to its worker processes, in order. *)
Inductive process_event : Type :=
| Started (i : nat)
| Terminated (i : nat)
| Joined (i : nat).

(** How a call ends: it returns, raises, or waits forever on the queue. *)
Inductive ending (R : Type) : Type :=
| Returns (r : R)
| Raises (e : exn)
| Blocks.

Arguments Returns {R} r.
Arguments Raises {R} e.
Arguments Blocks {R}.

(** The second loop of [_solve]: [remaining] more [result_queue.get()] calls,
    [arrivals] being what the queue will deliver, [result] the local variable
    (unbound before the first iteration). *)
Fixpoint consume_results {R : Type} `{ResultProtocol R}
         (processes : list nat) (remaining : nat) (arrivals : list R) (result : option R)
  : list process_event * ending R :=
  match remaining with
  | 0 =>
      match result with
      | Some _ => ([], Returns abnormal)          (* result.abnormal() *)
      | None => ([], Raises (UnboundLocalError "result"))
      end
  | S remaining' =>
      match arrivals with
      | [] => ([], Blocks)
      | r :: arrivals' =>
          match traj r with
          | Some _ => (map Terminated processes ++ map Joined processes, Returns r)
          | None => consume_results processes remaining' arrivals' (Some r)
          end
      end
  end.

Definition ParallelSolver__solve {R : Type} `{ResultProtocol R}
           (n_process : Z) (arrivals : list R) : list process_event * ending R :=
  let processes := seq 0 (Z.to_nat n_process) in
  let '(events, e) := consume_results processes (Z.to_nat n_process) arrivals None in
  (map Started processes ++ events, e).

(** *** [NearestNeigborSolver] *)

(** A Python number: the threshold is an [int] when calibrated and whatever
    the caller passed otherwise. *)
Inductive number : Type :=
| PyInt (z : Z)
| PyFloat (x : float).

(** A length as a float (exact below 2^53). *)
Definition float_of_nat (n : nat) : float :=
  PrimFloat.of_uint63 (Uint63.of_Z (Z.of_nat n)).

(** [count >= threshold] for a count of list entries. *)
Definition count_ge (count : nat) (threshold : number) : bool :=
  match threshold with
  | PyInt z => (z <=? Z.of_nat count)%Z
  | PyFloat x => PrimFloat.leb x (float_of_nat count)
  end.

(** Python's [l[start:stop]] *)
Definition slice_index (len : nat) (i : Z) : nat :=
  let n := Z.of_nat len in
  Z.to_nat (if (i <? 0)%Z then Z.max 0 (i + n) else Z.min i n).

Definition py_slice {A : Type} (start stop : Z) (l : list A) : list A :=
  let a := slice_index (length l) start in
  let b := slice_index (length l) stop in
  firstn (b - a) (skipn a l).

(** [range(a, b)] *)
Definition py_range (a b : Z) : list Z :=
  map (fun i => (a + Z.of_nat i)%Z) (seq 0 (Z.to_nat (b - a))).

(** numpy's sorting order: NaN sorts last. *)
Definition np_lt (x y : float) : bool :=
  PrimFloat.ltb x y || (PrimFloat.is_nan y && negb (PrimFloat.is_nan x)).

(** [np.argsort(keys)].  numpy's default sort promises no order among equal
    keys; here they keep their index order, as numpy's sort does on short
    arrays. *)
Fixpoint insert_by (key : nat -> float) (i : nat) (sorted : list nat) : list nat :=
  match sorted with
  | [] => [i]
  | j :: sorted' =>
      if np_lt (key j) (key i) then j :: insert_by key i sorted'
      else i :: sorted
  end.

Definition np_argsort (keys : list float) : list nat :=
  fold_right (insert_by (fun i => nth i keys nan)) [] (seq 0 (length keys)).

(** [np.argmin(l)] on a list of integers: the first index of the minimum. *)
Fixpoint argmin_from (best_i : nat) (best : Z) (i : nat) (l : list Z) : nat :=
  match l with
  | [] => best_i
  | x :: l' =>
      if (x <? best)%Z then argmin_from i x (S i) l'
      else argmin_from best_i best (S i) l'
  end.

Definition np_argmin (l : list Z) : result nat :=
  match l with
  | [] => Raise (ValueError "attempt to get argmin of an empty sequence")
  | x :: l' => Ok (argmin_from 0 x 1 l')
  end.

(** [np.sum((vec_descs - desc) ** 2, axis=1)], each row accumulated from the
    left. *)
Definition sum_list (l : list float) : float := fold_left PrimFloat.add l 0%float.

Definition sqdists_to (vec_descs desc : ndarray) : result (list float) :=
  '(s, d) <- np_broadcast (fun x y => let z := PrimFloat.sub x y in PrimFloat.mul z z)
                          vec_descs desc ;;
  match s with
  | [n; m] => Ok (map (fun i => sum_list (chunk i m d)) (seq 0 n))
  | [] | [_] => Raise (ValueError "axis 1 is out of bounds")
  | _ => Raise (TypeError "only integer scalar arrays can be converted to a scalar index")
  end.

(** [trajectories[idx]] *)
Definition list_getitem {A : Type} (l : list A) (idx : nat) : result A :=
  match nth_error l idx with
  | Some x => Ok x
  | None => Raise (IndexError "list index out of range")
  end.

Definition is_none {A : Type} (o : option A) : bool :=
  match o with None => true | Some _ => false end.

Record NearestNeigborSolver (R : Type) : Type := {
  config : SolverConfig;
  internal_solver : ScratchSolver R;
  vec_descs : ndarray;
  trajectories : list (option Trajectory);
  knn : Z;
  infeasibility_threshold : number
}.

Section NearestNeighbor.
Context {R : Type} `{ResultProtocol R}.

(** One pass of the leave-one-out loop body: the number of entries without a
    trajectory among [np.argsort(sqdists)[1 : knn + 1]]. *)
Definition none_count_in_knn (vec_descs : ndarray) (trajectories : list (option Trajectory))
           (knn : Z) (desc : ndarray) : result nat :=
  sqdists <- sqdists_to vec_descs desc ;;
  let k_nearests := py_slice 1 (knn + 1) (np_argsort sqdists) in
  neighbours <- mapM (list_getitem trajectories) k_nearests ;;
  Ok (length (filter is_none neighbours)).

(** The inner loop: the mismatches of one candidate threshold. *)
Definition threshold_error (vec_descs : ndarray) (trajectories : list (option Trajectory))
           (knn : Z) (dataset : list (list float * option Trajectory)) (threshold : Z)
  : result Z :=
  marks <- mapM (fun '(desc, traj) =>
                   none_count <- none_count_in_knn vec_descs trajectories knn (np_array1 desc) ;;
                   let seems_infeasible := (threshold <=? Z.of_nat none_count)%Z in
                   let actually_infeasible := is_none traj in
                   Ok (if Bool.eqb seems_infeasible actually_infeasible then 0%Z else 1%Z))
                dataset ;;
  Ok (fold_left Z.add marks 0%Z).

(** The leave-one-out calibration of [init]. *)
Definition calibrate (vec_descs : ndarray) (trajectories : list (option Trajectory))
           (knn : Z) (dataset : list (list float * option Trajectory)) : result Z :=
  let thresholds := py_range 1 knn in
  errors <- mapM (threshold_error vec_descs trajectories knn dataset) thresholds ;;
  best <- np_argmin errors ;;
  list_getitem thresholds best.

(** [NearestNeigborSolver.init] *)
Definition NearestNeigborSolver_init
           (solver_type : SolverConfig -> ScratchSolver R) (config : SolverConfig)
           (dataset : list (list float * option Trajectory))
           (knn : Z) (infeasibility_threshold : option number)
  : result (NearestNeigborSolver R) :=
  match dataset with
  | [] => Raise (ValueError "not enough values to unpack (expected 2, got 0)")
  | _ :: _ =>
      let tmp := map fst dataset in
      let trajectories := map snd dataset in
      vec_descs <- np_array_of (map np_array1 tmp) ;;
      let internal_solver := solver_type config in
      threshold <- match infeasibility_threshold with
                   | Some t => Ok t
                   | None => t <- calibrate vec_descs trajectories knn dataset ;; Ok (PyInt t)
                   end ;;
      Ok {| config := config; internal_solver := internal_solver;
            vec_descs := vec_descs; trajectories := trajectories;
            knn := knn; infeasibility_threshold := threshold |}
  end.

Definition _knn_trajectories (s : NearestNeigborSolver R) (query_desc : ndarray)
  : result (list (option Trajectory)) :=
  sqdists <- sqdists_to (vec_descs s) query_desc ;;
  let k_nearests := py_slice 0 (knn s) (np_argsort sqdists) in
  mapM (list_getitem (trajectories s)) k_nearests.

(** [[traj for traj in trajs if traj is not None]] *)
Definition without_none {A : Type} (l : list (option A)) : list A :=
  flat_map (fun o => match o with Some x => [x] | None => [] end) l.

(** [NearestNeigborSolver._solve]: the result, and the guides the internal
    solver was called with, in order. *)
Definition NearestNeigborSolver__solve (s : NearestNeigborSolver R)
           (query_desc : option ndarray) : result (R * list (option Trajectory)) :=
  match query_desc with
  | Some q =>
      trajs <- _knn_trajectories s q ;;
      let trajs_without_none := without_none trajs in
      let count_none := length trajs - length trajs_without_none in
      let seems_infeasible := count_ge count_none (infeasibility_threshold s) in
      if seems_infeasible then Ok (abnormal, [])
      else
        match trajs_without_none with
        | guiding_traj :: _ =>
            let result := scratch_solve (internal_solver s) (Some guiding_traj) in
            Ok (result, [Some guiding_traj])
        | [] => Ok (abnormal, [])
        end
  | None =>
      let reuse_traj := None in
      let result := scratch_solve (internal_solver s) reuse_traj in
      Ok (result, [reuse_traj])
  end.

End NearestNeighbor.

(** ** The calibration as the specification words it *)

(** The [k] nearest neighbours of case [i], the case itself left out: the
    other cases in order of increasing distance, cut after [k]. *)
Definition nearest_others (k : nat) (i : nat) (sqdists : list float) : list nat :=
  firstn k (filter (fun j => negb (j =? i)) (np_argsort sqdists)).

(** The mismatches of threshold [t]: a case is predicted infeasible iff at
    least [t] of its neighbours lack a trajectory, and the prediction is
    compared with whether the case's own trajectory is absent. *)
Definition loo_mismatches (k : nat) (dataset : list (list float * option Trajectory))
           (vec_descs : ndarray) (t : nat) : result nat :=
  marks <- mapM (fun '(i, (desc, traj)) =>
                   sqdists <- sqdists_to vec_descs (np_array1 desc) ;;
                   let lacking :=
                     length (filter (fun j => is_none (nth j (map snd dataset) None))
                                    (nearest_others k i sqdists)) in
                   Ok (if Bool.eqb (t <=? lacking) (is_none traj) then 0 else 1))
                (combine (seq 0 (length dataset)) dataset) ;;
  Ok (list_sum marks).

(** ** The warm-start decision as the specification words it *)

(** The number of retrieved entries with no trajectory. *)
Definition count_without_trajectory (trajs : list (option Trajectory)) : nat :=
  length (filter is_none trajs).

(** The first retrieved neighbour, in retrieval order, that has a trajectory. *)
Fixpoint first_with_trajectory (trajs : list (option Trajectory)) : option Trajectory :=
  match trajs with
  | [] => None
  | Some t :: _ => Some t
  | None :: rest => first_with_trajectory rest
  end.

(** ** Concrete collaborators for examples *)

(** A result type with the shared fields of [ResultProtocol]. *)
Record PlainResult : Type := {
  plain_traj : option Trajectory;
  plain_time_elapsed : option float;
  plain_n_call : Z
}.

#[export] Instance PlainResult_protocol : ResultProtocol PlainResult := {|
  traj := plain_traj;
  abnormal := {| plain_traj := None; plain_time_elapsed := None; plain_n_call := (-1)%Z |}
|}.

(** An internal solver that returns its guide as the solution. *)
Definition echo_solver : ScratchSolver PlainResult :=
  {| scratch_solve guide :=
       {| plain_traj := Some (match guide with Some t => t | None => [] end);
          plain_time_elapsed := None; plain_n_call := 1%Z |} |}.

Definition default_config : SolverConfig := {| n_max_call := 100%Z; timeout := None |}.

(** A case base of one entry, known infeasible, queried with [knn = 1] under
    an explicit threshold of 2. *)
Definition lonely_solver : NearestNeigborSolver PlainResult :=
  {| config := default_config;
     internal_solver := echo_solver;
     vec_descs := np_array2 1 [[0%float]];
     trajectories := [None];
     knn := 1%Z;
     infeasibility_threshold := PyInt 2 |}.

(** The box [[-1, 1] x [-1, 1]] and the origin. *)
Definition unit_box : BoxConst :=
  {| lb := np_array1 [(-1)%float; (-1)%float]; ub := np_array1 [1%float; 1%float] |}.

Definition origin2 : ndarray := np_array1 [0%float; 0%float].

(** The interval [[0, 10]] and a batch of two configurations of dimension 1. *)
Definition interval_box : BoxConst :=
  {| lb := np_array1 [0%float]; ub := np_array1 [10%float] |}.

Definition two_points : ndarray := np_array2 1 [[1%float]; [2%float]].

(** A kinematics map whose single feature sits at the configuration itself:
    positions are the configurations, each Jacobian is the identity. *)
Definition identity_kin : KinematicsMap :=
  {| n_feature := 1;
     dim_tspace := 2;
     radius_list := [];
     kin_state := None;
     kin_fk _ qs :=
       (qs, {| shape := [hd 0 (shape qs); 1; nth 1 (shape qs) 0; nth 1 (shape qs) 0];
               data := flat_map (fun _ => data (np_eye (nth 1 (shape qs) 0)))
                                (seq 0 (hd 0 (shape qs))) |}) |}.

Definition still_robot : RobotModel := {| joint_angle _ := Some 0%float |}.

(** A signed-distance function: the first coordinate of each point (the
    distance to the wall [x = 0]). *)
Definition wall_sdf (points : ndarray) : ndarray :=
  np_array1 (map (fun i => hd 0%float (chunk i (nth 1 (shape points) 0) (data points)))
                 (seq 0 (hd 0 (shape points)))).

(** An instance whose constructor has already reflected. *)
Definition ready {C : Type} (c : C) : AbstractConst C :=
  {| reflect_robot_flag := true; self := c |}.

(** A planning problem on the interval [[0, 10]] with goal [q = 0], the
    tolerance 1 and no global constraint. *)
Definition boundary_problem : Problem ConfigPointConst BoxConst BoxConst ConfigPointConst :=
  {| start := np_array1 [5%float];
     box_const := ready interval_box;
     goal_const := ready {| desired_angles := np_array1 [0%float] |};
     global_ineq_const := None;
     global_eq_const := None;
     eqconst_admissible_mse := 1%float;
     motion_step_box_ := StepFloat 0.5%float;
     skip_init_feasibility_check := false |}.


(** A motion-step check that accepts every step. *)
Definition any_step {L M : Type} (box q1 q2 : ndarray) (c : IneqConst L M) : bool := true.

(** The box [[-2, 2] x [-2, 2]], and a composite of it with the unit box. *)
Definition wide_box : BoxConst :=
  {| lb := np_array1 [(-2)%float; (-2)%float]; ub := np_array1 [2%float; 2%float] |}.

Definition two_boxes : AbstractConst (CompositeConst BoxConst) :=
  ready {| const_list := [ready unit_box; ready wide_box];
           composite_is_equality := false |}.

(** A batch of two configurations of dimension 2. *)
Definition two_configurations : ndarray :=
  np_array2 2 [[0%float; 0%float]; [0.5%float; (-0.5)%float]].

(** What the two members of [two_boxes] return on [two_configurations]. *)
Definition two_boxes_member_results : list (ndarray * ndarray) :=
  match mapM (fun member => evaluate member two_configurations true)
             (const_list (self two_boxes)) with
  | Ok rs => rs
  | Raise _ => []
  end.

(** ** Start feasibility as the specification words it *)

Section StartFeasibility.
Context {G L M E : Type} `{ConstImpl G} `{ConstImpl L} `{ConstImpl M} `{ConstImpl E}.

(** The start vector lies strictly inside the box bounds, componentwise. *)
Definition strictly_inside (p : Problem G L M E) (d : nat) : Prop :=
  forall i, i < d ->
    PrimFloat.ltb (nth i (data (lb (self (box_const p)))) 0%float)
                  (nth i (data (start p)) 0%float) = true
    /\ PrimFloat.ltb (nth i (data (start p)) 0%float)
                     (nth i (data (ub (self (box_const p)))) 0%float) = true.

End StartFeasibility.

(** A planning problem in the box [[-2, 2] x [-2, 2]] whose global inequality
    constraint is [two_boxes]; its start lies in the wide box and outside the
    unit box. *)
Definition boxed_problem : Problem ConfigPointConst BoxConst BoxConst ConfigPointConst :=
  {| start := np_array1 [1.5%float; 0%float];
     box_const := ready wide_box;
     goal_const := ready {| desired_angles := origin2 |};
     global_ineq_const := Some (inr two_boxes);
     global_eq_const := None;
     eqconst_admissible_mse := 1%float;
     motion_step_box_ := StepFloat 0.5%float;
     skip_init_feasibility_check := false |}.

(** The threshold the specification asks for: among the candidates, in
    ascending order, the first one with the fewest mismatches. *)
Fixpoint fewest_mismatches (candidates : list (nat * nat)) : option (nat * nat) :=
  match candidates with
  | [] => None
  | (t, e) :: rest =>
      match fewest_mismatches rest with
      | Some (t', e') => if e <=? e' then Some (t, e) else Some (t', e')
      | None => Some (t, e)
      end
  end.

Definition loo_threshold (k : nat) (dataset : list (list float * option Trajectory))
           (vec_descs : ndarray) : result (option nat) :=
  tallies <- mapM (fun t => e <- loo_mismatches k dataset vec_descs t ;; Ok (t, e))
                  (seq 1 (k - 1)) ;;
  Ok (option_map fst (fewest_mismatches tallies)).

(** A case base in which two cases share the feature vector [0]: the first
    is known infeasible, the second has a trajectory, and so have four cases
    far away. *)
Definition some_trajectory : Trajectory := [np_array1 [0%float]].

Definition twin_dataset : list (list float * option Trajectory) :=
  [([0%float], None);
   ([0%float], Some some_trajectory);
   ([10%float], Some some_trajectory);
   ([11%float], Some some_trajectory);
   ([12%float], Some some_trajectory);
   ([13%float], Some some_trajectory)].

Definition twin_vec_descs : ndarray :=
  np_array2 1 [[0%float]; [0%float]; [10%float]; [11%float]; [12%float]; [13%float]].

(** ** Notions used in the statements *)

(** A worker's result that carries no trajectory. *)
Definition failed {R : Type} `{ResultProtocol R} (r : R) : Prop := traj r = None.

(** [b] has [n] entries on its first axis and the shape [rest] below its
    second axis. *)
Definition joinable (n : nat) (rest : list nat) (b : ndarray) : Prop :=
  exists m, shape b = n :: m :: rest.

(** The [i]-th entry of a joinable array, along its first axis. *)
Definition entry (rest : list nat) (i : nat) (b : ndarray) : ndarray :=
  {| shape := dim1 b :: rest; data := chunk i (row_size b) (data b) |}.

(** A message of the start-feasibility diagnostic. *)
Definition is_message (m : string) : Prop := exists what, m = does_not_satisfy what.

(** The messages for the two box bounds, given the two tests. *)
Definition box_messages (below above : bool) : list string :=
  (if negb below then [does_not_satisfy "BoxConst upper"] else [])
    ++ (if negb above then [does_not_satisfy "BoxConst lower"] else []).

Section StatementNotions.
Context {G L M E : Type} `{ConstImpl G} `{ConstImpl L} `{ConstImpl M} `{ConstImpl E}.
Variable is_valid_motion_step : ndarray -> ndarray -> ndarray -> IneqConst L M -> bool.


End StatementNotions.

(** Every case of the case base comes first in the ranking of the distances
    to its own feature vector (as it does when no other case shares that
    vector), and the ranking covers the case base. *)
Definition ranks_itself_first (vec_descs : ndarray)
           (dataset : list (list float * option Trajectory)) : Prop :=
  forall i desc traj sqdists,
    nth_error dataset i = Some (desc, traj) ->
    sqdists_to vec_descs (np_array1 desc) = Ok sqdists ->
    length sqdists = length dataset /\ hd_error (np_argsort sqdists) = Some i.

(** A case base whose feature vectors are pairwise distinct. *)
Definition distinct_dataset : list (list float * option Trajectory) :=
  [([0%float], None);
   ([10%float], Some some_trajectory);
   ([11%float], Some some_trajectory);
   ([12%float], Some some_trajectory)].

Definition distinct_vec_descs : ndarray :=
  np_array2 1 [[0%float]; [10%float]; [11%float]; [12%float]].

(** ** The order numpy sorts by *)

(** A rank for every float, such that [np_lt] is the order of the ranks: the
    class first (from minus infinity to plus infinity, NaN above all), then
    exponent and mantissa, reversed for negative numbers. *)
Definition rank_of_spec (f : SpecFloat.spec_float) : Z * Z * Z :=
  match f with
  | SpecFloat.S754_nan => (3, 0, 0)
  | SpecFloat.S754_zero _ => (0, 0, 0)
  | SpecFloat.S754_infinity s => (if s then -2 else 2, 0, 0)
  | SpecFloat.S754_finite s m e =>
      if s then (-1, - e, - Z.pos m) else (1, e, Z.pos m)
  end%Z.

Definition rank (x : float) : Z * Z * Z := rank_of_spec (Prim2SF x).

Definition rank_lt (r1 r2 : Z * Z * Z) : Prop :=
  let '(a1, b1, c1) := r1 in
  let '(a2, b2, c2) := r2 in
  (a1 < a2 \/ (a1 = a2 /\ (b1 < b2 \/ (b1 = b2 /\ c1 < c2))))%Z.

(** Positions in a ranking are in order when no later key is smaller. *)
Definition in_order (keys : list float) (a b : nat) : Prop :=
  np_lt (nth b keys nan) (nth a keys nan) = false.

(** ** Articulated collision avoidance *)

(** *** numpy routines used by [CollFreeConst] *)

(** [np.tile(np.array(l), reps)] for a list of scalars. *)
Definition np_tile1 (l : list float) (reps : nat) : ndarray :=
  np_array1 (concat (repeat l reps)).

(** The values a right-hand side [v] takes when it is assigned to a slice of
    shape [(n,)]: [v] must broadcast to that shape. *)
Definition broadcast_to_vector (n : nat) (v : ndarray) : result (list float) :=
  match pad_shape 1 (strip_leading_ones (ndim v - 1) (shape v)) with
  | [p] =>
      if p =? n then Ok (firstn n (data v))
      else if p =? 1 then Ok (repeat (hd 0%float (data v)) n)
      else Raise (ValueError "could not broadcast input array")
  | _ => Raise (ValueError "could not broadcast input array")
  end.

(** The position read along an axis of extent [extent] when the output is at
    [i]: an axis of extent 1 is repeated. *)
Definition bidx (extent i : nat) : nat := if extent =? 1 then 0 else i.

(** [np.einsum("ijk,ijkl->ijl", g, jac)]; each sum over [k] is accumulated
    from the left. *)
Definition np_einsum_ijk_ijkl (g jac : ndarray) : result ndarray :=
  match shape g, shape jac with
  | [gi; gj; gk], [ji; jj; jk; l] =>
      match bdim gi ji, bdim gj jj, bdim gk jk with
      | Some ni, Some nj, Some nk =>
          let at_g i j k :=
            nth ((bidx gi i * gj + bidx gj j) * gk + bidx gk k) (data g) 0%float in
          let at_jac i j k c :=
            nth (((bidx ji i * jj + bidx jj j) * jk + bidx jk k) * l + c) (data jac) 0%float in
          Ok {| shape := [ni; nj; l];
                data :=
                  flat_map
                    (fun i =>
                       flat_map
                         (fun j =>
                            map (fun c =>
                                   fold_left
                                     (fun acc k =>
                                        PrimFloat.add acc
                                          (PrimFloat.mul (at_g i j k) (at_jac i j k c)))
                                     (seq 0 nk) 0%float)
                                (seq 0 l))
                         (seq 0 nj))
                    (seq 0 ni) |}
      | _, _, _ => Raise (ValueError "operands could not be broadcast together")
      end
  | _, _ => Raise (ValueError "einstein sum subscripts string does not match the operands")
  end.

(** [np.argmin(l)] on floats: the first index of the minimum; a NaN counts as
    the minimum, and the first one ends the search. *)
Fixpoint argmin_float_from (best_i : nat) (best : float) (i : nat) (l : list float) : nat :=
  match l with
  | [] => best_i
  | x :: l' =>
      if PrimFloat.leb best x then argmin_float_from best_i best (S i) l'
      else if PrimFloat.is_nan x then i
      else argmin_float_from i x (S i) l'
  end.

Definition np_argmin_float (l : list float) : result nat :=
  match l with
  | [] => Raise (ValueError "attempt to get argmin of an empty sequence")
  | x :: l' => Ok (if PrimFloat.is_nan x then 0 else argmin_float_from 0 x 1 l')
  end.

(** [for row in a]: the entries along the first axis. *)
Definition np_iter (a : ndarray) : result (list ndarray) :=
  match shape a with
  | [] => Raise (TypeError "iteration over a 0-d array")
  | n :: _ => mapM (getitem a) (seq 0 n)
  end.

(** *** [CollFreeConst] *)

Record CollFreeConst : Type := {
  colkin : KinematicsMap;
  collfree_sdf : option (ndarray -> ndarray)      (* the attribute [sdf] *)
}.

(** The local [eps = 1e-7] of [_evaluate]. *)
Definition CollFreeConst_eps : float := 0x1.ad7f29abcaf48p-24%float.

Definition CollFreeConst__evaluate (c : CollFreeConst) (qs : ndarray) (with_jacobian : bool)
  : result (ndarray * ndarray) :=
  match collfree_sdf c with
  | None => Raise (AssertionError "self.sdf is not None")
  | Some sdf =>
      '(n_point, dim_cspace) <- unpack_shape2 qs ;;
      let n_feature := n_feature (colkin c) in
      let dim_tspace := dim_tspace (colkin c) in
      let '(xss, jacss) := kin_map (colkin c) qs in
      xs_stacked <- reshape [Some (n_point * n_feature); Some dim_tspace] xss ;;
      let sds_stacked := sdf xs_stacked in
      let margin_radius := np_tile1 (radius_list (colkin c)) n_point in
      fs_stacked <- np_sub sds_stacked margin_radius ;;
      fss <- reshape [Some n_point; Some n_feature] fs_stacked ;;
      if with_jacobian then
        columns <- mapM (fun i =>
                           let xs_stacked_plus :=
                             add_to_column dim_tspace i CollFreeConst_eps xs_stacked in
                           let sds_stacked_plus := sdf xs_stacked_plus in
                           diff <- np_sub sds_stacked_plus sds_stacked ;;
                           broadcast_to_vector (n_feature * n_point)
                                               (np_div_scalar diff CollFreeConst_eps))
                        (seq 0 dim_tspace) ;;
        let grads_stacked :=
          {| shape := [n_feature * n_point; dim_tspace];
             data := flat_map (fun k => map (fun col => nth k col 0%float) columns)
                              (seq 0 (n_feature * n_point)) |} in
        gradss <- reshape [Some n_point; Some n_feature; Some dim_tspace] grads_stacked ;;
        Jss <- np_einsum_ijk_ijkl gradss jacss ;;
        Ok (fss, Jss)
      else Ok (fss, dummy_jacobian)
  end.

Definition CollFreeConst__reflect_skrobot_model (c : CollFreeConst)
           (robot_model : option RobotModel) : result CollFreeConst :=
  match robot_model with
  | None => Raise (AssertionError "robot_model must not be None")
  | Some rm =>
      Ok {| colkin := kin_reflect_skrobot_model (colkin c) rm;
            collfree_sdf := collfree_sdf c |}
  end.

#[export] Instance CollFreeConst_impl : ConstImpl CollFreeConst := {|
  type_name _ := "CollFreeConst";
  is_equality _ := false;
  _evaluate := CollFreeConst__evaluate;
  _reflect_skrobot_model := CollFreeConst__reflect_skrobot_model
|}.

Definition CollFreeConst_init (colkin : KinematicsMap) (sdf : option (ndarray -> ndarray))
           (robot_model : option RobotModel) : result (AbstractConst CollFreeConst) :=
  reflect_skrobot_model (new_object {| colkin := colkin; collfree_sdf := sdf |}) robot_model.

(** *** [ReducedCollisionFreeConst] *)

(** The subclass adds no attribute; it overrides [_evaluate]. *)
Record ReducedCollisionFreeConst : Type := { as_CollFreeConst : CollFreeConst }.

(** The body of the loop over [zip(fss, jss)]: what is appended to
    [fss_new_tmp] and to [jss_new_tmp]. *)
Definition reduce_row (with_jacobian : bool) (fs js : ndarray)
  : result (ndarray * list ndarray) :=
  idx_closest_feature <- np_argmin_float (data fs) ;;
  let fs_min := nth idx_closest_feature (data fs) 0%float in
  let fs_new := np_array1 [fs_min] in
  if with_jacobian then
    jac_min <- getitem js idx_closest_feature ;;
    let jac_new := expand_dims0 jac_min in
    Ok (fs_new, [jac_new])
  else Ok (fs_new, []).

Definition ReducedCollisionFreeConst__evaluate (c : ReducedCollisionFreeConst)
           (qs : ndarray) (with_jacobian : bool) : result (ndarray * ndarray) :=
  '(fss, jss) <- CollFreeConst__evaluate (as_CollFreeConst c) qs with_jacobian ;;
  fs_rows <- np_iter fss ;;
  js_rows <- np_iter jss ;;
  reduced <- mapM (fun '(fs, js) => reduce_row with_jacobian fs js)
                  (combine fs_rows js_rows) ;;
  let fss_new_tmp := map fst reduced in
  let jss_new_tmp := flat_map snd reduced in
  fss_new <- np_array_of fss_new_tmp ;;
  if with_jacobian then
    jss_new <- np_array_of jss_new_tmp ;;
    Ok (fss_new, jss_new)
  else Ok (fss_new, dummy_jacobian).

Definition ReducedCollisionFreeConst__reflect_skrobot_model (c : ReducedCollisionFreeConst)
           (robot_model : option RobotModel) : result ReducedCollisionFreeConst :=
  base <- CollFreeConst__reflect_skrobot_model (as_CollFreeConst c) robot_model ;;
  Ok {| as_CollFreeConst := base |}.

#[export] Instance ReducedCollisionFreeConst_impl : ConstImpl ReducedCollisionFreeConst := {|
  type_name _ := "ReducedCollisionFreeConst";
  is_equality _ := false;
  _evaluate := ReducedCollisionFreeConst__evaluate;
  _reflect_skrobot_model := ReducedCollisionFreeConst__reflect_skrobot_model
|}.

Definition ReducedCollisionFreeConst_init (colkin : KinematicsMap)
           (sdf : option (ndarray -> ndarray)) (robot_model : option RobotModel)
  : result (AbstractConst ReducedCollisionFreeConst) :=
  reflect_skrobot_model
    (new_object {| as_CollFreeConst := {| colkin := colkin; collfree_sdf := sdf |} |})
    robot_model.

(** A kinematics map with two features in a one-dimensional task space: the
    features sit at the first and the second coordinate of the configuration
    (of dimension 2), with clearance radii 0.5 and 0.25. *)
Definition coordinates_kin : KinematicsMap :=
  {| n_feature := 2;
     dim_tspace := 1;
     radius_list := [0.5%float; 0.25%float];
     kin_state := None;
     kin_fk _ qs :=
       ({| shape := [hd 0 (shape qs); 2; 1]; data := data qs |},
        {| shape := [hd 0 (shape qs); 2; 1; 2];
           data := flat_map (fun _ => data (np_eye 2)) (seq 0 (hd 0 (shape qs))) |}) |}.

(** The clearance from the wall [x = 0], over [coordinates_kin]. *)
Definition wall_clearance : CollFreeConst :=
  {| colkin := coordinates_kin; collfree_sdf := Some wall_sdf |}.

(** A batch whose first configuration keeps clear of the wall and whose
    second one does not. *)
Definition clear_then_colliding : ndarray :=
  np_array2 2 [[1%float; 2%float]; [(-3)%float; 4%float]].

(** ** Notions about the arg-min of a row *)

(** An entry [x] of [l] is least: it is a NaN, or no entry is below it. *)
Definition least_of (l : list float) (x : float) : Prop :=
  PrimFloat.is_nan x = true \/ Forall (fun y => PrimFloat.leb x y = true) l.

(** The position [np.argmin] returns on a non-empty row. *)
Definition argmin_of (l : list float) : nat :=
  match np_argmin_float l with Ok j => j | Raise _ => 0 end.

(** Row [i] of a matrix with [m] columns. *)
Definition row_of (m : nat) (a : ndarray) (i : nat) : list float := chunk i m (data a).

(** What [CollFreeConst] returns on [clear_then_colliding]: the second
    configuration has a negative clearance. *)
Definition clear_then_colliding_residual : ndarray :=
  np_array2 2 [[0.5%float; 1.75%float]; [(-3.5)%float; 3.75%float]].

(** The Jacobian [CollFreeConst] returns on [clear_then_colliding]. *)
Definition clear_then_colliding_jacobian : ndarray :=
  match CollFreeConst__evaluate wall_clearance clear_then_colliding true with
  | Ok (_, jss) => jss
  | Raise _ => dummy_jacobian
  end.

(** ** The solve lifecycle ([AbstractSolver]) *)

(** How a call of the lifecycle ends. *)
Inductive outcome (A : Type) : Type :=
| Return (a : A)
| Throw (e : exn).

Arguments Return {A} a.
Arguments Throw {A} e.

Definition lift {A : Type} (c : result A) : outcome A :=
  match c with
  | Ok a => Return a
  | Raise e => Throw e
  end.

(** An instance attribute, which exists once something has assigned it. *)
Inductive attribute (A : Type) : Type :=
| Absent
| Present (a : A).

Arguments Absent {A}.
Arguments Present {A} a.

(** The field [time_elapsed] of [ResultProtocol], which [solve] assigns. *)
Class TimedResult (R : Type) : Type := {
  time_elapsed : R -> option float;
  set_time_elapsed : R -> float -> R;
  time_elapsed_set : forall r x, time_elapsed (set_time_elapsed r x) = Some x
}.

#[export] Instance PlainResult_timed : TimedResult PlainResult := {|
  time_elapsed := plain_time_elapsed;
  set_time_elapsed r x :=
    {| plain_traj := plain_traj r; plain_time_elapsed := Some x;
       plain_n_call := plain_n_call r |};
  time_elapsed_set _ _ := eq_refl
|}.

(** What [solve] does besides computing, in order: the calls of the [signal]
    module and the call of [self._solve]. *)
Inductive lifecycle_event (Gd : Type) : Type :=
| SignalHandler                     (* signal.signal(signal.SIGALRM, handler) *)
| Setitimer (seconds : float)       (* signal.setitimer(signal.ITIMER_REAL, timeout) *)
| Solve (guiding_traj : option Gd)  (* self._solve(guiding_traj) *)
| Alarm0.                           (* signal.alarm(0) *)

Arguments SignalHandler {Gd}.
Arguments Setitimer {Gd} seconds.
Arguments Solve {Gd} guiding_traj.
Arguments Alarm0 {Gd}.

Section Lifecycle.
Context {G L M E : Type} `{ConstImpl G} `{ConstImpl L} `{ConstImpl M} `{ConstImpl E}.

(** What a concrete solver class supplies: its name, its [config] and the
    abstract method [_setup]. *)
Class SolverImpl (S : Type) : Type := {
  solver_type_name : S -> string;               (* type(self).__name__ *)
  solver_config : S -> SolverConfig;            (* self.config *)
  _setup : S -> Problem G L M E -> outcome S
}.

#[local] Hint Mode SolverImpl ! : typeclass_instances.

(** An instance of a solver class: the attribute [problem], which no
    constructor of [interface.py] assigns, and the subclass's attributes. *)
Record Solver (S : Type) : Type := {
  problem : attribute (option (Problem G L M E));
  this : S
}.

(** [AbstractSolver.setup] *)
Definition setup {S : Type} `{SolverImpl S} (o : Solver S) (p : Problem G L M E)
  : outcome (Solver S) :=
  match _setup (this o) p with
  | Return s => Return {| problem := Present (Some p); this := s |}
  | Throw e => Throw e
  end.

Definition already_infeasible (msg : string) : string :=
  "initial state is already infeasible: " ++ msg.

(** The calls that arm the alarm, and the one that resets it. *)
Definition arming {Gd : Type} (config : SolverConfig) : list (lifecycle_event Gd) :=
  match timeout config with
  | Some t => [SignalHandler; Setitimer t]
  | None => []
  end.

Definition resetting {Gd : Type} (config : SolverConfig) : list (lifecycle_event Gd) :=
  match timeout config with
  | Some _ => [Alarm0]
  | None => []
  end.

Section Solve.
Context {S R Gd : Type} `{SolverImpl S} `{ResultProtocol R} `{TimedResult R}.

(** How the call [self._solve(guiding_traj)] ends in the run at hand: with a
    result, or with an exception ([TimeoutError] when the alarm goes off
    during the call). *)
Variable _solve : S -> option Gd -> outcome R.

(** The body of the [try] statement. *)
Definition solve_attempt (o : Solver S) (guiding_traj : option Gd)
           (raise_init_infeasible : bool) : list (lifecycle_event Gd) * outcome R :=
  match problem o with
  | Absent =>
      ([], Throw (AttributeError (no_attribute (solver_type_name (this o)) "problem")))
  | Present None => ([], Throw (AssertionError "self.problem is not None"))
  | Present (Some p) =>
      match check_init_feasibility p with
      | Raise e => ([], Throw e)
      | Ok (is_init_feasible, msg) =>
          if is_init_feasible then ([Solve guiding_traj], _solve (this o) guiding_traj)
          else if raise_init_infeasible
               then ([], Throw (RuntimeError (already_infeasible msg)))
               else ([], Return abnormal)
      end
  end.

(** [AbstractSolver.solve]; [ts] and [now] are the two readings of
    [time.time()]. *)
Definition solve (o : Solver S) (guiding_traj : option Gd) (raise_init_infeasible : bool)
           (ts now : float) : list (lifecycle_event Gd) * outcome R :=
  let config := solver_config (this o) in
  if match timeout config with
     | Some t => PrimFloat.ltb 0%float t
     | None => true
     end
  then
    let '(events, tried) := solve_attempt o guiding_traj raise_init_infeasible in
    let caught := match tried with
                  | Throw TimeoutError => Return abnormal        (* except TimeoutError *)
                  | _ => tried
                  end in
    match caught with
    | Throw e => (arming config ++ events, Throw e)
    | Return ret =>
        (arming config ++ events ++ resetting config,
         Return (set_time_elapsed ret (PrimFloat.sub now ts)))
    end
  else ([], Throw (AssertionError "self.config.timeout > 0")).

End Solve.

(** *** [ParallelSolver]: set-up and construction *)

Record ParallelSolver (I : Type) : Type := {
  parallel_config : SolverConfig;                (* config *)
  parallel_internal_solver : Solver I;           (* internal_solver *)
  parallel_n_process : Z                         (* n_process *)
}.

(** [ParallelSolver._setup] *)
Definition ParallelSolver__setup {I : Type} `{SolverImpl I}
           (c : ParallelSolver I) (p : Problem G L M E) : outcome (ParallelSolver I) :=
  match setup (parallel_internal_solver c) p with
  | Return internal =>
      Return {| parallel_config := parallel_config c;
                parallel_internal_solver := internal;
                parallel_n_process := parallel_n_process c |}
  | Throw e => Throw e
  end.

#[export] Instance ParallelSolver_impl (I : Type) `{SolverImpl I}
  : SolverImpl (ParallelSolver I) := {|
  solver_type_name _ := "ParallelSolver";
  solver_config := @parallel_config I;
  _setup := ParallelSolver__setup
|}.


End Lifecycle.

#[export] Hint Mode SolverImpl - - - - ! : typeclass_instances.

(** A solver class for examples: it keeps its configuration, its [_setup]
    does nothing. *)
Record StubSolver : Type := { stub_config : SolverConfig }.

#[export] Instance StubSolver_impl
  : SolverImpl (G := ConfigPointConst) (L := BoxConst) (M := BoxConst) (E := ConfigPointConst)
               StubSolver := {|
  solver_type_name _ := "StubSolver";
  solver_config := stub_config;
  _setup s _ := Return s
|}.

(** Its [_solve] returns the guide as the solution. *)
Definition stub_solve (s : StubSolver) (guiding_traj : option Trajectory)
  : outcome PlainResult :=
  Return (scratch_solve echo_solver guiding_traj).

(** A configuration with a deadline of half a second. *)
Definition timed_config : SolverConfig := {| n_max_call := 100%Z; timeout := Some 0.5%float |}.

(** A stub solver under [timed_config], set up for [boxed_problem] (which
    has a global inequality constraint), for [outside_problem] (whose start
    is outside the box) and for [boundary_problem] (whose start is
    feasible). *)
Definition stub_on_boxed_problem : Solver StubSolver :=
  {| problem := Present (Some boxed_problem); this := {| stub_config := timed_config |} |}.


Definition stub_on_boundary_problem : Solver StubSolver :=
  {| problem := Present (Some boundary_problem); this := {| stub_config := timed_config |} |}.


(** A composite of the unit box, ready, with the wide box as a fresh instance
    on which no reflection has run. *)
Definition ready_and_fresh : AbstractConst (CompositeConst BoxConst) :=
  ready {| const_list := [ready unit_box; new_object wide_box];
           composite_is_equality := false |}.

(** A solver over the case base [twin_dataset] that retrieves three
    neighbours. *)
Definition twin_solver : NearestNeigborSolver PlainResult :=
  {| config := default_config;
     internal_solver := echo_solver;
     vec_descs := twin_vec_descs;
     trajectories := map snd twin_dataset;
     knn := 3%Z;
     infeasibility_threshold := PyInt 2 |}.

(** The squared distances from the query [10.5] to the cases of
    [twin_dataset]. *)
Definition twin_sqdists : list float :=
  [110.25%float; 110.25%float; 0.25%float; 0.25%float; 2.25%float; 6.25%float].

(** ** Box limits from a robot description *)

(** Sequencing of calls that end in an [outcome]. *)
Definition and_then {A B : Type} (c : outcome A) (k : A -> outcome B) : outcome B :=
  match c with
  | Return a => k a
  | Throw e => Throw e
  end.

Fixpoint for_each {A B : Type} (f : A -> outcome B) (l : list A) : outcome (list B) :=
  match l with
  | [] => Return []
  | x :: l' => and_then (f x) (fun y => and_then (for_each f l') (fun ys => Return (y :: ys)))
  end.

(** What a [JointLimit] holds as a bound: [None], the object [np.nan] itself,
    or another float object. *)
Inductive limit_value : Type :=
| LimitNone
| LimitNpNan
| LimitFloat (x : float).

(** The loaded robot description, as [from_urdf] reads it
    ([skmp.utils.urdf], not among the files at hand):
    [urdf.joint_map[joint_name].limit] with its [lower] and [upper]. *)
Record JointLimit : Type := { lower : limit_value; upper : limit_value }.
Record Joint : Type := { limit : option JointLimit }.
Record URDF : Type := { joint_map : string -> option Joint }.

(** The float a bound holds. *)
Definition limit_float (v : limit_value) : float :=
  match v with
  | LimitFloat x => x
  | LimitNpNan | LimitNone => nan
  end.

(** [v in [-np.inf, np.nan, None]] and [v in [+np.inf, np.nan, None]]:
    membership holds for an entry that is the same object as [v] or equal to
    it, and a NaN equals nothing. *)
Definition in_lower_defaults (v : limit_value) : bool :=
  match v with
  | LimitNone | LimitNpNan => true
  | LimitFloat x => PrimFloat.eqb x neg_infinity
  end.

Definition in_upper_defaults (v : limit_value) : bool :=
  match v with
  | LimitNone | LimitNpNan => true
  | LimitFloat x => PrimFloat.eqb x infinity
  end.

(** [2 * np.pi] and [-2 * np.pi] *)
Definition two_pi : float := 0x1.921fb54442d18p+2%float.
Definition minus_two_pi : float := (-0x1.921fb54442d18p+2)%float.

(** One pass of the loop over [joint_names]: what is appended to [b_min] and
    to [b_max]. *)
Definition joint_bounds (urdf : URDF) (joint_name : string) : outcome (float * float) :=
  match joint_map urdf joint_name with
  | None => Throw (KeyError joint_name)
  | Some joint =>
      match limit joint with
      | None => Throw (AttributeError (no_attribute "NoneType" "lower"))
      | Some l =>
          Return (if in_lower_defaults (lower l) then minus_two_pi else limit_float (lower l),
                  if in_upper_defaults (upper l) then two_pi else limit_float (upper l))
      end
  end.

(** [a[i]] on a vector given by its entries. *)
Definition vector_item (a : list float) (i : nat) : result float :=
  match nth_error a i with
  | Some x => Ok x
  | None => Raise (IndexError "index out of bounds")
  end.

(** [BoxConst.from_urdf], on the loaded description; [base_bounds] holds two
    vectors. *)
Definition BoxConst_from_urdf (urdf : URDF) (joint_names : list string)
           (base_bounds : option (list float * list float))
  : outcome (AbstractConst BoxConst) :=
  and_then (for_each (joint_bounds urdf) joint_names) (fun bounds =>
  and_then (match base_bounds with
            | Some (base_lb, base_ub) =>
                for_each (fun i => lift (l <- vector_item base_lb i ;;
                                         u <- vector_item base_ub i ;;
                                         Ok (l, u)))
                         (seq 0 3)
            | None => Return []
            end) (fun base =>
  let b_min := map fst bounds ++ map fst base in
  let b_max := map snd bounds ++ map snd base in
  lift (BoxConst_init (np_array1 b_min) (np_array1 b_max)))).

(** *** [JaxonConfig] *)

(** ["...{}".format(i)] for a natural number [i]. *)
Definition py_format_nat (prefix : string) (i : nat) : string :=
  prefix ++ DecimalString.NilZero.string_of_uint (Nat.to_uint i).

(** [JaxonConfig._get_control_joint_names] *)
Definition JaxonConfig__get_control_joint_names : list string :=
  flat_map (fun i => [py_format_nat "RARM_JOINT" i; py_format_nat "LARM_JOINT" i]) (seq 0 8)
  ++ flat_map (fun i => [py_format_nat "RLEG_JOINT" i; py_format_nat "LLEG_JOINT" i]) (seq 0 6)
  ++ map (fun i => py_format_nat "CHEST_JOINT" i) (seq 0 3).

(** [JaxonConfig.get_box_const], on the loaded description of the robot. *)
Definition JaxonConfig_get_box_const (urdf : URDF) : outcome (AbstractConst BoxConst) :=
  let base_bounds :=
    ([(-1)%float; (-1)%float; (-2)%float; (-1)%float; (-1)%float; (-1)%float],
     [1%float; 1%float; 2%float; 1%float; 1%float; 1%float]) in
  BoxConst_from_urdf urdf JaxonConfig__get_control_joint_names (Some base_bounds).

(** Every joint named has a limit in the description. *)
Definition has_limits (urdf : URDF) (joint_names : list string) : Prop :=
  Forall (fun joint_name =>
            exists joint l, joint_map urdf joint_name = Some joint /\ limit joint = Some l)
         joint_names.

(** The bounds [from_urdf] takes for a joint from its limit. *)
Definition bounds_of_limit (l : JointLimit) : float * float :=
  (if in_lower_defaults (lower l) then minus_two_pi else limit_float (lower l),
   if in_upper_defaults (upper l) then two_pi else limit_float (upper l)).

(** A description in which every joint turns within [[-1, 1]], but for
    ["free"], which has no lower bound and an infinite upper bound. *)
Definition toy_urdf : URDF :=
  {| joint_map name :=
       if String.eqb name "free"
       then Some {| limit := Some {| lower := LimitNone;
                                     upper := LimitFloat infinity |} |}
       else Some {| limit := Some {| lower := LimitFloat (-1)%float;
                                     upper := LimitFloat 1%float |} |} |}.

(** A description that knows the single joint ["known"]. *)
Definition known_joint_urdf : URDF :=
  {| joint_map name :=
       if String.eqb name "known"
       then Some {| limit := Some {| lower := LimitFloat (-1)%float;
                                     upper := LimitFloat 1%float |} |}
       else None |}.

(** A trajectory of two waypoints whose second one is behind the wall, and a
    planning problem whose global inequality constraint is the reduced
    clearance from the wall and whose goal is that second waypoint. *)
Definition into_the_wall : Trajectory :=
  [np_array1 [1%float; 2%float]; np_array1 [(-3)%float; 4%float]].

Definition wall_problem
  : Problem ConfigPointConst ReducedCollisionFreeConst BoxConst ConfigPointConst :=
  {| start := np_array1 [1%float; 2%float];
     box_const := ready {| lb := np_array1 [(-10)%float; (-10)%float];
                           ub := np_array1 [10%float; 10%float] |};
     goal_const := ready {| desired_angles := np_array1 [(-3)%float; 4%float] |};
     global_ineq_const := Some (inl (ready {| as_CollFreeConst := wall_clearance |}));
     global_eq_const := None;
     eqconst_admissible_mse := 1%float;
     motion_step_box_ := StepFloat 0.5%float;
     skip_init_feasibility_check := false |}.

(* ================================================================== *)
(** * Part II. Properties *)
(* ================================================================== *)

(** ** Results *)

Lemma bind_ok_inv {A B : Type} (c : result A) (k : A -> result B) (b : B) :
  bind c k = Ok b -> exists a, c = Ok a /\ k a = Ok b.
Proof.
  destruct c as [a | e]; simpl; intros Hb.
  - exists a. split; [reflexivity | exact Hb].
  - discriminate Hb.
Qed.

Lemma mapM_ok_length {A B : Type} (f : A -> result B) :
  forall l rs, mapM f l = Ok rs -> length rs = length l.
Proof.
  induction l as [| x l IH]; simpl; intros rs Hrs.
  - injection Hrs as <-. reflexivity.
  - destruct (f x) as [y | e]; simpl in Hrs; [| discriminate].
    destruct (mapM f l) as [ys | e]; simpl in Hrs; [| discriminate].
    injection Hrs as <-. simpl. f_equal. apply IH. reflexivity.
Qed.

Lemma mapM_ok_Forall2 {A B : Type} (f : A -> result B) :
  forall l rs, mapM f l = Ok rs <-> Forall2 (fun x y => f x = Ok y) l rs.
Proof.
  induction l as [| x l IH]; simpl; intros rs.
  - split.
    + intros Hrs. injection Hrs as <-. constructor.
    + intros Hall. inversion Hall. reflexivity.
  - split.
    + intros Hrs.
      destruct (f x) as [y | e] eqn:Hfx; simpl in Hrs; [| discriminate].
      destruct (mapM f l) as [ys | e] eqn:Hm; simpl in Hrs; [| discriminate].
      injection Hrs as <-. constructor; [exact Hfx | apply IH; reflexivity].
    + intros Hall. inversion Hall as [| x' y l' ys Hfx Hrest]; subst.
      rewrite Hfx. simpl. apply IH in Hrest. rewrite Hrest. reflexivity.
Qed.

(** ** The nearest-neighbour solver built with its defaults *)

Lemma py_range_empty (a b : Z) : (b <= a)%Z -> py_range a b = [].
Proof.
  intros Hle. unfold py_range.
  replace (Z.to_nat (b - a)) with 0 by lia. reflexivity.
Qed.

Lemma calibrate_small_knn_raises (vec_descs : ndarray)
      (trajectories : list (option Trajectory)) (knn : Z)
      (dataset : list (list float * option Trajectory)) :
  (knn <= 1)%Z ->
  calibrate vec_descs trajectories knn dataset
  = Raise (ValueError "attempt to get argmin of an empty sequence").
Proof.
  intros Hk. unfold calibrate. rewrite py_range_empty by exact Hk. reflexivity.
Qed.

(** C10. [NearestNeigborSolver.init] called with the default [knn = 1] and no
    explicit threshold never returns a solver: whatever the case base, the
    call raises; and as soon as the case base is non-empty and its feature
    vectors stack into an array, the exception is the one [np.argmin] raises
    on the empty list of tallies. *)
Theorem NearestNeigborSolver_init_default_knn_raises
        (R : Type) (RP : ResultProtocol R)
        (solver_type : SolverConfig -> ScratchSolver R) (config : SolverConfig)
        (dataset : list (list float * option Trajectory)) :
  (forall s, NearestNeigborSolver_init solver_type config dataset 1 None <> Ok s)
  /\ (forall vec_descs,
         dataset <> [] ->
         np_array_of (map np_array1 (map fst dataset)) = Ok vec_descs ->
         NearestNeigborSolver_init solver_type config dataset 1 None
         = Raise (ValueError "attempt to get argmin of an empty sequence")).
Proof.
  split.
  - intros s Hs. unfold NearestNeigborSolver_init in Hs.
    destruct dataset as [| d ds]; [discriminate Hs |].
    destruct (np_array_of (map np_array1 (map fst (d :: ds)))) as [v | e];
      cbn [bind] in Hs; [| discriminate Hs].
    rewrite calibrate_small_knn_raises in Hs by lia. discriminate Hs.
  - intros v Hne Hv. unfold NearestNeigborSolver_init.
    destruct dataset as [| d ds]; [contradiction Hne; reflexivity |].
    rewrite Hv. cbn [bind]. rewrite calibrate_small_knn_raises by lia. reflexivity.
Qed.

(** The theorem at the case base [twin_dataset]. *)
Lemma NearestNeigborSolver_init_default_knn_raises_witness :
  NearestNeigborSolver_init (fun _ => echo_solver) default_config twin_dataset 1 None
  = Raise (ValueError "attempt to get argmin of an empty sequence").
Proof.
  apply (proj2 (NearestNeigborSolver_init_default_knn_raises
                  PlainResult_protocol (fun _ => echo_solver) default_config twin_dataset)
               twin_vec_descs).
  - discriminate.
  - reflexivity.
Defined.

(** ** The racing meta-solver *)

Section Racing.
Context {R : Type} `{ResultProtocol R}.

Lemma consume_results_winner (processes : list nat) :
  forall (losers : list R) (remaining : nat) (winner : R) (later : list R) (result : option R),
    Forall failed losers ->
    traj winner <> None ->
    length losers < remaining ->
    consume_results processes remaining (losers ++ winner :: later) result
    = (map Terminated processes ++ map Joined processes, Returns winner).
Proof.
  induction losers as [| l losers IH]; intros remaining winner later result Hfail Hwin Hlen.
  - destruct remaining as [| remaining]; [simpl in Hlen; lia |].
    simpl. destruct (traj winner); [reflexivity | contradiction Hwin; reflexivity].
  - destruct remaining as [| remaining]; [simpl in Hlen; lia |].
    inversion Hfail as [| ? ? Hl Hrest]; subst.
    simpl. unfold failed in Hl. rewrite Hl.
    apply IH; [exact Hrest | exact Hwin | simpl in Hlen; lia].
Qed.

Lemma consume_results_all_failed (processes : list nat) :
  forall (arrivals : list R) (result : option R),
    Forall failed arrivals ->
    (arrivals <> [] \/ result <> None) ->
    consume_results processes (length arrivals) arrivals result = ([], Returns abnormal).
Proof.
  induction arrivals as [| r arrivals IH]; intros result Hfail Hsome.
  - simpl. destruct result; [reflexivity |].
    destruct Hsome as [Hne | Hne]; contradiction Hne; reflexivity.
  - inversion Hfail as [| ? ? Hr Hrest]; subst.
    simpl. unfold failed in Hr. rewrite Hr.
    apply IH; [exact Hrest | right; discriminate].
Qed.

(** With at least one worker, the first result that carries a trajectory is
    returned, after every worker was terminated and then joined. *)
Lemma ParallelSolver__solve_first_success (n_process : Z)
      (losers : list R) (winner : R) (later : list R) :
  Forall failed losers ->
  traj winner <> None ->
  length losers < Z.to_nat n_process ->
  ParallelSolver__solve n_process (losers ++ winner :: later)
  = (map Started (seq 0 (Z.to_nat n_process))
       ++ map Terminated (seq 0 (Z.to_nat n_process))
       ++ map Joined (seq 0 (Z.to_nat n_process)),
     Returns winner).
Proof.
  intros Hfail Hwin Hlen. unfold ParallelSolver__solve.
  rewrite consume_results_winner by assumption. reflexivity.
Qed.

(** With at least one worker, when all the results lack a trajectory the
    canonical abnormal result is returned (and no worker is joined). *)
Lemma ParallelSolver__solve_all_failed (n_process : Z) (arrivals : list R) :
  (0 < n_process)%Z ->
  length arrivals = Z.to_nat n_process ->
  Forall failed arrivals ->
  ParallelSolver__solve n_process arrivals
  = (map Started (seq 0 (Z.to_nat n_process)) ++ [], Returns abnormal).
Proof.
  intros Hpos Hlen Hfail. unfold ParallelSolver__solve. rewrite <- Hlen.
  rewrite consume_results_all_failed; [reflexivity | exact Hfail |].
  left. destruct arrivals; [simpl in Hlen; lia | discriminate].
Qed.

End Racing.

(** C9. With no worker ([n_process = 0], so that the sequence of consumed
    results is empty and every one of its results lacks a trajectory), the
    loop body never binds [result], and [return result.abnormal()] raises
    [UnboundLocalError] where the canonical abnormal result was due. *)
Theorem ParallelSolver__solve_no_worker_raises
        (R : Type) (RP : ResultProtocol R) (arrivals : list R) :
  ParallelSolver__solve 0 arrivals = ([], Raises (UnboundLocalError "result")).
Proof.
  unfold ParallelSolver__solve. simpl Z.to_nat.
  destruct arrivals as [| r rest]; reflexivity.
Qed.

(** ** The warm-start meta-solver at query time *)

Lemma without_none_length {A : Type} (l : list (option A)) :
  length l - length (without_none l) = length (filter is_none l).
Proof.
  assert (Hsum : length l = length (without_none l) + length (filter is_none l)).
  { induction l as [| [x |] l IH]; simpl.
    - reflexivity.
    - unfold without_none in *. simpl. rewrite IH. reflexivity.
    - unfold without_none in *. simpl. rewrite IH. lia. }
  lia.
Qed.

Lemma without_none_head (l : list (option Trajectory)) :
  hd_error (without_none l) = first_with_trajectory l.
Proof.
  induction l as [| [t |] l IH]; simpl.
  - reflexivity.
  - reflexivity.
  - exact IH.
Qed.

(** The retrieval takes the first [knn] entries of the distance ranking. *)
Lemma py_slice_prefix {A : Type} (k : Z) (l : list A) :
  (0 <= k)%Z -> py_slice 0 k l = firstn (Z.to_nat k) l.
Proof.
  intros Hk. unfold py_slice, slice_index. simpl.
  destruct (k <? 0)%Z eqn:Hneg; [apply Z.ltb_lt in Hneg; lia |].
  replace (Z.to_nat (Z.min 0 (Z.of_nat (length l)))) with 0 by lia.
  simpl. rewrite Nat.sub_0_r.
  destruct (Z.min_spec k (Z.of_nat (length l))) as [[Hlt ->] | [Hge ->]].
  - reflexivity.
  - rewrite Nat2Z.id. rewrite firstn_all.
    symmetry. apply firstn_all2. lia.
Qed.

(** C6 (amended). Given the entries retrieved for a query, [_solve] returns
    the abnormal result without calling the internal solver when the number
    of retrieved entries with no trajectory reaches the threshold; otherwise,
    when some retrieved entry has a trajectory, it calls the internal solver
    exactly once, guided by the first such entry in retrieval order, and
    returns that call's result; and when no retrieved entry has a trajectory
    it returns the abnormal result, again without calling the internal solver.
    A failure of the retrieval is the failure of [_solve]. *)
Theorem NearestNeigborSolver__solve_with_query
        (R : Type) (RP : ResultProtocol R)
        (s : NearestNeigborSolver R) (query_desc : ndarray) :
  match _knn_trajectories s query_desc with
  | Raise e => NearestNeigborSolver__solve s (Some query_desc) = Raise e
  | Ok trajs =>
      NearestNeigborSolver__solve s (Some query_desc)
      = Ok (if count_ge (count_without_trajectory trajs) (infeasibility_threshold s)
            then (abnormal, [])
            else match first_with_trajectory trajs with
                 | Some guide => (scratch_solve (internal_solver s) (Some guide), [Some guide])
                 | None => (abnormal, [])
                 end)
  end.
Proof.
  unfold NearestNeigborSolver__solve.
  destruct (_knn_trajectories s query_desc) as [trajs | e]; cbn [bind]; [| reflexivity].
  rewrite without_none_length. fold (count_without_trajectory trajs).
  destruct (count_ge (count_without_trajectory trajs) (infeasibility_threshold s));
    [reflexivity |].
  rewrite <- without_none_head.
  destruct (without_none trajs) as [| g rest]; reflexivity.
Qed.

(** C6 (as stated) fails: the single retrieved entry has no trajectory, the
    count 1 stays below the threshold 2, and yet the internal solver is not
    called at all. *)
Lemma NearestNeigborSolver__solve_no_guide_no_call :
  _knn_trajectories lonely_solver (np_array1 [0%float]) = Ok [None]
  /\ count_ge (count_without_trajectory [None]) (infeasibility_threshold lonely_solver) = false
  /\ NearestNeigborSolver__solve lonely_solver (Some (np_array1 [0%float]))
     = Ok (abnormal, []).
Proof.
  split; [| split]; vm_compute; reflexivity.
Qed.

(** ** The readiness flag *)

Lemma evaluate_flag_unset {C : Type} `{ConstImpl C}
      (o : AbstractConst C) (qs : ndarray) (with_jacobian : bool) :
  reflect_robot_flag o = false ->
  evaluate o qs with_jacobian
  = Raise (RuntimeError (not_reflected_message (type_name (self o)))).
Proof. intros Hflag. unfold evaluate. rewrite Hflag. reflexivity. Qed.

Lemma evaluate_flag_set {C : Type} `{ConstImpl C}
      (o : AbstractConst C) (qs : ndarray) (with_jacobian : bool) :
  reflect_robot_flag o = true ->
  evaluate o qs with_jacobian = _evaluate (self o) qs with_jacobian.
Proof. intros Hflag. unfold evaluate. rewrite Hflag. reflexivity. Qed.

Lemma reflect_sets_flag {C : Type} `{ConstImpl C}
      (o o' : AbstractConst C) (robot_model : option RobotModel) :
  reflect_skrobot_model o robot_model = Ok o' -> reflect_robot_flag o' = true.
Proof.
  unfold reflect_skrobot_model. intros Hr.
  apply bind_ok_inv in Hr. destruct Hr as [c [_ Hc]].
  injection Hc as <-. reflexivity.
Qed.

Lemma CompositeConst_init_flag {M : Type} `{ConstImpl M}
      (is_eq : bool) (l : list (AbstractConst M)) (c : AbstractConst (CompositeConst M)) :
  CompositeConst_init is_eq l = Ok c ->
  reflect_robot_flag c = true /\ const_list (self c) = l.
Proof.
  unfold CompositeConst_init. intros Hc.
  apply bind_ok_inv in Hc. destruct Hc as [u [_ Hc]].
  injection Hc as <-. split; reflexivity.
Qed.

(** C8 (amended). [evaluate] on a constraint whose readiness flag is unset (as
    it is on a freshly allocated instance) raises a [RuntimeError] whose
    message starts with the name of the constraint's class, and computes no
    residual; once [reflect_skrobot_model] has returned, the flag is set and
    [evaluate] is the class's own [_evaluate].  A composite leaves its
    constructor with the flag set, no reflection having been invoked on it,
    and [evaluate] is its [_evaluate] from the start. *)
Theorem evaluate_needs_flag
        (C : Type) (I : ConstImpl C) (o : AbstractConst C)
        (qs : ndarray) (with_jacobian : bool) :
  (reflect_robot_flag o = false ->
   evaluate o qs with_jacobian
   = Raise (RuntimeError
              (type_name (self o) ++ ": you need to call reflect_skrobot_model beforehand")))
  /\ (forall c : C, reflect_robot_flag (new_object c) = false)
  /\ (forall robot_model o',
         reflect_skrobot_model o robot_model = Ok o' ->
         reflect_robot_flag o' = true
         /\ evaluate o' qs with_jacobian = _evaluate (self o') qs with_jacobian)
  /\ (forall is_eq (l : list (AbstractConst C)) composite,
         CompositeConst_init is_eq l = Ok composite ->
         reflect_robot_flag composite = true
         /\ evaluate composite qs with_jacobian = _evaluate (self composite) qs with_jacobian).
Proof.
  split; [| split; [| split]].
  - intros Hflag. apply evaluate_flag_unset. exact Hflag.
  - intros c. reflexivity.
  - intros robot_model o' Hr. pose proof (reflect_sets_flag _ _ Hr) as Hflag.
    split; [exact Hflag | apply evaluate_flag_set; exact Hflag].
  - intros is_eq l composite Hc.
    destruct (CompositeConst_init_flag _ _ Hc) as [Hflag _].
    split; [exact Hflag | apply evaluate_flag_set; exact Hflag].
Qed.

(** The theorem at a box constraint allocated but not yet reflected. *)
Lemma evaluate_needs_flag_witness :
  evaluate (new_object unit_box) (expand_dims0 origin2) false
  = Raise (RuntimeError "BoxConst: you need to call reflect_skrobot_model beforehand").
Proof.
  apply (proj1 (evaluate_needs_flag BoxConst_impl (new_object unit_box)
                                    (expand_dims0 origin2) false)).
  reflexivity.
Defined.

(** C8 (as stated) fails: a composite just built from a box constraint, with
    no reflection invoked on it since its construction, evaluates. *)
Lemma composite_evaluates_without_reflection :
  exists box composite,
    BoxConst_init (lb unit_box) (ub unit_box) = Ok box
    /\ IneqCompositeConst_init [box] = Ok composite
    /\ evaluate composite (expand_dims0 origin2) false
       = Ok ({| shape := [1; 4]; data := [1%float; 1%float; 1%float; 1%float] |},
             dummy_jacobian).
Proof.
  eexists. eexists. split; [reflexivity |]. split; [reflexivity |].
  vm_compute. reflexivity.
Qed.

(** ** Box limits *)

(** The end-to-end scenario: one configuration at the origin of the box
    [[-1, 1] x [-1, 1]] has the margins [1, 1, 1, 1], lower then upper, and
    the Jacobian [[I; -I]]. *)
Lemma BoxConst_evaluate_origin :
  exists box,
    BoxConst_init (lb unit_box) (ub unit_box) = Ok box
    /\ evaluate_single box origin2 true
       = Ok ({| shape := [4]; data := [1%float; 1%float; 1%float; 1%float] |},
             {| shape := [4; 2];
                data := [1%float; 0%float;
                         0%float; 1%float;
                         (-1)%float; (-0)%float;
                         (-0)%float; (-1)%float] |}).
Proof.
  eexists. split; [reflexivity |]. vm_compute. reflexivity.
Qed.

(** C1. On a batch of two configurations [q0 = 1], [q1 = 2] of dimension 1,
    with [lb = 0] and [ub = 10], row 0 of the residual is [1, 2] (both lower
    margins) and row 1 is [9, 8] (both upper margins): flattening the lower
    and upper blocks before stacking them, and then cutting the stack into
    [n] rows, mixes the configurations.  Row [i] is not
    [[q_i - lb; ub - q_i]] (that is [[1, 9]] and [[2, 8]]), although the
    Jacobian returned beside it is [[I; -I]] for each configuration. *)
Theorem BoxConst_evaluate_batch_mixes_rows :
  exists box,
    BoxConst_init (lb interval_box) (ub interval_box) = Ok box
    /\ evaluate box two_points true
       = Ok ({| shape := [2; 2]; data := [1%float; 2%float; 9%float; 8%float] |},
             {| shape := [2; 2; 1];
                data := [1%float; (-1)%float; 1%float; (-1)%float] |}).
Proof.
  eexists. split; [reflexivity |]. vm_compute. reflexivity.
Qed.

(** ** The Jacobian placeholder *)

Lemma three_axes_not_dummy (j : ndarray) :
  ndim j = 3 -> j <> dummy_jacobian.
Proof.
  intros Hdim Heq. rewrite Heq in Hdim. discriminate Hdim.
Qed.

(** The box, fixed-configuration and composite constraints do return the
    placeholder when no Jacobian is asked for. *)
Lemma BoxConst_without_jacobian (c : BoxConst) (qs F J : ndarray) :
  BoxConst__evaluate c qs false = Ok (F, J) -> J = dummy_jacobian.
Proof.
  unfold BoxConst__evaluate. intros Hr.
  destruct (unpack_shape2 qs) as [[n_point dim] | e]; cbn [bind] in Hr; [| discriminate Hr].
  destruct (np_sub qs (lb c)) as [lower | e]; cbn [bind] in Hr; [| discriminate Hr].
  destruct (np_sub (ub c) qs) as [upper | e]; cbn [bind] in Hr; [| discriminate Hr].
  destruct (np_hstack [flatten lower; flatten upper]) as [stacked | e];
    cbn [bind] in Hr; [| discriminate Hr].
  destruct (reshape [Some n_point; None] stacked) as [f | e]; cbn [bind] in Hr;
    [| discriminate Hr].
  injection Hr as _ <-. reflexivity.
Qed.

Lemma ConfigPointConst_without_jacobian (c : ConfigPointConst) (qs F J : ndarray) :
  ConfigPointConst__evaluate c qs false = Ok (F, J) -> J = dummy_jacobian.
Proof.
  unfold ConfigPointConst__evaluate. intros Hr.
  destruct (unpack_shape2 qs) as [[n_point dim] | e]; cbn [bind] in Hr; [| discriminate Hr].
  destruct (np_sub qs (desired_angles c)) as [val | e]; cbn [bind] in Hr;
    [| discriminate Hr].
  injection Hr as _ <-. reflexivity.
Qed.

Lemma CompositeConst_without_jacobian {M : Type} `{ConstImpl M}
      (c : CompositeConst M) (qs F J : ndarray) :
  CompositeConst__evaluate c qs false = Ok (F, J) -> J = dummy_jacobian.
Proof.
  unfold CompositeConst__evaluate. intros Hr.
  destruct (mapM (fun const => evaluate const qs false) (const_list c)) as [rs | e];
    cbn [bind] in Hr; [| discriminate Hr].
  destruct (np_hstack (map fst rs)) as [valuess_out | e]; cbn [bind negb] in Hr;
    [| discriminate Hr].
  injection Hr as _ <-. reflexivity.
Qed.

(** [PoseConstraint] and [PointCollFreeConst] return an array of three axes
    whatever [with_jacobian] is. *)
Lemma reshape_ndim (dims : list (option nat)) (a b : ndarray) :
  reshape dims a = Ok b -> ndim b = length dims.
Proof.
  unfold reshape, ndim. intros Hr.
  destruct (length (filter _ dims)) as [| [| unknown]].
  - destruct (_ =? _); [| discriminate Hr]. injection Hr as <-. apply length_map.
  - destruct (_ || _); [discriminate Hr |]. injection Hr as <-. apply length_map.
  - discriminate Hr.
Qed.

Lemma PoseConstraint_jacobian_axes (c : PoseConstraint) (qs F J : ndarray)
      (with_jacobian : bool) :
  PoseConstraint__evaluate c qs with_jacobian = Ok (F, J) -> ndim J = 3.
Proof.
  unfold PoseConstraint__evaluate. intros Hr.
  destruct (unpack_shape2 qs) as [[n_point n_dim] | e]; cbn [bind] in Hr; [| discriminate Hr].
  destruct (kin_map (efkin c) qs) as [xs_tmp jacs_tmp].
  destruct (reshape [Some n_point; None] xs_tmp) as [xs | e]; cbn [bind] in Hr;
    [| discriminate Hr].
  destruct (reshape [Some n_point; None; Some n_dim] jacs_tmp) as [jacs | e] eqn:Hjacs;
    cbn [bind] in Hr; [| discriminate Hr].
  destruct (np_hstack (desired_poses c)) as [target | e]; cbn [bind] in Hr;
    [| discriminate Hr].
  destruct (np_sub xs target) as [values | e]; cbn [bind] in Hr; [| discriminate Hr].
  injection Hr as _ <-. apply (reshape_ndim _ _ Hjacs).
Qed.

Lemma PointCollFreeConst_jacobian_axes (c : PointCollFreeConst) (qs F J : ndarray)
      (with_jacobian : bool) :
  PointCollFreeConst__evaluate c qs with_jacobian = Ok (F, J) -> ndim J = 3.
Proof.
  unfold PointCollFreeConst__evaluate. intros Hr.
  destruct (unpack_shape2 qs) as [[n_point n_dim] | e]; cbn [bind] in Hr; [| discriminate Hr].
  destruct (mapM _ (seq 0 n_dim)) as [columns | e]; cbn [bind] in Hr; [| discriminate Hr].
  destruct (reshape [None; Some 1] (sdf c qs)) as [f | e]; cbn [bind] in Hr;
    [| discriminate Hr].
  injection Hr as _ <-. reflexivity.
Qed.

(** C2. Asked for no Jacobian, [PoseConstraint] and [PointCollFreeConst]
    return one all the same, of shape [(n, m, d)], and not the placeholder
    [[[nan]]]: neither [_evaluate] reads [with_jacobian]. *)
Theorem evaluate_without_jacobian_not_dummy :
  (exists pose F J,
      PoseConstraint_init [origin2] identity_kin (Some still_robot) = Ok pose
      /\ evaluate pose (np_array2 2 [[1%float; 1%float]]) false = Ok (F, J)
      /\ J = {| shape := [1; 2; 2]; data := [1%float; 0%float; 0%float; 1%float] |}
      /\ J <> dummy_jacobian)
  /\ (exists point F J,
         PointCollFreeConst_init wall_sdf = Ok point
         /\ evaluate point (np_array2 2 [[1%float; 5%float]]) false = Ok (F, J)
         /\ shape J = [1; 1; 2]
         /\ J <> dummy_jacobian).
Proof.
  split.
  - eexists. eexists. eexists.
    split; [reflexivity |]. split; [vm_compute; reflexivity |].
    split; [reflexivity |]. apply three_axes_not_dummy. reflexivity.
  - eexists. eexists. eexists.
    split; [reflexivity |]. split; [vm_compute; reflexivity |].
    split; [reflexivity |]. apply three_axes_not_dummy. reflexivity.
Qed.

(** ** Trajectory feasibility *)

Section Satisfied.
Context {G L M E : Type} {IG : ConstImpl G} {IL : ConstImpl L}
        {IM : ConstImpl M} {IE : ConstImpl E}.
Variable is_valid_motion_step : ndarray -> ndarray -> ndarray -> IneqConst L M -> bool.





End Satisfied.


(** ** Blocks of a row-major array *)

Lemma chunk_length {A : Type} (i c : nat) (l : list A) :
  (S i) * c <= length l -> length (chunk i c l) = c.
Proof.
  intros Hle. unfold chunk. rewrite length_firstn, length_skipn. simpl in Hle. lia.
Qed.

Lemma skipn_past_prefix {A : Type} (l1 l2 : list A) (k : nat) :
  skipn (length l1 + k) (l1 ++ l2) = skipn k l2.
Proof.
  induction l1 as [| x l1 IH]; simpl; [reflexivity | exact IH].
Qed.

Lemma firstn_exact_prefix {A : Type} (l1 l2 : list A) :
  firstn (length l1) (l1 ++ l2) = l1.
Proof.
  induction l1 as [| x l1 IH]; simpl; [reflexivity | rewrite IH; reflexivity].
Qed.

(** Cutting the [i]-th block out of a concatenation of blocks of equal length
    gives the [i]-th block back. *)
Lemma chunk_of_blocks {A : Type} (c : nat) (block : nat -> list A) :
  forall (n a i : nat),
    (forall j, a <= j < a + n -> length (block j) = c) ->
    i < n ->
    chunk i c (flat_map block (seq a n)) = block (a + i).
Proof.
  induction n as [| n IH]; intros a i Hlen Hi; [lia |].
  assert (Ha : length (block a) = c) by (apply Hlen; lia).
  simpl. unfold chunk. destruct i as [| i].
  - simpl. rewrite Nat.add_0_r. rewrite <- Ha. apply firstn_exact_prefix.
  - replace (S i * c) with (length (block a) + i * c) by (rewrite Ha; simpl; lia).
    rewrite skipn_past_prefix.
    fold (chunk i c (flat_map block (seq (S a) n))).
    rewrite IH; [f_equal; lia | | lia].
    intros j Hj. apply Hlen. lia.
Qed.

Lemma flat_map_length_sum {A B : Type} (f : A -> list B) (l : list A) :
  length (flat_map f l) = list_sum (map (fun x => length (f x)) l).
Proof.
  induction l as [| x l IH]; simpl; [reflexivity |].
  rewrite length_app, IH. reflexivity.
Qed.

Lemma list_sum_map_ext_in {A : Type} (f g : A -> nat) (l : list A) :
  (forall x, In x l -> f x = g x) -> list_sum (map f l) = list_sum (map g l).
Proof.
  intros Hext. f_equal. apply map_ext_in. exact Hext.
Qed.

Lemma list_sum_map_mul {A : Type} (f : A -> nat) (k : nat) (l : list A) :
  list_sum (map (fun x => f x * k) l) = list_sum (map f l) * k.
Proof.
  induction l as [| x l IH]; simpl; [reflexivity |]. rewrite IH. lia.
Qed.

Lemma shape_eqb_refl (s : list nat) : shape_eqb s s = true.
Proof.
  induction s as [| x s IH]; simpl; [reflexivity |].
  rewrite Nat.eqb_refl, IH. reflexivity.
Qed.

(** ** Joining along the second axis *)

Lemma joinable_row_size (n : nat) (rest : list nat) (b : ndarray) :
  joinable n rest b -> row_size b = dim1 b * prod_shape rest.
Proof.
  intros [m Hs]. unfold row_size, dim1. rewrite Hs. reflexivity.
Qed.

Lemma joinable_data_length (n : nat) (rest : list nat) (b : ndarray) :
  joinable n rest b -> wf_ndarray b -> length (data b) = n * row_size b.
Proof.
  intros [m Hs] Hwf. unfold wf_ndarray, size in Hwf. rewrite Hwf.
  unfold row_size. rewrite Hs. reflexivity.
Qed.

Lemma np_concatenate1_joinable (n : nat) (rest : list nat) (l : list ndarray) :
  l <> [] ->
  Forall (joinable n rest) l ->
  np_concatenate1 l
  = Ok {| shape := n :: list_sum (map dim1 l) :: rest;
          data := flat_map (fun i => flat_map (fun b => chunk i (row_size b) (data b)) l)
                           (seq 0 n) |}.
Proof.
  intros Hne Hall. destruct l as [| a l]; [contradiction Hne; reflexivity |].
  unfold np_concatenate1.
  pose proof (Forall_inv Hall) as [m Ha]. rewrite Ha.
  assert (Hcheck : forallb (same_but_axis1 n rest) (a :: l) = true).
  { apply forallb_forall. intros b Hb.
    rewrite Forall_forall in Hall. destruct (Hall b Hb) as [mb Hsb].
    unfold same_but_axis1. rewrite Hsb, Nat.eqb_refl, shape_eqb_refl. reflexivity. }
  rewrite Hcheck. reflexivity.
Qed.

(** For arrays of two or more axes [np.hstack] joins along the second axis. *)
Lemma np_hstack_joinable (n : nat) (rest : list nat) (l : list ndarray) :
  l <> [] ->
  Forall (joinable n rest) l ->
  np_hstack l = np_concatenate1 l.
Proof.
  intros Hne Hall. unfold np_hstack.
  assert (Hmap : map atleast_1d l = l).
  { rewrite <- (map_id l) at 2. apply map_ext_in. intros b Hb.
    rewrite Forall_forall in Hall. destruct (Hall b Hb) as [m Hs].
    unfold atleast_1d. rewrite Hs. reflexivity. }
  rewrite Hmap. destruct l as [| a l]; [contradiction Hne; reflexivity |].
  pose proof (Forall_inv Hall) as [m Ha]. unfold ndim. rewrite Ha. simpl. reflexivity.
Qed.

Lemma mapM_all_ok {A B : Type} (f : A -> result B) (g : A -> B) (l : list A) :
  (forall x, In x l -> f x = Ok (g x)) -> mapM f l = Ok (map g l).
Proof.
  induction l as [| x l IH]; intros Hall; simpl; [reflexivity |].
  rewrite (Hall x) by (left; reflexivity). cbn [bind].
  rewrite IH by (intros y Hy; apply Hall; right; exact Hy). reflexivity.
Qed.

Lemma flat_map_map {A B C : Type} (g : A -> B) (f : B -> list C) (l : list A) :
  flat_map f (map g l) = flat_map (fun x => f (g x)) l.
Proof.
  induction l as [| x l IH]; simpl; [reflexivity | rewrite IH; reflexivity].
Qed.

Lemma getitem_joinable (n : nat) (rest : list nat) (b : ndarray) (i : nat) :
  joinable n rest b -> i < n -> getitem b i = Ok (entry rest i b).
Proof.
  intros [m Hs] Hi. unfold getitem, entry, dim1, row_size. rewrite Hs.
  apply Nat.ltb_lt in Hi. rewrite Hi. reflexivity.
Qed.

Lemma joined_block_length (n : nat) (rest : list nat) (l : list ndarray) (j : nat) :
  Forall (joinable n rest) l ->
  Forall wf_ndarray l ->
  j < n ->
  length (flat_map (fun b => chunk j (row_size b) (data b)) l)
  = list_sum (map dim1 l) * prod_shape rest.
Proof.
  intros Hjoin Hwf Hj. rewrite flat_map_length_sum.
  rewrite <- list_sum_map_mul. apply list_sum_map_ext_in.
  intros b Hb. rewrite Forall_forall in Hjoin, Hwf.
  rewrite chunk_length.
  - apply (joinable_row_size (Hjoin b Hb)).
  - rewrite (joinable_data_length (Hjoin b Hb) (Hwf b Hb)).
    apply Nat.mul_le_mono_r. lia.
Qed.

(** Indexing the join of [l] along the second axis at [i] is joining, along
    the first axis, the entries of the members of [l] at [i]. *)
Lemma getitem_np_concatenate1 (n : nat) (rest : list nat) (l : list ndarray)
      (joined : ndarray) (i : nat) :
  Forall (joinable n rest) l ->
  Forall wf_ndarray l ->
  np_concatenate1 l = Ok joined ->
  i < n ->
  getitem joined i = (entries <- mapM (fun b => getitem b i) l ;; np_concatenate0 entries).
Proof.
  intros Hjoin Hwf Hcat Hi.
  assert (Hne : l <> []) by (intros ->; discriminate Hcat).
  rewrite (np_concatenate1_joinable Hne Hjoin) in Hcat. injection Hcat as <-.
  rewrite (mapM_all_ok _ (entry rest i)).
  2:{ intros b Hb. rewrite Forall_forall in Hjoin.
      apply (getitem_joinable (Hjoin b Hb) Hi). }
  cbn [bind]. destruct l as [| a l]; [contradiction Hne; reflexivity |].
  unfold np_concatenate0. cbn [map entry shape].
  assert (Hcheck : forallb (same_tail rest) (entry rest i a :: map (entry rest i) l) = true).
  { apply forallb_forall. intros r Hr. change (In r (map (entry rest i) (a :: l))) in Hr.
    apply in_map_iff in Hr. destruct Hr as [b [<- _]].
    unfold same_tail, entry. simpl. apply shape_eqb_refl. }
  rewrite Hcheck. unfold getitem. cbn [shape data].
  apply Nat.ltb_lt in Hi. rewrite Hi. apply Nat.ltb_lt in Hi.
  f_equal. f_equal.
  - f_equal. change (entry rest i a :: map (entry rest i) l) with (map (entry rest i) (a :: l)).
    rewrite map_map. reflexivity.
  - change (entry rest i a :: map (entry rest i) l) with (map (entry rest i) (a :: l)).
    rewrite flat_map_map. cbn [entry data].
    apply (@chunk_of_blocks _ (list_sum (map dim1 (a :: l)) * prod_shape rest)
                            (fun j => flat_map (fun b => chunk j (row_size b) (data b)) (a :: l))
                            n 0 i).
    + intros j Hj. apply (joined_block_length Hjoin Hwf). lia.
    + exact Hi.
Qed.

(** ** The composite constraint *)

Lemma Forall_map_fst {A B : Type} (P : A -> Prop) (l : list (A * B)) :
  Forall (fun r => P (fst r)) l <-> Forall P (map fst l).
Proof. rewrite Forall_map. reflexivity. Qed.

Lemma Forall_map_snd {A B : Type} (P : B -> Prop) (l : list (A * B)) :
  Forall (fun r => P (snd r)) l <-> Forall P (map snd l).
Proof. rewrite Forall_map. reflexivity. Qed.

(** C7. Let the members of a composite, evaluated one by one on the batch
    [qs], return the residuals [map fst rs] and the Jacobians [map snd rs],
    the residuals having [n] rows each (and the Jacobians, when asked for,
    [n] blocks of [d] columns each).  Then the composite's [evaluate] returns a
    residual of shape [(n, sum of the members' widths)] whose row [i] is the
    members' rows [i] joined in member order and, when [with_jacobian] is
    true, a Jacobian of shape [(n, sum of the members' heights, d)] whose
    block [i] is the members' blocks [i] joined in member order; without
    [with_jacobian] the Jacobian is the placeholder. *)
Theorem composite_evaluate_joins_members
        (M : Type) (IM : ConstImpl M) (c : AbstractConst (CompositeConst M))
        (qs : ndarray) (with_jacobian : bool)
        (rs : list (ndarray * ndarray)) (n d : nat) :
  reflect_robot_flag c = true ->
  Forall2 (fun member r => evaluate member qs with_jacobian = Ok r) (const_list (self c)) rs ->
  rs <> [] ->
  Forall (fun r => joinable n [] (fst r) /\ wf_ndarray (fst r)) rs ->
  (with_jacobian = true ->
   Forall (fun r => joinable n [d] (snd r) /\ wf_ndarray (snd r)) rs) ->
  exists F J,
    evaluate c qs with_jacobian = Ok (F, J)
    /\ shape F = [n; list_sum (map dim1 (map fst rs))]
    /\ (forall i, i < n ->
          getitem F i
          = (rows <- mapM (fun f => getitem f i) (map fst rs) ;; np_concatenate0 rows))
    /\ (if with_jacobian
        then shape J = [n; list_sum (map dim1 (map snd rs)); d]
             /\ (forall i, i < n ->
                   getitem J i
                   = (blocks <- mapM (fun j => getitem j i) (map snd rs) ;;
                      np_concatenate0 blocks))
        else J = dummy_jacobian).
Proof.
  intros Hflag Hmembers Hne Hres Hjac.
  assert (Hfst_ne : map fst rs <> []) by (destruct rs; [contradiction Hne; reflexivity | discriminate]).
  assert (Hsnd_ne : map snd rs <> []) by (destruct rs; [contradiction Hne; reflexivity | discriminate]).
  assert (Hjoin : Forall (joinable n []) (map fst rs)).
  { apply Forall_map_fst. eapply Forall_impl; [| exact Hres]. intros r [Hr _]. exact Hr. }
  assert (Hwf : Forall wf_ndarray (map fst rs)).
  { apply Forall_map_fst. eapply Forall_impl; [| exact Hres]. intros r [_ Hr]. exact Hr. }
  pose proof (np_concatenate1_joinable Hfst_ne Hjoin) as Hcat.
  rewrite evaluate_flag_set by exact Hflag.
  cbn [_evaluate CompositeConst_impl]. unfold CompositeConst__evaluate.
  apply mapM_ok_Forall2 in Hmembers. rewrite Hmembers. cbn [bind].
  rewrite (np_hstack_joinable Hfst_ne Hjoin), Hcat. cbn [bind].
  destruct with_jacobian; cbn [negb].
  - specialize (Hjac eq_refl).
    assert (Hjjoin : Forall (joinable n [d]) (map snd rs)).
    { apply Forall_map_snd. eapply Forall_impl; [| exact Hjac]. intros r [Hr _]. exact Hr. }
    assert (Hjwf : Forall wf_ndarray (map snd rs)).
    { apply Forall_map_snd. eapply Forall_impl; [| exact Hjac]. intros r [_ Hr]. exact Hr. }
    pose proof (np_concatenate1_joinable Hsnd_ne Hjjoin) as Hjcat.
    rewrite Hjcat. cbn [bind].
    eexists. eexists. split; [reflexivity |].
    split; [reflexivity |]. split.
    + intros i Hi. apply (getitem_np_concatenate1 Hjoin Hwf Hcat Hi).
    + split; [reflexivity |].
      intros i Hi. apply (getitem_np_concatenate1 Hjjoin Hjwf Hjcat Hi).
  - eexists. eexists. split; [reflexivity |].
    split; [reflexivity |]. split; [| reflexivity].
    intros i Hi. apply (getitem_np_concatenate1 Hjoin Hwf Hcat Hi).
Qed.

(** The theorem at a composite of two boxes, on a batch of two
    configurations, with the Jacobian. *)
Lemma composite_evaluate_joins_members_witness :
  exists F J,
    evaluate two_boxes two_configurations true = Ok (F, J)
    /\ shape F = [2; list_sum (map dim1 (map fst two_boxes_member_results))]
    /\ (forall i, i < 2 ->
          getitem F i
          = (rows <- mapM (fun f => getitem f i) (map fst two_boxes_member_results) ;;
             np_concatenate0 rows))
    /\ (shape J = [2; list_sum (map dim1 (map snd two_boxes_member_results)); 2]
        /\ (forall i, i < 2 ->
              getitem J i
              = (blocks <- mapM (fun j => getitem j i) (map snd two_boxes_member_results) ;;
                 np_concatenate0 blocks))).
Proof.
  apply (@composite_evaluate_joins_members
           BoxConst BoxConst_impl two_boxes two_configurations true
           two_boxes_member_results 2 2).
  - reflexivity.
  - constructor; [vm_compute; reflexivity |].
    constructor; [vm_compute; reflexivity |]. constructor.
  - vm_compute. discriminate.
  - constructor; [split; [exists 4; reflexivity | vm_compute; reflexivity] |].
    constructor; [split; [exists 4; reflexivity | vm_compute; reflexivity] |]. constructor.
  - intros _.
    constructor; [split; [exists 4; reflexivity | vm_compute; reflexivity] |].
    constructor; [split; [exists 4; reflexivity | vm_compute; reflexivity] |]. constructor.
Defined.

(** ** Broadcasting two vectors of the same length *)

Lemma chunk_singleton {A : Type} (i : nat) (l : list A) (default : A) :
  i < length l -> chunk i 1 l = [nth i l default].
Proof.
  unfold chunk. rewrite Nat.mul_1_r. revert i.
  induction l as [| x l IH]; intros i Hi; simpl in Hi; [lia |].
  destruct i as [| i]; simpl.
  - destruct l; reflexivity.
  - apply IH. lia.
Qed.

Lemma flat_map_singleton {A B : Type} (f : A -> B) (l : list A) :
  flat_map (fun x => [f x]) l = map f l.
Proof.
  induction l as [| x l IH]; simpl; [reflexivity | rewrite IH; reflexivity].
Qed.

Lemma flat_map_ext_in {A B : Type} (f g : A -> list B) (l : list A) :
  (forall x, In x l -> f x = g x) -> flat_map f l = flat_map g l.
Proof.
  induction l as [| x l IH]; intros Hext; simpl; [reflexivity |].
  rewrite (Hext x) by (left; reflexivity).
  rewrite IH by (intros y Hy; apply Hext; right; exact Hy). reflexivity.
Qed.

Lemma bcast2_vectors {B : Type} (f : float -> float -> B) (d : nat) (da db : list float) :
  length da = d -> length db = d ->
  bcast2 f [d] [d] da db
  = map (fun i => f (nth i da 0%float) (nth i db 0%float)) (seq 0 d).
Proof.
  intros Ha Hb. cbn [bcast2 prod_shape fold_right].
  destruct (d =? 1) eqn:Hd.
  - apply Nat.eqb_eq in Hd. rewrite Hd in Ha, Hb |- *.
    destruct da as [| x [| ? ?]]; try discriminate Ha.
    destruct db as [| y [| ? ?]]; try discriminate Hb.
    reflexivity.
  - rewrite <- flat_map_singleton. apply flat_map_ext_in.
    intros i Hi. apply in_seq in Hi.
    rewrite (chunk_singleton da 0%float) by lia.
    rewrite (chunk_singleton db 0%float) by lia. reflexivity.
Qed.

Lemma np_broadcast_vectors {B : Type} (f : float -> float -> B) (d : nat) (a b : ndarray) :
  shape a = [d] -> wf_ndarray a ->
  shape b = [d] -> wf_ndarray b ->
  np_broadcast f a b
  = Ok ([d], map (fun i => f (nth i (data a) 0%float) (nth i (data b) 0%float)) (seq 0 d)).
Proof.
  intros Hsa Hwa Hsb Hwb.
  unfold wf_ndarray, size in Hwa, Hwb. rewrite Hsa in Hwa. rewrite Hsb in Hwb.
  simpl in Hwa, Hwb. rewrite Nat.mul_1_r in Hwa, Hwb.
  unfold np_broadcast, ndim. rewrite Hsa, Hsb. simpl length. rewrite Nat.max_id.
  unfold pad_shape. simpl. unfold bdim. rewrite Nat.eqb_refl.
  rewrite <- (bcast2_vectors f (data a) (data b) Hwa Hwb). reflexivity.
Qed.

(** [np.all(a < b)] on two vectors of length [d] is the componentwise test. *)
Lemma np_all_lt_vectors (d : nat) (a b : ndarray) :
  shape a = [d] -> wf_ndarray a ->
  shape b = [d] -> wf_ndarray b ->
  exists below,
    np_all_lt a b = Ok below
    /\ (below = true
        <-> forall i, i < d ->
              PrimFloat.ltb (nth i (data a) 0%float) (nth i (data b) 0%float) = true).
Proof.
  intros Hsa Hwa Hsb Hwb. unfold np_all_lt.
  rewrite (np_broadcast_vectors _ Hsa Hwa Hsb Hwb). cbn [bind].
  eexists. split; [reflexivity |].
  rewrite forallb_forall. split.
  - intros Hall i Hi. apply (Hall _). apply in_map_iff. exists i.
    split; [reflexivity | apply in_seq; lia].
  - intros Hall x Hx. apply in_map_iff in Hx. destruct Hx as [i [<- Hi]].
    apply in_seq in Hi. apply Hall. lia.
Qed.

Lemma np_all_gt_vectors (d : nat) (a b : ndarray) :
  shape a = [d] -> wf_ndarray a ->
  shape b = [d] -> wf_ndarray b ->
  exists above,
    np_all_gt a b = Ok above
    /\ (above = true
        <-> forall i, i < d ->
              PrimFloat.ltb (nth i (data b) 0%float) (nth i (data a) 0%float) = true).
Proof.
  intros Hsa Hwa Hsb Hwb. unfold np_all_gt.
  rewrite (np_broadcast_vectors _ Hsa Hwa Hsb Hwb). cbn [bind].
  eexists. split; [reflexivity |].
  rewrite forallb_forall. split.
  - intros Hall i Hi. apply (Hall _). apply in_map_iff. exists i.
    split; [reflexivity | apply in_seq; lia].
  - intros Hall x Hx. apply in_map_iff in Hx. destruct Hx as [i [<- Hi]].
    apply in_seq in Hi. apply Hall. lia.
Qed.

(** ** Lists of tests *)

Lemma forallb_flat_map {A B : Type} (p : B -> bool) (f : A -> list B) (l : list A) :
  forallb p (flat_map f l) = forallb (fun x => forallb p (f x)) l.
Proof.
  induction l as [| x l IH]; simpl; [reflexivity |].
  rewrite forallb_app, IH. reflexivity.
Qed.

Lemma forallb_of_map {A B : Type} (p : B -> bool) (f : A -> B) (l : list A) :
  forallb p (map f l) = forallb (fun x => p (f x)) l.
Proof.
  induction l as [| x l IH]; simpl; [reflexivity | rewrite IH; reflexivity].
Qed.

(** ** Start feasibility *)

Lemma concat_messages_not_empty (msgs : list string) :
  msgs <> [] -> Forall is_message msgs -> String.concat ", " msgs <> "".
Proof.
  intros Hne Hall. destruct msgs as [| m msgs]; [contradiction Hne; reflexivity |].
  pose proof (Forall_inv Hall) as [what ->].
  destruct msgs; unfold does_not_satisfy; simpl; discriminate.
Qed.

Lemma length_eqb_0 {A : Type} (l : list A) : (length l =? 0) = true <-> l = [].
Proof.
  destruct l; simpl; split; intros Hl; try reflexivity; discriminate Hl.
Qed.

Section FeasibilityCheck.
Context {G L M E : Type} {IG : ConstImpl G} {IL : ConstImpl L}
        {IM : ConstImpl M} {IE : ConstImpl E}.

Lemma box_messages_nil (below above : bool) :
  box_messages below above = [] <-> below = true /\ above = true.
Proof.
  destruct below, above; simpl; split; intros Hx; try reflexivity;
    try discriminate Hx; try (split; reflexivity);
    destruct Hx as [Hb Ha]; discriminate.
Qed.

Lemma box_messages_form (below above : bool) :
  Forall is_message (box_messages below above).
Proof.
  destruct below, above; simpl; repeat constructor;
    try (exists "BoxConst upper"; reflexivity); exists "BoxConst lower"; reflexivity.
Qed.

Lemma check_init_feasibility_of_messages (p : Problem G L M E) :
  skip_init_feasibility_check p = false ->
  check_init_feasibility p
  = (msg_list <- init_messages p ;;
     Ok (length msg_list =? 0, String.concat ", " msg_list)).
Proof. intros Hskip. unfold check_init_feasibility. rewrite Hskip. reflexivity. Qed.

(** C4. Let the start vector and the two bounds be vectors of one length [d],
    and the check not be skipped.
    - Without a global inequality constraint [check_init_feasibility]
      returns: [(True, "")] exactly when the start lies strictly inside the
      bounds componentwise, and [False] with a diagnostic that is not empty
      otherwise.
    - With a global inequality constraint it does not return: wherever the
      start lies, the call raises the [AttributeError] of the lookup of
      [is_valid] on that constraint, so that no start is accepted or
      rejected and no member of a composite is reported. *)
Theorem check_init_feasibility_raises_with_inequality (p : Problem G L M E) (d : nat) :
  skip_init_feasibility_check p = false ->
  shape (start p) = [d] -> wf_ndarray (start p) ->
  shape (lb (self (box_const p))) = [d] -> wf_ndarray (lb (self (box_const p))) ->
  shape (ub (self (box_const p))) = [d] -> wf_ndarray (ub (self (box_const p))) ->
  (global_ineq_const p = None ->
   (check_init_feasibility p = Ok (true, "") <-> strictly_inside p d)
   /\ exists b msg,
       check_init_feasibility p = Ok (b, msg)
       /\ (~ strictly_inside p d -> b = false /\ msg <> ""))
  /\ (forall c,
         global_ineq_const p = Some c ->
         check_init_feasibility p
         = Raise (AttributeError (no_attribute (ineq_type_name c) "is_valid"))).
Proof.
  intros Hskip Hs Hws Hl Hwl Hu Hwu.
  destruct (np_all_lt_vectors Hs Hws Hu Hwu) as [below [Hbelow Hbelow_iff]].
  destruct (np_all_gt_vectors Hs Hws Hl Hwl) as [above [Habove Habove_iff]].
  assert (Hinside : strictly_inside p d <-> below = true /\ above = true).
  { unfold strictly_inside. rewrite Hbelow_iff, Habove_iff. split.
    - intros Hall. split; intros i Hi; apply (Hall i Hi).
    - intros [Hb Ha] i Hi. split; [apply Ha | apply Hb]; exact Hi. }
  rewrite (check_init_feasibility_of_messages p Hskip).
  assert (Hmsgs : init_messages p
                  = (ineq_msgs <- match global_ineq_const p with
                                  | Some c => ineq_messages c (start p)
                                  | None => Ok []
                                  end ;;
                     Ok (box_messages below above ++ ineq_msgs))).
  { unfold init_messages. rewrite Hbelow. cbn [bind]. rewrite Habove. cbn [bind].
    unfold box_messages.
    destruct (match global_ineq_const p with
              | Some c => ineq_messages c (start p)
              | None => Ok []
              end); cbn [bind]; [rewrite app_assoc |]; reflexivity. }
  rewrite Hmsgs. split.
  - intros Hnone. rewrite Hnone. cbn [bind]. rewrite app_nil_r. split.
    + rewrite Hinside, <- box_messages_nil. split.
      * intros Hret. injection Hret as Hlen _. apply length_eqb_0 in Hlen. exact Hlen.
      * intros ->. reflexivity.
    + eexists. eexists. split; [reflexivity |].
      intros Hnot.
      assert (Hbox : box_messages below above <> []).
      { intros Hnil. apply Hnot. apply Hinside, box_messages_nil. exact Hnil. }
      split.
      * destruct (box_messages below above); [contradiction Hbox; reflexivity | reflexivity].
      * apply concat_messages_not_empty; [exact Hbox | apply box_messages_form].
  - intros c Hc. rewrite Hc. destruct c as [plain | composite]; reflexivity.
Qed.

End FeasibilityCheck.

(** The theorem at [boxed_problem], whose start lies inside the wide box and
    outside the unit box, a member of the composite: the check raises. *)
Lemma check_init_feasibility_raises_with_inequality_witness :
  check_init_feasibility boxed_problem
  = Raise (AttributeError "'IneqCompositeConst' object has no attribute 'is_valid'").
Proof.
  refine (proj2 (check_init_feasibility_raises_with_inequality boxed_problem (d := 2)
                   _ _ _ _ _ _ _) (inr two_boxes) _).
  - reflexivity.
  - reflexivity.
  - vm_compute. reflexivity.
  - reflexivity.
  - vm_compute. reflexivity.
  - reflexivity.
  - vm_compute. reflexivity.
  - reflexivity.
Defined.

(** ** Calibration of the infeasibility threshold *)

(** [np.argmin] returns the first index of the least entry. *)
Lemma argmin_from_spec :
  forall (l pre : list Z) (best_i : nat),
    best_i < length pre ->
    (forall j, j < length pre ->
               (nth best_i pre 0 <= nth j pre 0)%Z
               /\ (j < best_i -> (nth best_i pre 0 < nth j pre 0)%Z)) ->
    let r := argmin_from best_i (nth best_i pre 0%Z) (length pre) l in
    r < length (pre ++ l)
    /\ forall j, j < length (pre ++ l) ->
                 (nth r (pre ++ l) 0 <= nth j (pre ++ l) 0)%Z
                 /\ (j < r -> (nth r (pre ++ l) 0 < nth j (pre ++ l) 0)%Z).
Proof.
  induction l as [| x l IH]; intros pre best_i Hi Hmin; cbn zeta.
  - simpl. rewrite app_nil_r. split; [exact Hi | exact Hmin].
  - simpl argmin_from.
    replace (pre ++ x :: l) with ((pre ++ [x]) ++ l) by (rewrite <- app_assoc; reflexivity).
    assert (Hlen : length (pre ++ [x]) = S (length pre))
      by (rewrite length_app; simpl; lia).
    assert (Hx : nth (length pre) (pre ++ [x]) 0%Z = x)
      by (rewrite app_nth2 by lia; rewrite Nat.sub_diag; reflexivity).
    destruct (x <? nth best_i pre 0)%Z eqn:Hlt.
    + apply Z.ltb_lt in Hlt.
      assert (Hstep : length pre < length (pre ++ [x])) by lia.
      pose proof (IH (pre ++ [x]) (length pre) Hstep) as Hrec.
      cbn zeta in Hrec. rewrite Hx, Hlen in Hrec. apply Hrec.
      intros j Hj.
      destruct (Nat.eq_dec j (length pre)) as [-> | Hne].
      * rewrite Hx. split; lia.
      * rewrite app_nth1 by lia. destruct (Hmin j) as [Hle _]; [lia |]. split; lia.
    + apply Z.ltb_ge in Hlt.
      assert (Hstep : best_i < length (pre ++ [x])) by lia.
      pose proof (IH (pre ++ [x]) best_i Hstep) as Hrec.
      cbn zeta in Hrec. rewrite (app_nth1 pre [x] 0%Z Hi), Hlen in Hrec. apply Hrec.
      intros j Hj.
      destruct (Nat.eq_dec j (length pre)) as [-> | Hne].
      * rewrite Hx. split; [exact Hlt | lia].
      * rewrite app_nth1 by lia. apply Hmin. lia.
Qed.

Lemma np_argmin_spec (l : list Z) (i : nat) :
  np_argmin l = Ok i ->
  i < length l
  /\ forall j, j < length l ->
               (nth i l 0 <= nth j l 0)%Z /\ (j < i -> (nth i l 0 < nth j l 0)%Z).
Proof.
  destruct l as [| x l]; simpl np_argmin; intros Hi; [discriminate Hi |].
  injection Hi as <-.
  apply (argmin_from_spec l [x] (best_i := 0)).
  - simpl. lia.
  - intros j Hj. simpl in Hj. replace j with 0 by lia. simpl. split; lia.
Qed.

Lemma py_range_nth (a b : Z) (i : nat) :
  i < length (py_range a b) -> nth_error (py_range a b) i = Some (a + Z.of_nat i)%Z.
Proof.
  unfold py_range. rewrite length_map, length_seq. intros Hi.
  rewrite nth_error_map, nth_error_seq.
  apply Nat.ltb_lt in Hi. rewrite Hi. reflexivity.
Qed.

(** The calibrated threshold is the candidate of [range(1, knn)] whose tally,
    as the code counts it, is least; among equal tallies, the smallest
    candidate. *)
Lemma calibrate_least_tally (vec_descs : ndarray) (trajectories : list (option Trajectory))
      (knn : Z) (dataset : list (list float * option Trajectory)) (t : Z) :
  calibrate vec_descs trajectories knn dataset = Ok t ->
  exists errors i,
    mapM (threshold_error vec_descs trajectories knn dataset) (py_range 1 knn) = Ok errors
    /\ t = (1 + Z.of_nat i)%Z /\ (1 <= t < knn)%Z
    /\ forall j, j < length errors ->
                 (nth i errors 0 <= nth j errors 0)%Z
                 /\ (j < i -> (nth i errors 0 < nth j errors 0)%Z).
Proof.
  unfold calibrate. intros Ht.
  destruct (mapM (threshold_error vec_descs trajectories knn dataset) (py_range 1 knn))
    as [errors | e] eqn:Herrors; cbn [bind] in Ht; [| discriminate Ht].
  destruct (np_argmin errors) as [i | e] eqn:Hmin; cbn [bind] in Ht; [| discriminate Ht].
  apply np_argmin_spec in Hmin. destruct Hmin as [Hi Hleast].
  pose proof (mapM_ok_length _ _ Herrors) as Hlen.
  assert (Hi' : i < length (py_range 1 knn)) by (rewrite <- Hlen; exact Hi).
  unfold list_getitem in Ht. rewrite (py_range_nth 1 knn Hi') in Ht.
  assert (Ht' : t = (1 + Z.of_nat i)%Z) by congruence.
  exists errors, i. split; [reflexivity |]. split; [exact Ht' |]. split; [| exact Hleast].
  unfold py_range in Hlen. rewrite length_map, length_seq in Hlen. lia.
Qed.

(** C5. On a case base where two cases share a feature vector, the second of
    them is its own nearest "neighbour": [argsort(sqdists)[1 : knn + 1]]
    drops the entry ranked first, which is the twin that comes first in the
    case base, not the case itself.  With [knn = 3] the code tallies one
    mismatch for each of the thresholds 1 and 2 and calibrates the threshold
    1, whereas leave-one-out tallies, each case left out of its own
    neighbours, are 2 for the threshold 1 and 1 for the threshold 2, so that
    the threshold asked for is 2. *)
Theorem NearestNeigborSolver_init_twin_cases :
  (exists s,
      NearestNeigborSolver_init (fun _ => echo_solver) default_config twin_dataset 3 None = Ok s
      /\ vec_descs s = twin_vec_descs
      /\ infeasibility_threshold s = PyInt 1)
  /\ mapM (threshold_error twin_vec_descs (map snd twin_dataset) 3 twin_dataset) (py_range 1 3)
     = Ok [1%Z; 1%Z]
  /\ loo_mismatches 3 twin_dataset twin_vec_descs 1 = Ok 2
  /\ loo_mismatches 3 twin_dataset twin_vec_descs 2 = Ok 1
  /\ loo_threshold 3 twin_dataset twin_vec_descs = Ok (Some 2).
Proof.
  split.
  - eexists. split; [vm_compute; reflexivity |]. split; reflexivity.
  - repeat split; vm_compute; reflexivity.
Qed.

(** ** One configuration in a box *)

Lemma bcast2_one_row {B : Type} (f : float -> float -> B) (d : nat) (da db : list float) :
  bcast2 f [1; d] [1; d] da db = bcast2 f [d] [d] da db.
Proof.
  change (bcast2 f [1; d] [1; d] da db)
    with (flat_map (fun _ : nat => bcast2 f [d] [d] da db) (seq 0 1)).
  simpl flat_map. apply app_nil_r.
Qed.

Lemma np_broadcast_row_vector {B : Type} (f : float -> float -> B) (d : nat) (a b : ndarray) :
  shape a = [1; d] -> length (data a) = d ->
  shape b = [d] -> length (data b) = d ->
  np_broadcast f a b
  = Ok ([1; d], map (fun i => f (nth i (data a) 0%float) (nth i (data b) 0%float)) (seq 0 d)).
Proof.
  intros Hsa Hla Hsb Hlb. unfold np_broadcast, ndim. rewrite Hsa, Hsb.
  cbn [length Nat.max pad_shape Nat.sub repeat app bshape].
  unfold bdim. rewrite (Nat.eqb_refl d). cbn [Nat.eqb].
  rewrite bcast2_one_row, (bcast2_vectors _ _ _ Hla Hlb). reflexivity.
Qed.

Lemma np_broadcast_vector_row {B : Type} (f : float -> float -> B) (d : nat) (a b : ndarray) :
  shape a = [d] -> length (data a) = d ->
  shape b = [1; d] -> length (data b) = d ->
  np_broadcast f a b
  = Ok ([1; d], map (fun i => f (nth i (data a) 0%float) (nth i (data b) 0%float)) (seq 0 d)).
Proof.
  intros Hsa Hla Hsb Hlb. unfold np_broadcast, ndim. rewrite Hsa, Hsb.
  cbn [length Nat.max pad_shape Nat.sub repeat app bshape].
  unfold bdim. rewrite (Nat.eqb_refl d). cbn [Nat.eqb].
  rewrite bcast2_one_row, (bcast2_vectors _ _ _ Hla Hlb). reflexivity.
Qed.

Lemma np_hstack_two_vectors (a b : nat) (da db : list float) :
  np_hstack [{| shape := [a]; data := da |}; {| shape := [b]; data := db |}]
  = Ok {| shape := [a + b]; data := da ++ db |}.
Proof.
  unfold np_hstack, np_concatenate0. simpl.
  rewrite Nat.add_0_r, app_nil_r. reflexivity.
Qed.

Lemma reshape_one_row (s : nat) (l : list float) :
  reshape [Some 1; None] {| shape := [s]; data := l |}
  = Ok {| shape := [1; s]; data := l |}.
Proof.
  unfold reshape, size. cbn [flat_map app prod_shape fold_right filter length shape Nat.mul
                             Nat.add Nat.eqb orb map data].
  rewrite Nat.mod_1_r. cbn [Nat.eqb negb]. rewrite Nat.div_1_r, Nat.mul_1_r. reflexivity.
Qed.

Lemma np_vstack_two_matrices (a b d : nat) (da db : list float) :
  np_vstack [{| shape := [a; d]; data := da |}; {| shape := [b; d]; data := db |}]
  = Ok {| shape := [a + b; d]; data := da ++ db |}.
Proof.
  unfold np_vstack, np_concatenate0.
  cbn [map atleast_2d shape forallb same_tail shape_eqb].
  rewrite Nat.eqb_refl. cbn [andb list_sum map hd shape fold_right flat_map data].
  rewrite Nat.add_0_r, app_nil_r. reflexivity.
Qed.

Lemma np_array_of_one (j : ndarray) :
  np_array_of [j] = Ok {| shape := 1 :: shape j; data := data j |}.
Proof.
  unfold np_array_of. simpl. rewrite shape_eqb_refl. simpl. rewrite app_nil_r. reflexivity.
Qed.

(** For a single configuration the residual is [[q - lb; ub - q]] and the
    Jacobian [[I; -I]], whatever the dimension. *)
Lemma BoxConst__evaluate_one_configuration (d : nat) (q l u : list float) :
  length q = d -> length l = d -> length u = d ->
  BoxConst__evaluate {| lb := np_array1 l; ub := np_array1 u |} (np_array2 d [q]) true
  = Ok ({| shape := [1; d + d];
           data := map (fun i => PrimFloat.sub (nth i q 0%float) (nth i l 0%float)) (seq 0 d)
                   ++ map (fun i => PrimFloat.sub (nth i u 0%float) (nth i q 0%float)) (seq 0 d) |},
        {| shape := [1; d + d; d];
           data := data (np_eye d) ++ data (np_neg (np_eye d)) |}).
Proof.
  intros Hq Hl Hu.
  assert (Hqs : np_array2 d [q] = {| shape := [1; d]; data := q |}).
  { unfold np_array2. simpl. rewrite app_nil_r. reflexivity. }
  rewrite Hqs. unfold BoxConst__evaluate. cbn [unpack_shape2 shape bind lb ub].
  unfold np_sub.
  rewrite (@np_broadcast_row_vector _ PrimFloat.sub d {| shape := [1; d]; data := q |} (np_array1 l));
    [| reflexivity | exact Hq | simpl; rewrite Hl; reflexivity | exact Hl].
  cbn [bind].
  rewrite (@np_broadcast_vector_row _ PrimFloat.sub d (np_array1 u) {| shape := [1; d]; data := q |});
    [| simpl; rewrite Hu; reflexivity | exact Hu | reflexivity | exact Hq].
  cbn [bind data np_array1]. unfold flatten, size. cbn [shape data prod_shape fold_right].
  rewrite np_hstack_two_vectors. cbn [bind]. rewrite reshape_one_row. cbn [bind].
  unfold np_eye at 1 2, np_neg. cbn [shape data].
  rewrite np_vstack_two_matrices. cbn [bind repeat]. rewrite np_array_of_one. cbn [bind shape data].
  rewrite !Nat.mul_1_l, !Nat.mul_1_r. reflexivity.
Qed.
(** ** Leave-one-out neighbours *)

Lemma insert_by_perm (key : nat -> float) (i : nat) (l : list nat) :
  Permutation (insert_by key i l) (i :: l).
Proof.
  induction l as [| j l IH]; simpl; [apply Permutation_refl |].
  destruct (np_lt (key j) (key i)).
  - apply Permutation_trans with (j :: i :: l).
    + apply perm_skip. exact IH.
    + apply perm_swap.
  - apply Permutation_refl.
Qed.

Lemma np_argsort_perm (keys : list float) :
  Permutation (np_argsort keys) (seq 0 (length keys)).
Proof.
  unfold np_argsort. generalize (seq 0 (length keys)) as idx.
  induction idx as [| i idx IH]; simpl; [apply Permutation_refl |].
  apply Permutation_trans with (i :: fold_right (insert_by (fun i => nth i keys nan)) [] idx).
  - apply insert_by_perm.
  - apply perm_skip. exact IH.
Qed.

Lemma np_argsort_NoDup (keys : list float) : NoDup (np_argsort keys).
Proof.
  apply (Permutation_NoDup (l := seq 0 (length keys))).
  - apply Permutation_sym, np_argsort_perm.
  - apply seq_NoDup.
Qed.

Lemma np_argsort_in_range (keys : list float) (j : nat) :
  In j (np_argsort keys) -> j < length keys.
Proof.
  intros Hin. apply (Permutation_in _ (np_argsort_perm keys)) in Hin.
  apply in_seq in Hin. lia.
Qed.

Lemma filter_out_absent (i : nat) (l : list nat) :
  ~ In i l -> filter (fun j => negb (j =? i)) l = l.
Proof.
  induction l as [| j l IH]; intros Hnot; simpl; [reflexivity |].
  destruct (j =? i) eqn:Hji.
  - apply Nat.eqb_eq in Hji. subst j. contradiction Hnot. left. reflexivity.
  - simpl. rewrite IH; [reflexivity |]. intros Hin. apply Hnot. right. exact Hin.
Qed.

Lemma py_slice_after_first {A : Type} (k : nat) (l : list A) :
  py_slice 1 (Z.of_nat k + 1) l = firstn k (tl l).
Proof.
  unfold py_slice, slice_index.
  destruct (1 <? 0)%Z eqn:H1; [discriminate H1 |].
  destruct (Z.of_nat k + 1 <? 0)%Z eqn:Hk; [apply Z.ltb_lt in Hk; lia |].
  destruct l as [| x l]; simpl length.
  - simpl tl. simpl skipn. rewrite !firstn_nil. reflexivity.
  - replace (Z.to_nat (Z.min 1 (Z.of_nat (S (length l))))) with 1 by lia.
    simpl skipn. simpl tl.
    destruct (Nat.le_gt_cases k (length l)) as [Hle | Hgt].
    + replace (Z.to_nat (Z.min (Z.of_nat k + 1) (Z.of_nat (S (length l)))) - 1) with k by lia.
      reflexivity.
    + replace (Z.to_nat (Z.min (Z.of_nat k + 1) (Z.of_nat (S (length l)))) - 1)
        with (length l) by lia.
      rewrite firstn_all. symmetry. apply firstn_all2. lia.
Qed.

(** When the case ranks first, dropping the first entry of the ranking is
    leaving the case out. *)
Lemma neighbours_when_first (k i : nat) (sqdists : list float) :
  hd_error (np_argsort sqdists) = Some i ->
  py_slice 1 (Z.of_nat k + 1) (np_argsort sqdists) = nearest_others k i sqdists.
Proof.
  intros Hhd. rewrite py_slice_after_first. unfold nearest_others.
  pose proof (np_argsort_NoDup sqdists) as Hnodup.
  destruct (np_argsort sqdists) as [| j rest]; [discriminate Hhd |].
  injection Hhd as ->. simpl. rewrite Nat.eqb_refl. simpl.
  rewrite filter_out_absent; [reflexivity |].
  inversion Hnodup. assumption.
Qed.

Lemma in_firstn_in {A : Type} (k : nat) (l : list A) (x : A) :
  In x (firstn k l) -> In x l.
Proof.
  revert l. induction k as [| k IH]; intros l Hin; simpl in Hin; [contradiction |].
  destruct l as [| y l]; [contradiction |].
  destruct Hin as [-> | Hin]; [left; reflexivity | right; apply IH; exact Hin].
Qed.

Lemma mapM_getitem {A : Type} (l : list A) (default : A) (idxs : list nat) :
  (forall j, In j idxs -> j < length l) ->
  mapM (list_getitem l) idxs = Ok (map (fun j => nth j l default) idxs).
Proof.
  intros Hrange. apply mapM_all_ok. intros j Hj. unfold list_getitem.
  rewrite (nth_error_nth' l default (Hrange j Hj)). reflexivity.
Qed.

Lemma filter_map_length {A B : Type} (p : B -> bool) (f : A -> B) (l : list A) :
  length (filter p (map f l)) = length (filter (fun x => p (f x)) l).
Proof.
  induction l as [| x l IH]; simpl; [reflexivity |].
  destruct (p (f x)); simpl; rewrite IH; reflexivity.
Qed.

Lemma nearest_others_in_range (k i : nat) (sqdists : list float) (j : nat) :
  In j (nearest_others k i sqdists) -> j < length sqdists.
Proof.
  unfold nearest_others. intros Hin. apply in_firstn_in in Hin.
  apply filter_In in Hin. destruct Hin as [Hin _].
  apply np_argsort_in_range. exact Hin.
Qed.

(** For a case that ranks first, the count of the loop body is the count over
    the neighbours proper. *)
Lemma none_count_when_first (vec_descs : ndarray)
      (trajectories : list (option Trajectory)) (k i : nat)
      (desc : ndarray) (sqdists : list float) :
  sqdists_to vec_descs desc = Ok sqdists ->
  length sqdists = length trajectories ->
  hd_error (np_argsort sqdists) = Some i ->
  none_count_in_knn vec_descs trajectories (Z.of_nat k) desc
  = Ok (length (filter (fun j => is_none (nth j trajectories None))
                       (nearest_others k i sqdists))).
Proof.
  intros Hsq Hlen Hhd. unfold none_count_in_knn. rewrite Hsq. cbn [bind].
  rewrite (neighbours_when_first k sqdists Hhd).
  rewrite (mapM_getitem trajectories None).
  - cbn [bind]. rewrite filter_map_length. reflexivity.
  - intros j Hj. rewrite <- Hlen. apply (nearest_others_in_range k i sqdists j Hj).
Qed.

Lemma none_count_raises (vec_descs : ndarray) (trajectories : list (option Trajectory))
      (knn : Z) (desc : ndarray) (e : exn) :
  sqdists_to vec_descs desc = Raise e ->
  none_count_in_knn vec_descs trajectories knn desc = Raise e.
Proof. intros Hsq. unfold none_count_in_knn. rewrite Hsq. reflexivity. Qed.

Lemma fold_left_add_of_nat (ms : list nat) (acc : Z) :
  fold_left Z.add (map Z.of_nat ms) acc = (acc + Z.of_nat (list_sum ms))%Z.
Proof.
  revert acc. induction ms as [| m ms IH]; intros acc; simpl; [lia |].
  rewrite IH. lia.
Qed.

Section Agreement.
Variable vec_descs : ndarray.
Variable dataset : list (list float * option Trajectory).
Variables k t : nat.
Hypothesis Hfirst : ranks_itself_first vec_descs dataset.

(** The marks of the code's loop and of the leave-one-out tally agree on
    every part of the case base. *)
Lemma marks_when_first :
  forall (l : list (list float * option Trajectory)) (a : nat),
    (forall i x, nth_error l i = Some x -> nth_error dataset (a + i) = Some x) ->
    mapM (fun '(desc, traj) =>
            none_count <- none_count_in_knn vec_descs (map snd dataset) (Z.of_nat k)
                                            (np_array1 desc) ;;
            let seems_infeasible := (Z.of_nat t <=? Z.of_nat none_count)%Z in
            let actually_infeasible := is_none traj in
            Ok (if Bool.eqb seems_infeasible actually_infeasible then 0%Z else 1%Z))
         l
    = (marks <- mapM (fun '(i, (desc, traj)) =>
                        sqdists <- sqdists_to vec_descs (np_array1 desc) ;;
                        let lacking :=
                          length (filter (fun j => is_none (nth j (map snd dataset) None))
                                         (nearest_others k i sqdists)) in
                        Ok (if Bool.eqb (t <=? lacking) (is_none traj) then 0 else 1))
                     (combine (seq a (length l)) l) ;;
       Ok (map Z.of_nat marks)).
Proof.
  set (f := fun '(desc, traj) =>
              none_count <- none_count_in_knn vec_descs (map snd dataset) (Z.of_nat k)
                                              (np_array1 desc) ;;
              let seems_infeasible := (Z.of_nat t <=? Z.of_nat none_count)%Z in
              let actually_infeasible := is_none traj in
              Ok (if Bool.eqb seems_infeasible actually_infeasible then 0%Z else 1%Z)).
  set (g := fun '(i, (desc, traj)) =>
              sqdists <- sqdists_to vec_descs (np_array1 desc) ;;
              let lacking :=
                length (filter (fun j => is_none (nth j (map snd dataset) None))
                               (nearest_others k i sqdists)) in
              Ok (if Bool.eqb (t <=? lacking) (is_none traj) then 0 else 1)).
  induction l as [| [desc traj] l IH]; intros a Hpart; [reflexivity |].
  cbn [length seq combine mapM].
  assert (Hhere : nth_error dataset a = Some (desc, traj)).
  { rewrite <- (Nat.add_0_r a). apply Hpart. reflexivity. }
  assert (Hrest : forall i x, nth_error l i = Some x -> nth_error dataset (S a + i) = Some x).
  { intros i x Hx. replace (S a + i) with (a + S i) by lia. apply Hpart. exact Hx. }
  assert (Hmark : f (desc, traj) = (m <- g (a, (desc, traj)) ;; Ok (Z.of_nat m))).
  { unfold f, g.
    destruct (sqdists_to vec_descs (np_array1 desc)) as [sqdists | e] eqn:Hsq.
    - destruct (Hfirst a Hhere Hsq) as [Hlen Hhd].
      assert (Hlen' : length sqdists = length (map snd dataset))
        by (rewrite length_map; exact Hlen).
      rewrite (@none_count_when_first vec_descs (map snd dataset) k a (np_array1 desc)
                                      sqdists Hsq Hlen' Hhd).
      cbn [bind]. cbv zeta.
      set (lacking := length (filter (fun j => is_none (nth j (map snd dataset) None))
                                     (nearest_others k a sqdists))).
      replace (Z.of_nat t <=? Z.of_nat lacking)%Z with (t <=? lacking).
      + destruct (Bool.eqb (t <=? lacking) (is_none traj)); reflexivity.
      + destruct (Nat.leb_spec t lacking); symmetry; [apply Z.leb_le | apply Z.leb_gt]; lia.
    - rewrite (@none_count_raises vec_descs (map snd dataset) (Z.of_nat k)
                                  (np_array1 desc) e Hsq).
      reflexivity. }
  rewrite Hmark, (IH (S a) Hrest).
  destruct (g (a, (desc, traj))) as [m | e]; cbn [bind]; [| reflexivity].
  destruct (mapM g (combine (seq (S a) (length l)) l)) as [marks | e]; reflexivity.
Qed.

(** The code's tally for a threshold is the leave-one-out tally. *)
Lemma threshold_error_when_first :
  threshold_error vec_descs (map snd dataset) (Z.of_nat k) dataset (Z.of_nat t)
  = (mismatches <- loo_mismatches k dataset vec_descs t ;; Ok (Z.of_nat mismatches)).
Proof.
  unfold threshold_error, loo_mismatches.
  pose proof (marks_when_first dataset 0 (fun i x Hx => Hx)) as Hmarks.
  cbv zeta in Hmarks. rewrite Hmarks. clear Hmarks.
  destruct (mapM _ (combine (seq 0 (length dataset)) dataset)) as [marks | e]; cbn [bind];
    [| reflexivity].
  rewrite fold_left_add_of_nat. reflexivity.
Qed.

End Agreement.

(** *** The choice among the tallies *)

Lemma mapM_map {A B C : Type} (h : A -> B) (f : B -> result C) (l : list A) :
  mapM f (map h l) = mapM (fun x => f (h x)) l.
Proof.
  induction l as [| x l IH]; simpl; [reflexivity | rewrite IH; reflexivity].
Qed.

Lemma mapM_ext {A B : Type} (f g : A -> result B) (l : list A) :
  (forall x, f x = g x) -> mapM f l = mapM g l.
Proof.
  intros Hext. induction l as [| x l IH]; simpl; [reflexivity |].
  rewrite Hext, IH. reflexivity.
Qed.

Lemma py_range_from_1 (k : nat) : py_range 1 (Z.of_nat k) = map Z.of_nat (seq 1 (k - 1)).
Proof.
  unfold py_range. replace (Z.to_nat (Z.of_nat k - 1)) with (k - 1) by lia.
  rewrite <- seq_shift, map_map. apply map_ext. intros i. lia.
Qed.

Lemma tallies_of_errors {A : Type} (g : A -> result nat) :
  forall (l : list A) (errors : list Z),
    mapM (fun t => e <- g t ;; Ok (Z.of_nat e)) l = Ok errors ->
    exists tallies,
      mapM (fun t => e <- g t ;; Ok (t, e)) l = Ok tallies
      /\ map fst tallies = l
      /\ map (fun c => Z.of_nat (snd c)) tallies = errors.
Proof.
  induction l as [| x l IH]; intros errors Herr; simpl in Herr |- *.
  - injection Herr as <-. exists []. repeat split; reflexivity.
  - destruct (g x) as [e | ex]; cbn [bind] in Herr |- *; [| discriminate Herr].
    destruct (mapM (fun t => e0 <- g t ;; Ok (Z.of_nat e0)) l) as [errs |] eqn:Hl;
      cbn [bind] in Herr; [| discriminate Herr].
    injection Herr as <-.
    destruct (IH errs eq_refl) as [tallies [Ht [Hfst Hsnd]]].
    rewrite Ht. cbn [bind]. exists ((x, e) :: tallies).
    split; [reflexivity |]. split; simpl; [rewrite Hfst | rewrite Hsnd]; reflexivity.
Qed.

(** [fewest_mismatches] picks the first candidate whose tally is least. *)
Lemma fewest_mismatches_first_least :
  forall (cands : list (nat * nat)),
    cands <> [] ->
    exists i,
      i < length cands
      /\ fewest_mismatches cands = nth_error cands i
      /\ forall j, j < length cands ->
                   snd (nth i cands (0, 0)) <= snd (nth j cands (0, 0))
                   /\ (j < i -> snd (nth i cands (0, 0)) < snd (nth j cands (0, 0))).
Proof.
  induction cands as [| [t e] rest IH]; intros Hne; [contradiction Hne; reflexivity |].
  destruct rest as [| c rest'].
  - exists 0. simpl. split; [lia |]. split; [reflexivity |].
    intros j Hj. replace j with 0 by lia. simpl. lia.
  - destruct IH as [i [Hi [Hbest Hleast]]]; [discriminate |].
    remember (c :: rest') as rest eqn:Hrest.
    change (fewest_mismatches ((t, e) :: rest))
      with (match fewest_mismatches rest with
            | Some (t', e') => if e <=? e' then Some (t, e) else Some (t', e')
            | None => Some (t, e)
            end).
    rewrite Hbest.
    assert (Hnth : nth_error rest i = Some (nth i rest (0, 0)))
      by (apply nth_error_nth'; exact Hi).
    rewrite Hnth. destruct (nth i rest (0, 0)) as [t' e'] eqn:Hie. simpl snd in Hleast.
    destruct (Nat.leb_spec e e') as [Hle | Hgt].
    + exists 0. split; [simpl; lia |]. split; [reflexivity |].
      intros j Hj. destruct j as [| j]; simpl; [lia |].
      simpl in Hj. destruct (Hleast j) as [Hj' _]; [lia |]. lia.
    + exists (S i). split; [simpl; lia |]. split; [simpl; symmetry; exact Hnth |].
      intros j Hj. simpl nth at 1 3. rewrite Hie. simpl snd at 1 3.
      destruct j as [| j]; simpl.
      * lia.
      * simpl in Hj. destruct (Hleast j) as [Hj1 Hj2]; [lia |]. split; [exact Hj1 |].
        intros Hlt. apply Hj2. lia.
Qed.

Section AgreementOfThresholds.
Variable vec_descs : ndarray.
Variable dataset : list (list float * option Trajectory).
Variable k : nat.
Hypothesis Hfirst : ranks_itself_first vec_descs dataset.

(** X15. When every case ranks first for itself, the threshold the code
    calibrates is the one the leave-one-out tallies ask for. *)
Lemma calibrate_when_first (t : Z) :
  calibrate vec_descs (map snd dataset) (Z.of_nat k) dataset = Ok t ->
  loo_threshold k dataset vec_descs = Ok (Some (Z.to_nat t)).
Proof.
  intros Hcal. apply calibrate_least_tally in Hcal.
  destruct Hcal as [errors [i [Herrors [Ht [Hrange Hleast]]]]].
  rewrite py_range_from_1, mapM_map in Herrors.
  rewrite (mapM_ext _ (fun t0 => e <- loo_mismatches k dataset vec_descs t0 ;; Ok (Z.of_nat e)))
    in Herrors
    by (intros t0; apply (threshold_error_when_first k t0 Hfirst)).
  apply tallies_of_errors in Herrors.
  destruct Herrors as [tallies [Htallies [Hfst Hsnd]]].
  unfold loo_threshold. rewrite Htallies. cbn [bind]. f_equal.
  assert (Hlen : length tallies = k - 1).
  { rewrite <- (length_map fst), Hfst. apply length_seq. }
  assert (Hlen_err : length errors = k - 1).
  { rewrite <- Hsnd, length_map. exact Hlen. }
  assert (Hi : i < k - 1) by lia.
  assert (Herr_nth : forall j, j < k - 1 ->
                               nth j errors 0%Z = Z.of_nat (snd (nth j tallies (0, 0)))).
  { intros j Hj. rewrite <- Hsnd.
    rewrite (nth_indep _ 0%Z (Z.of_nat (snd (0, 0)))) by (rewrite length_map; lia).
    apply (map_nth (fun c => Z.of_nat (snd c))). }
  assert (Hne : tallies <> []) by (intros ->; simpl in Hlen; lia).
  destruct (fewest_mismatches_first_least Hne) as [i' [Hi' [Hbest Hleast']]].
  assert (Heq : i' = i).
  { destruct (Nat.lt_trichotomy i' i) as [Hlt | [Heq | Hgt]]; [| exact Heq |].
    - destruct (Hleast i') as [_ Hstrict]; [lia |]. specialize (Hstrict Hlt).
      destruct (Hleast' i) as [Hle _]; [lia |].
      rewrite !Herr_nth in Hstrict by lia. lia.
    - destruct (Hleast' i) as [_ Hstrict]; [lia |]. specialize (Hstrict Hgt).
      destruct (Hleast i') as [Hle _]; [lia |].
      rewrite !Herr_nth in Hle by lia. lia. }
  subst i'. rewrite Hbest.
  rewrite (nth_error_nth' tallies (0, 0)) by lia. cbn [option_map]. f_equal.
  rewrite <- (map_nth fst tallies (0, 0) i). rewrite Hfst.
  rewrite (nth_indep _ (fst (0, 0)) 0) by (rewrite length_seq; lia).
  rewrite seq_nth by lia. lia.
Qed.

End AgreementOfThresholds.

(** On a case base of pairwise distinct feature vectors every case ranks
    first for itself, and the calibrated threshold is the one asked for. *)
Lemma distinct_dataset_ranks_itself_first :
  ranks_itself_first distinct_vec_descs distinct_dataset.
Proof.
  intros i desc traj sqdists Hcase Hsq.
  do 4 (destruct i as [| i];
        [injection Hcase as <- <-; vm_compute in Hsq; injection Hsq as <-;
         split; vm_compute; reflexivity |]).
  destruct i; discriminate Hcase.
Qed.

Lemma calibrate_distinct_dataset :
  calibrate distinct_vec_descs (map snd distinct_dataset) 3 distinct_dataset = Ok 2%Z
  /\ loo_threshold 3 distinct_dataset distinct_vec_descs = Ok (Some 2).
Proof.
  assert (Hcal : calibrate distinct_vec_descs (map snd distinct_dataset) (Z.of_nat 3)
                           distinct_dataset = Ok 2%Z) by (vm_compute; reflexivity).
  split; [exact Hcal |].
  apply (@calibrate_when_first distinct_vec_descs distinct_dataset 3
                               distinct_dataset_ranks_itself_first 2%Z Hcal).
Defined.

(** ** The ranking is sorted *)

Lemma SFltb_rank (f1 f2 : SpecFloat.spec_float) :
  f1 <> SpecFloat.S754_nan -> f2 <> SpecFloat.S754_nan ->
  (SpecFloat.SFltb f1 f2 = true <-> rank_lt (rank_of_spec f1) (rank_of_spec f2)).
Proof.
  intros H1 H2. unfold SpecFloat.SFltb.
  destruct f1 as [s1 | s1 | | s1 m1 e1]; destruct f2 as [s2 | s2 | | s2 m2 e2];
    try (contradiction H1; reflexivity); try (contradiction H2; reflexivity);
    try (destruct s1); try (destruct s2); simpl;
    try (split; [discriminate | intros Hr; lia]);
    try (split; [intros _; lia | reflexivity]).
  - change (PosDef.Pos.compare_cont Eq m1 m2) with (Pos.compare m1 m2).
    destruct (Z.compare_spec e1 e2) as [Heq | Hlt | Hgt].
    + destruct (Pos.compare_spec m1 m2) as [Hm | Hm | Hm]; simpl; split;
        try discriminate; try reflexivity; try lia.
    + split; [discriminate | lia].
    + split; [intros _; lia | intros _; reflexivity].
  - change (PosDef.Pos.compare_cont Eq m1 m2) with (Pos.compare m1 m2).
    destruct (Z.compare_spec e1 e2) as [Heq | Hlt | Hgt].
    + destruct (Pos.compare_spec m1 m2) as [Hm | Hm | Hm]; simpl; split;
        try discriminate; try reflexivity; try lia.
    + split; [intros _; lia | intros _; reflexivity].
    + split; [discriminate | lia].
Qed.

Lemma SFeqb_refl (f : SpecFloat.spec_float) :
  SpecFloat.SFeqb f f = true <-> f <> SpecFloat.S754_nan.
Proof.
  unfold SpecFloat.SFeqb.
  destruct f as [s | s | | s m e]; simpl.
  - split; [discriminate | reflexivity].
  - destruct s; split; try discriminate; reflexivity.
  - split; [discriminate | intros Hn; contradiction Hn; reflexivity].
  - change (PosDef.Pos.compare_cont Eq m m) with (Pos.compare m m).
    rewrite Z.compare_refl, Pos.compare_refl.
    destruct s; simpl; split; try discriminate; reflexivity.
Qed.

Lemma is_nan_spec (x : float) :
  PrimFloat.is_nan x = true <-> Prim2SF x = SpecFloat.S754_nan.
Proof.
  unfold PrimFloat.is_nan. rewrite FloatAxioms.eqb_spec.
  destruct (SpecFloat.SFeqb (Prim2SF x) (Prim2SF x)) eqn:Heq; simpl.
  - apply SFeqb_refl in Heq. split; [discriminate | intros Hn; contradiction].
  - split; [intros _ | reflexivity].
    destruct (Prim2SF x) as [s | s | | s m e] eqn:Hx; try reflexivity;
      exfalso; assert (Hok : SpecFloat.SFeqb (Prim2SF x) (Prim2SF x) = true)
        by (apply SFeqb_refl; rewrite Hx; discriminate);
      rewrite Hx in Hok; rewrite Hok in Heq; discriminate Heq.
Qed.

Lemma rank_of_spec_class (f : SpecFloat.spec_float) :
  f <> SpecFloat.S754_nan -> (fst (fst (rank_of_spec f)) <= 2)%Z.
Proof.
  destruct f as [s | s | | s m e]; intros Hn; simpl; try lia;
    try (destruct s; simpl; lia).
  contradiction Hn. reflexivity.
Qed.

(** [np_lt] compares ranks. *)
Lemma np_lt_rank (x y : float) :
  np_lt x y = true <-> rank_lt (rank x) (rank y).
Proof.
  unfold np_lt, rank. rewrite FloatAxioms.ltb_spec.
  destruct (PrimFloat.is_nan x) eqn:Hx; destruct (PrimFloat.is_nan y) eqn:Hy.
  - apply is_nan_spec in Hx, Hy. rewrite Hx, Hy. simpl. split; [discriminate | lia].
  - apply is_nan_spec in Hx. rewrite Hx. simpl.
    assert (Hny : Prim2SF y <> SpecFloat.S754_nan).
    { intros Hn. apply is_nan_spec in Hn. rewrite Hn in Hy. discriminate Hy. }
    pose proof (rank_of_spec_class Hny) as Hc.
    destruct (rank_of_spec (Prim2SF y)) as [[a b] c]. simpl in Hc |- *.
    split; [discriminate | lia].
  - apply is_nan_spec in Hy. rewrite Hy. simpl. rewrite orb_true_r.
    assert (Hnx : Prim2SF x <> SpecFloat.S754_nan).
    { intros Hn. apply is_nan_spec in Hn. rewrite Hn in Hx. discriminate Hx. }
    pose proof (rank_of_spec_class Hnx) as Hc.
    destruct (rank_of_spec (Prim2SF x)) as [[a b] c]. simpl in Hc |- *.
    split; [intros _; lia | reflexivity].
  - simpl. rewrite orb_false_r. apply SFltb_rank.
    + intros Hn. apply is_nan_spec in Hn. rewrite Hn in Hx. discriminate Hx.
    + intros Hn. apply is_nan_spec in Hn. rewrite Hn in Hy. discriminate Hy.
Qed.

Lemma np_lt_asym (x y : float) : np_lt x y = true -> np_lt y x = false.
Proof.
  intros Hxy. apply np_lt_rank in Hxy.
  destruct (np_lt y x) eqn:Hyx; [| reflexivity].
  apply np_lt_rank in Hyx. exfalso.
  destruct (rank x) as [[a1 b1] c1]. destruct (rank y) as [[a2 b2] c2].
  simpl in Hxy, Hyx. lia.
Qed.

Lemma np_lt_not_trans (x y z : float) :
  np_lt y x = false -> np_lt z y = false -> np_lt z x = false.
Proof.
  intros Hyx Hzy. destruct (np_lt z x) eqn:Hzx; [| reflexivity]. exfalso.
  apply np_lt_rank in Hzx.
  assert (Hnyx : ~ rank_lt (rank y) (rank x))
    by (intros Hr; apply np_lt_rank in Hr; rewrite Hr in Hyx; discriminate Hyx).
  assert (Hnzy : ~ rank_lt (rank z) (rank y))
    by (intros Hr; apply np_lt_rank in Hr; rewrite Hr in Hzy; discriminate Hzy).
  destruct (rank x) as [[a1 b1] c1]. destruct (rank y) as [[a2 b2] c2].
  destruct (rank z) as [[a3 b3] c3]. simpl in Hzx, Hnyx, Hnzy. lia.
Qed.

(** Insertion keeps a ranking sorted, and so [np.argsort] returns the indices
    in an order in which no later key is smaller than an earlier one. *)
Lemma insert_by_sorted (keys : list float) (i : nat) (l : list nat) :
  StronglySorted (in_order keys) l ->
  StronglySorted (in_order keys) (insert_by (fun j => nth j keys nan) i l).
Proof.
  induction l as [| j l IH]; intros Hsorted; simpl.
  - constructor; constructor.
  - inversion Hsorted as [| ? ? Htail Hhead]; subst.
    destruct (np_lt (nth j keys nan) (nth i keys nan)) eqn:Hji.
    + constructor; [apply IH; exact Htail |].
      apply (Permutation_Forall (Permutation_sym (insert_by_perm _ i l))).
      constructor; [| exact Hhead].
      unfold in_order. apply np_lt_asym. exact Hji.
    + constructor; [exact Hsorted |].
      constructor; [exact Hji |].
      apply Forall_forall. intros b Hb. rewrite Forall_forall in Hhead.
      unfold in_order in *. apply (np_lt_not_trans _ (nth j keys nan)); [exact Hji |].
      apply Hhead. exact Hb.
Qed.

Lemma np_argsort_sorted (keys : list float) :
  StronglySorted (in_order keys) (np_argsort keys).
Proof.
  unfold np_argsort. generalize (seq 0 (length keys)) as idx.
  induction idx as [| i idx IH]; simpl; [constructor |].
  apply insert_by_sorted. exact IH.
Qed.

Lemma StronglySorted_app_inv {A : Type} (R : A -> A -> Prop) (l1 l2 : list A) :
  StronglySorted R (l1 ++ l2) ->
  forall a b, In a l1 -> In b l2 -> R a b.
Proof.
  induction l1 as [| x l1 IH]; intros Hsorted a b Ha Hb; [contradiction Ha |].
  simpl in Hsorted. inversion Hsorted as [| ? ? Htail Hhead]; subst.
  destruct Ha as [-> | Ha].
  - rewrite Forall_forall in Hhead. apply Hhead. apply in_or_app. right. exact Hb.
  - apply (IH Htail); assumption.
Qed.

(** The first [k] entries of the ranking are nearest: none of the entries
    left out has a smaller key than one of them. *)
Lemma np_argsort_prefix_nearest (keys : list float) (k a b : nat) :
  In a (firstn k (np_argsort keys)) ->
  In b (skipn k (np_argsort keys)) ->
  np_lt (nth b keys nan) (nth a keys nan) = false.
Proof.
  intros Ha Hb. pose proof (np_argsort_sorted keys) as Hsorted.
  rewrite <- (firstn_skipn k (np_argsort keys)) in Hsorted.
  apply (StronglySorted_app_inv _ _ Hsorted a b Ha Hb).
Qed.

(** The retrieval of [_solve] reads the trajectories at the first [knn]
    entries of the ranking of the squared distances to the query. *)
Lemma _knn_trajectories_ranked (R : Type) (s : NearestNeigborSolver R) (query_desc : ndarray) :
  (0 <= knn s)%Z ->
  _knn_trajectories s query_desc
  = (sqdists <- sqdists_to (vec_descs s) query_desc ;;
     mapM (list_getitem (trajectories s))
          (firstn (Z.to_nat (knn s)) (np_argsort sqdists))).
Proof.
  intros Hk. unfold _knn_trajectories.
  destruct (sqdists_to (vec_descs s) query_desc) as [sqdists | e]; cbn [bind];
    [| reflexivity].
  rewrite py_slice_prefix by exact Hk. reflexivity.
Qed.

(** ** The order of the floats: less-or-equal *)

Lemma SFleb_rank (f1 f2 : SpecFloat.spec_float) :
  f1 <> SpecFloat.S754_nan -> f2 <> SpecFloat.S754_nan ->
  (SpecFloat.SFleb f1 f2 = true <-> ~ rank_lt (rank_of_spec f2) (rank_of_spec f1)).
Proof.
  intros H1 H2. unfold SpecFloat.SFleb.
  destruct f1 as [s1 | s1 | | s1 m1 e1]; destruct f2 as [s2 | s2 | | s2 m2 e2];
    try (contradiction H1; reflexivity); try (contradiction H2; reflexivity);
    try (destruct s1); try (destruct s2); simpl;
    try (split; [intros _; lia | reflexivity]);
    try (split; [discriminate | intros Hr; exfalso; apply Hr; lia]).
  - change (PosDef.Pos.compare_cont Eq m1 m2) with (Pos.compare m1 m2).
    destruct (Z.compare_spec e1 e2) as [Heq | Hlt | Hgt].
    + destruct (Pos.compare_spec m1 m2) as [Hm | Hm | Hm]; simpl; split;
        try discriminate; try reflexivity; try lia;
        try (intros Hr; exfalso; apply Hr; lia).
    + simpl. split; [discriminate | intros Hr; exfalso; apply Hr; lia].
    + simpl. split; [intros _; lia | reflexivity].
  - change (PosDef.Pos.compare_cont Eq m1 m2) with (Pos.compare m1 m2).
    destruct (Z.compare_spec e1 e2) as [Heq | Hlt | Hgt].
    + destruct (Pos.compare_spec m1 m2) as [Hm | Hm | Hm]; simpl; split;
        try discriminate; try reflexivity; try lia;
        try (intros Hr; exfalso; apply Hr; lia).
    + simpl. split; [intros _; lia | reflexivity].
    + simpl. split; [discriminate | intros Hr; exfalso; apply Hr; lia].
Qed.

Lemma is_nan_false_spec (x : float) :
  PrimFloat.is_nan x = false <-> Prim2SF x <> SpecFloat.S754_nan.
Proof.
  split.
  - intros Hx Hn. apply is_nan_spec in Hn. rewrite Hn in Hx. discriminate Hx.
  - intros Hn. destruct (PrimFloat.is_nan x) eqn:Hx; [| reflexivity].
    apply is_nan_spec in Hx. contradiction.
Qed.

Lemma SFleb_nan_l (f : SpecFloat.spec_float) : SpecFloat.SFleb SpecFloat.S754_nan f = false.
Proof. reflexivity. Qed.

Lemma SFleb_nan_r (f : SpecFloat.spec_float) : SpecFloat.SFleb f SpecFloat.S754_nan = false.
Proof. destruct f as [s | s | | s m e]; try destruct s; reflexivity. Qed.

Lemma SFltb_nan_l (f : SpecFloat.spec_float) : SpecFloat.SFltb SpecFloat.S754_nan f = false.
Proof. reflexivity. Qed.

Lemma SFltb_nan_r (f : SpecFloat.spec_float) : SpecFloat.SFltb f SpecFloat.S754_nan = false.
Proof. destruct f as [s | s | | s m e]; try destruct s; reflexivity. Qed.

(** [x <= y] holds exactly when neither is a NaN and [y] does not rank below
    [x]; [x < y] when neither is a NaN and [x] ranks below [y]. *)
Lemma leb_rank (x y : float) :
  PrimFloat.leb x y = true
  <-> PrimFloat.is_nan x = false /\ PrimFloat.is_nan y = false
      /\ ~ rank_lt (rank y) (rank x).
Proof.
  rewrite FloatAxioms.leb_spec. unfold rank.
  destruct (PrimFloat.is_nan x) eqn:Hx.
  - apply is_nan_spec in Hx. rewrite Hx, SFleb_nan_l.
    split; [discriminate | intros [Hf _]; discriminate Hf].
  - destruct (PrimFloat.is_nan y) eqn:Hy.
    + apply is_nan_spec in Hy. rewrite Hy, SFleb_nan_r.
      split; [discriminate | intros [_ [Hf _]]; discriminate Hf].
    + apply is_nan_false_spec in Hx, Hy.
      rewrite (SFleb_rank Hx Hy). tauto.
Qed.

Lemma ltb_rank (x y : float) :
  PrimFloat.ltb x y = true
  <-> PrimFloat.is_nan x = false /\ PrimFloat.is_nan y = false
      /\ rank_lt (rank x) (rank y).
Proof.
  rewrite FloatAxioms.ltb_spec. unfold rank.
  destruct (PrimFloat.is_nan x) eqn:Hx.
  - apply is_nan_spec in Hx. rewrite Hx, SFltb_nan_l.
    split; [discriminate | intros [Hf _]; discriminate Hf].
  - destruct (PrimFloat.is_nan y) eqn:Hy.
    + apply is_nan_spec in Hy. rewrite Hy, SFltb_nan_r.
      split; [discriminate | intros [_ [Hf _]]; discriminate Hf].
    + apply is_nan_false_spec in Hx, Hy.
      rewrite (SFltb_rank Hx Hy). tauto.
Qed.

Lemma leb_refl (x : float) : PrimFloat.is_nan x = false -> PrimFloat.leb x x = true.
Proof.
  intros Hx. apply leb_rank. repeat split; try exact Hx.
  destruct (rank x) as [[a b] c]. simpl. lia.
Qed.

Lemma leb_trans (x y z : float) :
  PrimFloat.leb x y = true -> PrimFloat.leb y z = true -> PrimFloat.leb x z = true.
Proof.
  intros Hxy Hyz. apply leb_rank in Hxy, Hyz. apply leb_rank.
  destruct Hxy as [Hx [Hy Hxy]]. destruct Hyz as [_ [Hz Hyz]].
  repeat split; try assumption.
  destruct (rank x) as [[a1 b1] c1]. destruct (rank y) as [[a2 b2] c2].
  destruct (rank z) as [[a3 b3] c3]. simpl in *. lia.
Qed.

(** Two numbers are comparable: when [x <= y] fails, [y <= x] holds. *)
Lemma leb_total (x y : float) :
  PrimFloat.is_nan x = false -> PrimFloat.is_nan y = false ->
  PrimFloat.leb x y = false -> PrimFloat.leb y x = true.
Proof.
  intros Hx Hy Hxy. apply leb_rank. repeat split; try assumption.
  intros Hr. assert (Hle : PrimFloat.leb x y = true).
  { apply leb_rank. repeat split; try assumption.
    destruct (rank x) as [[a1 b1] c1]. destruct (rank y) as [[a2 b2] c2].
    simpl in *. lia. }
  rewrite Hle in Hxy. discriminate Hxy.
Qed.

Lemma ltb_leb_trans (x y z : float) :
  PrimFloat.ltb x y = true -> PrimFloat.leb y z = true -> PrimFloat.ltb x z = true.
Proof.
  intros Hxy Hyz. apply ltb_rank in Hxy. apply leb_rank in Hyz. apply ltb_rank.
  destruct Hxy as [Hx [Hy Hxy]]. destruct Hyz as [_ [Hz Hyz]].
  repeat split; try assumption.
  destruct (rank x) as [[a1 b1] c1]. destruct (rank y) as [[a2 b2] c2].
  destruct (rank z) as [[a3 b3] c3]. simpl in *. lia.
Qed.

(** ** The arg-min of a row *)

Lemma argmin_float_from_spec :
  forall (l : list float) (best_i : nat) (best : float) (i : nat),
    PrimFloat.is_nan best = false ->
    let r := argmin_float_from best_i best i l in
    (r = best_i /\ Forall (fun y => PrimFloat.leb best y = true) l)
    \/ (exists k, k < length l /\ r = i + k
                  /\ (PrimFloat.is_nan (nth k l 0%float) = true
                      \/ (PrimFloat.leb (nth k l 0%float) best = true
                          /\ Forall (fun y => PrimFloat.leb (nth k l 0%float) y = true) l))).
Proof.
  induction l as [| x l IH]; intros best_i best i Hbest; cbn zeta.
  - left. split; [reflexivity | constructor].
  - cbn [argmin_float_from].
    destruct (PrimFloat.leb best x) eqn:Hbx.
    + destruct (IH best_i best (S i) Hbest) as [[Hr Hall] | [k [Hk [Hr Hcase]]]].
      * left. split; [exact Hr | constructor; assumption].
      * right. exists (S k). split; [simpl; lia |]. split; [lia |].
        cbn [nth]. destruct Hcase as [Hnan | [Hle Hall]]; [left; exact Hnan | right].
        split; [exact Hle |]. constructor; [| exact Hall].
        apply (leb_trans Hle Hbx).
    + destruct (PrimFloat.is_nan x) eqn:Hx.
      * right. exists 0. split; [simpl; lia |]. split; [lia |]. left. exact Hx.
      * assert (Hxb : PrimFloat.leb x best = true) by (apply leb_total; assumption).
        destruct (IH i x (S i) Hx) as [[Hr Hall] | [k [Hk [Hr Hcase]]]].
        -- right. exists 0. split; [simpl; lia |]. split; [lia |]. right.
           cbn [nth]. split; [exact Hxb |].
           constructor; [apply leb_refl; exact Hx | exact Hall].
        -- right. exists (S k). split; [simpl; lia |]. split; [lia |].
           cbn [nth]. destruct Hcase as [Hnan | [Hle Hall]]; [left; exact Hnan | right].
           split; [apply (leb_trans Hle Hxb) |].
           constructor; [exact Hle | exact Hall].
Qed.

(** [np.argmin] returns the position of a least entry. *)
Lemma np_argmin_float_spec (l : list float) :
  l <> [] ->
  exists j, np_argmin_float l = Ok j /\ j < length l /\ least_of l (nth j l 0%float).
Proof.
  intros Hne. destruct l as [| x l]; [contradiction Hne; reflexivity |].
  cbn [np_argmin_float].
  destruct (PrimFloat.is_nan x) eqn:Hx.
  - exists 0. split; [reflexivity |]. split; [simpl; lia |]. left. exact Hx.
  - destruct (@argmin_float_from_spec l 0 x 1 Hx) as [[Hr Hall] | [k [Hk [Hr Hcase]]]].
    + exists 0. split; [rewrite Hr; reflexivity |]. split; [simpl; lia |].
      right. cbn [nth]. constructor; [apply leb_refl; exact Hx | exact Hall].
    + exists (S k). split; [rewrite Hr; reflexivity |]. split; [simpl; lia |].
      cbn [nth]. destruct Hcase as [Hnan | [Hle Hall]]; [left; exact Hnan | right].
      constructor; [exact Hle | exact Hall].
Qed.

(** A least entry is positive exactly when every entry is. *)
Lemma least_positive (l : list float) (x : float) :
  In x l -> least_of l x ->
  PrimFloat.ltb 0%float x = forallb (PrimFloat.ltb 0%float) l.
Proof.
  intros Hin [Hnan | Hall].
  - assert (Hx : PrimFloat.ltb 0%float x = false).
    { destruct (PrimFloat.ltb 0%float x) eqn:Hlt; [| reflexivity].
      apply ltb_rank in Hlt. destruct Hlt as [_ [Hn _]]. rewrite Hn in Hnan. discriminate. }
    rewrite Hx. symmetry. apply not_true_is_false. intros Hf.
    rewrite forallb_forall in Hf. rewrite (Hf x Hin) in Hx. discriminate Hx.
  - destruct (PrimFloat.ltb 0%float x) eqn:Hx.
    + symmetry. apply forallb_forall. intros y Hy.
      rewrite Forall_forall in Hall. apply (ltb_leb_trans Hx (Hall y Hy)).
    + symmetry. apply not_true_is_false. intros Hf.
      rewrite forallb_forall in Hf. rewrite (Hf x Hin) in Hx. discriminate Hx.
Qed.

(** ** Articulated collision avoidance *)

Lemma reshape_known2 (a b : nat) (x y : ndarray) :
  reshape [Some a; Some b] x = Ok y -> shape y = [a; b] /\ data y = data x.
Proof.
  unfold reshape. cbn [filter length flat_map app].
  destruct (prod_shape [a; b] =? size x); intros Hr; [| discriminate Hr].
  injection Hr as <-. split; reflexivity.
Qed.

(** Asked for no Jacobian, [CollFreeConst] returns the placeholder, and its
    residual has one row per configuration and one column per feature. *)
Lemma CollFreeConst_without_jacobian (c : CollFreeConst) (qs F J : ndarray) :
  CollFreeConst__evaluate c qs false = Ok (F, J) -> J = dummy_jacobian.
Proof.
  unfold CollFreeConst__evaluate. intros Hr.
  destruct (collfree_sdf c) as [sdf |]; [| discriminate Hr].
  destruct (unpack_shape2 qs) as [[n_point dim] | e]; cbn [bind] in Hr; [| discriminate Hr].
  destruct (kin_map (colkin c) qs) as [xss jacss].
  destruct (reshape _ xss) as [xs | e]; cbn [bind] in Hr; [| discriminate Hr].
  destruct (np_sub _ _) as [fs | e]; cbn [bind] in Hr; [| discriminate Hr].
  destruct (reshape _ fs) as [fss | e]; cbn [bind] in Hr; [| discriminate Hr].
  injection Hr as _ <-. reflexivity.
Qed.

Lemma CollFreeConst__evaluate_shape (c : CollFreeConst) (qs F J : ndarray)
      (with_jacobian : bool) (n d : nat) :
  shape qs = [n; d] ->
  CollFreeConst__evaluate c qs with_jacobian = Ok (F, J) ->
  shape F = [n; n_feature (colkin c)].
Proof.
  unfold CollFreeConst__evaluate, unpack_shape2. intros Hs Hr. rewrite Hs in Hr.
  destruct (collfree_sdf c) as [sdf |]; [| discriminate Hr].
  cbn [bind] in Hr.
  destruct (kin_map (colkin c) qs) as [xss jacss].
  destruct (reshape _ xss) as [xs | e]; cbn [bind] in Hr; [| discriminate Hr].
  destruct (np_sub _ _) as [fs | e]; cbn [bind] in Hr; [| discriminate Hr].
  destruct (reshape [Some n; Some (n_feature (colkin c))] fs) as [fss | e] eqn:Hfss;
    cbn [bind] in Hr; [| discriminate Hr].
  apply reshape_known2 in Hfss. destruct Hfss as [Hshape _].
  destruct with_jacobian.
  - destruct (mapM _ _) as [columns | e]; cbn [bind] in Hr; [| discriminate Hr].
    destruct (reshape _ _) as [gradss | e]; cbn [bind] in Hr; [| discriminate Hr].
    destruct (np_einsum_ijk_ijkl _ _) as [Jss | e]; cbn [bind] in Hr; [| discriminate Hr].
    injection Hr as <- _. exact Hshape.
  - injection Hr as <- _. exact Hshape.
Qed.

(** Iterating over an array yields its entries along the first axis. *)
Lemma np_iter_rows (a : ndarray) (n : nat) (rest : list nat) :
  shape a = n :: rest ->
  np_iter a
  = Ok (map (fun i => {| shape := rest; data := chunk i (prod_shape rest) (data a) |})
            (seq 0 n)).
Proof.
  intros Hs. unfold np_iter. rewrite Hs. apply mapM_all_ok.
  intros i Hi. apply in_seq in Hi. unfold getitem. rewrite Hs.
  assert (Hlt : (i <? n) = true) by (apply Nat.ltb_lt; lia).
  rewrite Hlt. reflexivity.
Qed.

Lemma nth_In_chunk0 (c : nat) (l : list float) (j : nat) :
  j < length (firstn c l) -> In (nth j (firstn c l) 0%float) (firstn c l).
Proof. intros Hj. apply nth_In. exact Hj. Qed.

(** One pass of the reduction loop: the least entry of the row, and, with a
    Jacobian, the block of that entry. *)
Lemma reduce_row_spec (with_jacobian : bool) (fs js : ndarray) (r : nat) (rest : list nat) :
  data fs <> [] ->
  (with_jacobian = true -> shape js = r :: rest /\ length (data fs) <= r) ->
  exists j, j < length (data fs)
            /\ least_of (data fs) (nth j (data fs) 0%float)
            /\ reduce_row with_jacobian fs js
               = Ok (np_array1 [nth j (data fs) 0%float],
                     if with_jacobian
                     then [{| shape := 1 :: rest;
                              data := chunk j (prod_shape rest) (data js) |}]
                     else []).
Proof.
  intros Hne Hjs. destruct (np_argmin_float_spec Hne) as [j [Harg [Hj Hleast]]].
  exists j. split; [exact Hj |]. split; [exact Hleast |].
  unfold reduce_row. rewrite Harg. cbn [bind].
  destruct with_jacobian; [| reflexivity].
  destruct (Hjs eq_refl) as [Hs Hr]. unfold getitem. rewrite Hs.
  assert (Hlt : (j <? r) = true) by (apply Nat.ltb_lt; lia).
  rewrite Hlt. reflexivity.
Qed.

(** What [ReducedCollisionFreeConst] returns when no Jacobian is asked for. *)
Lemma ReducedCollisionFreeConst__evaluate_first_row
        (c : ReducedCollisionFreeConst) (qs fss jss : ndarray) (n d m : nat) :
  shape qs = [S n; d] ->
  n_feature (colkin (as_CollFreeConst c)) = S m ->
  CollFreeConst__evaluate (as_CollFreeConst c) qs false = Ok (fss, jss) ->
  wf_ndarray fss ->
  exists x,
    ReducedCollisionFreeConst__evaluate c qs false
    = Ok ({| shape := [1; 1]; data := [x] |}, dummy_jacobian)
    /\ In x (firstn (S m) (data fss))
    /\ least_of (firstn (S m) (data fss)) x
    /\ PrimFloat.ltb 0%float x = forallb (PrimFloat.ltb 0%float) (firstn (S m) (data fss)).
Proof.
  intros Hqs Hm Hfull Hwf.
  pose proof (CollFreeConst__evaluate_shape _ _ _ Hqs Hfull) as Hshape. rewrite Hm in Hshape.
  pose proof (CollFreeConst_without_jacobian _ _ Hfull) as Hdummy. subst jss.
  assert (Hlen : length (data fss) = S n * (S m * 1)).
  { unfold wf_ndarray, size in Hwf. rewrite Hshape in Hwf. exact Hwf. }
  set (row0 := {| shape := [S m]; data := chunk 0 (prod_shape [S m]) (data fss) |}).
  assert (Hrow0 : data row0 = firstn (S m) (data fss)).
  { unfold row0, chunk. cbn [data prod_shape fold_right]. rewrite Nat.mul_1_r. reflexivity. }
  assert (Hne : data row0 <> []).
  { rewrite Hrow0. intros Hnil. apply (f_equal (@length float)) in Hnil.
    rewrite length_firstn, Hlen in Hnil. cbn [length] in Hnil. nia. }
  destruct (@reduce_row_spec false row0 {| shape := [1]; data := [nan] |} 0 [] Hne)
    as [j [Hj [Hleast Hred]]]; [discriminate |].
  exists (nth j (data row0) 0%float).
  split; [| rewrite <- Hrow0; split; [apply nth_In; exact Hj | split; [exact Hleast |]]].
  - unfold ReducedCollisionFreeConst__evaluate. rewrite Hfull. cbn [bind].
    rewrite (np_iter_rows fss Hshape).
    rewrite (@np_iter_rows dummy_jacobian 1 [1] eq_refl). cbn [bind].
    cbn [seq map combine mapM]. fold row0.
    change {| shape := [1]; data := chunk 0 (prod_shape [1]) (data dummy_jacobian) |}
      with {| shape := [1]; data := [nan] |}.
    rewrite Hred, combine_nil. cbn [mapM bind map fst snd flat_map app].
    unfold np_array_of. cbn [forallb shape np_array1 shape_eqb length].
    cbn [Nat.eqb andb flat_map data app length]. reflexivity.
  - apply least_positive; [apply nth_In; exact Hj | exact Hleast].
Qed.

(** X1. Asked for no Jacobian on a batch of one or more configurations,
    [ReducedCollisionFreeConst] pairs the rows of the residual with the
    single row of the placeholder: its residual has one row, holding the
    least entry of the first configuration's residuals, whatever the number
    of configurations. *)
Theorem ReducedCollisionFreeConst_without_jacobian_first_row
        (c : ReducedCollisionFreeConst) (qs fss jss : ndarray) (n d m : nat) :
  shape qs = [S n; d] ->
  n_feature (colkin (as_CollFreeConst c)) = S m ->
  CollFreeConst__evaluate (as_CollFreeConst c) qs false = Ok (fss, jss) ->
  wf_ndarray fss ->
  exists x,
    ReducedCollisionFreeConst__evaluate c qs false
    = Ok ({| shape := [1; 1]; data := [x] |}, dummy_jacobian)
    /\ In x (firstn (S m) (data fss))
    /\ least_of (firstn (S m) (data fss)) x
    /\ PrimFloat.ltb 0%float x = forallb (PrimFloat.ltb 0%float) (firstn (S m) (data fss)).
Proof.
  intros Hqs Hm Hfull Hwf.
  exact (@ReducedCollisionFreeConst__evaluate_first_row c qs fss jss n d m Hqs Hm Hfull Hwf).
Qed.

Lemma ReducedCollisionFreeConst_without_jacobian_first_row_witness :
  exists x,
    ReducedCollisionFreeConst__evaluate {| as_CollFreeConst := wall_clearance |}
                                        clear_then_colliding false
    = Ok ({| shape := [1; 1]; data := [x] |}, dummy_jacobian)
    /\ In x (firstn 2 (data clear_then_colliding_residual))
    /\ least_of (firstn 2 (data clear_then_colliding_residual)) x
    /\ PrimFloat.ltb 0%float x
       = forallb (PrimFloat.ltb 0%float) (firstn 2 (data clear_then_colliding_residual)).
Proof.
  apply (@ReducedCollisionFreeConst_without_jacobian_first_row
           {| as_CollFreeConst := wall_clearance |} clear_then_colliding
           clear_then_colliding_residual dummy_jacobian 1 2 1).
  - reflexivity.
  - reflexivity.
  - vm_compute. reflexivity.
  - reflexivity.
Defined.

Lemma argmin_of_spec (l : list float) :
  l <> [] ->
  np_argmin_float l = Ok (argmin_of l)
  /\ argmin_of l < length l
  /\ least_of l (nth (argmin_of l) l 0%float).
Proof.
  intros Hne. destruct (np_argmin_float_spec Hne) as [j [Harg [Hj Hleast]]].
  unfold argmin_of. rewrite Harg. repeat split; assumption.
Qed.

Lemma combine_map_seq {A B : Type} (f : nat -> A) (g : nat -> B) (a n : nat) :
  combine (map f (seq a n)) (map g (seq a n)) = map (fun i => (f i, g i)) (seq a n).
Proof.
  revert a. induction n as [| n IH]; intros a; simpl; [reflexivity |].
  rewrite IH. reflexivity.
Qed.

Lemma np_array_of_uniform (s : list nat) (l : list ndarray) :
  l <> [] -> Forall (fun a => shape a = s) l ->
  np_array_of l = Ok {| shape := length l :: s; data := flat_map data l |}.
Proof.
  intros Hne Hall. destruct l as [| a l]; [contradiction Hne; reflexivity |].
  unfold np_array_of.
  assert (Hs : shape a = s) by (inversion Hall; assumption).
  assert (Hb : forallb (fun b => shape_eqb (shape a) (shape b)) (a :: l) = true).
  { apply forallb_forall. intros b Hb. rewrite Forall_forall in Hall.
    rewrite Hs, (Hall b Hb). apply shape_eqb_refl. }
  rewrite Hb, Hs. reflexivity.
Qed.

(** With a Jacobian, every row is reduced to its least entry, and the
    Jacobian to the block of that entry. *)
Lemma ReducedCollisionFreeConst__evaluate_rows
      (c : ReducedCollisionFreeConst) (qs fss jss : ndarray) (n m l : nat) :
  CollFreeConst__evaluate (as_CollFreeConst c) qs true = Ok (fss, jss) ->
  shape fss = [S n; S m] -> wf_ndarray fss ->
  shape jss = [S n; S m; l] ->
  ReducedCollisionFreeConst__evaluate c qs true
  = Ok ({| shape := [S n; 1];
           data := map (fun i => nth (argmin_of (row_of (S m) fss i)) (row_of (S m) fss i)
                                     0%float)
                       (seq 0 (S n)) |},
        {| shape := [S n; 1; l];
           data := flat_map (fun i => chunk (argmin_of (row_of (S m) fss i)) l
                                            (chunk i (S m * l) (data jss)))
                            (seq 0 (S n)) |}).
Proof.
  intros Hfull Hshape Hwf Hjs.
  assert (Hlen : length (data fss) = S n * S m).
  { unfold wf_ndarray, size in Hwf. rewrite Hshape in Hwf.
    cbn [prod_shape fold_right] in Hwf. rewrite Nat.mul_1_r in Hwf. exact Hwf. }
  assert (Hrow : forall i, i < S n -> row_of (S m) fss i <> []).
  { intros i Hi Hnil. apply (f_equal (@length float)) in Hnil.
    unfold row_of in Hnil. rewrite chunk_length in Hnil by (rewrite Hlen; nia).
    discriminate Hnil. }
  unfold ReducedCollisionFreeConst__evaluate. rewrite Hfull. cbn [bind].
  rewrite (np_iter_rows fss Hshape), (np_iter_rows jss Hjs). cbn [bind].
  rewrite combine_map_seq, mapM_map.
  rewrite (mapM_all_ok _
             (fun i => (np_array1 [nth (argmin_of (row_of (S m) fss i))
                                       (row_of (S m) fss i) 0%float],
                        [{| shape := [1; l];
                            data := chunk (argmin_of (row_of (S m) fss i)) l
                                          (chunk i (S m * l) (data jss)) |}]))).
  - cbn [bind]. rewrite !map_map. cbn [fst].
    rewrite flat_map_map. cbn [snd].
    rewrite (@np_array_of_uniform [1]).
    + cbn [bind].
      rewrite (@np_array_of_uniform [1; l]).
      * cbn [bind].
        rewrite !flat_map_singleton, !length_map, !length_seq, !flat_map_map.
        cbn [np_array1 data]. rewrite flat_map_singleton. reflexivity.
      * simpl. discriminate.
      * apply Forall_forall. intros a Ha. apply in_flat_map in Ha.
        destruct Ha as [i [_ [<- | []]]]. reflexivity.
    + simpl. discriminate.
    + apply Forall_forall. intros a Ha. apply in_map_iff in Ha.
      destruct Ha as [i [<- _]]. reflexivity.
  - intros i Hi. apply in_seq in Hi.
    destruct (argmin_of_spec (Hrow i ltac:(lia))) as [Harg [Hlt _]].
    unfold reduce_row. cbn [data]. cbn [prod_shape fold_right]. rewrite !Nat.mul_1_r.
    fold (row_of (S m) fss i). rewrite Harg. cbn [bind].
    unfold getitem. cbn [shape].
    assert (Hj : (argmin_of (row_of (S m) fss i) <? S m) = true).
    { apply Nat.ltb_lt. unfold row_of in Hlt at 2.
      rewrite chunk_length in Hlt by (rewrite Hlen; nia). exact Hlt. }
    rewrite Hj. cbn [bind data prod_shape fold_right expand_dims0 shape].
    rewrite !Nat.mul_1_r. reflexivity.
Qed.

(** X2. With a Jacobian, the residual of [ReducedCollisionFreeConst] holds, for
    every configuration, a least entry of the residuals [CollFreeConst]
    returns for it, and the Jacobian holds the block of that very entry. *)
Theorem ReducedCollisionFreeConst_with_jacobian_least
        (c : ReducedCollisionFreeConst) (qs fss jss : ndarray) (n m l : nat) :
  CollFreeConst__evaluate (as_CollFreeConst c) qs true = Ok (fss, jss) ->
  shape fss = [S n; S m] -> wf_ndarray fss ->
  shape jss = [S n; S m; l] ->
  exists closest : nat -> nat,
    ReducedCollisionFreeConst__evaluate c qs true
    = Ok ({| shape := [S n; 1];
             data := map (fun i => nth (closest i) (row_of (S m) fss i) 0%float)
                         (seq 0 (S n)) |},
          {| shape := [S n; 1; l];
             data := flat_map (fun i => chunk (closest i) l (chunk i (S m * l) (data jss)))
                              (seq 0 (S n)) |})
    /\ forall i, i < S n ->
         closest i < S m
         /\ least_of (row_of (S m) fss i) (nth (closest i) (row_of (S m) fss i) 0%float).
Proof.
  intros Hfull Hshape Hwf Hjs.
  exists (fun i => argmin_of (row_of (S m) fss i)).
  split; [apply (ReducedCollisionFreeConst__evaluate_rows c qs Hfull Hshape Hwf Hjs) |].
  intros i Hi.
  assert (Hlen : length (data fss) = S n * S m).
  { unfold wf_ndarray, size in Hwf. rewrite Hshape in Hwf.
    cbn [prod_shape fold_right] in Hwf. rewrite Nat.mul_1_r in Hwf. exact Hwf. }
  assert (Hrl : length (row_of (S m) fss i) = S m).
  { unfold row_of. apply chunk_length. rewrite Hlen. nia. }
  assert (Hne : row_of (S m) fss i <> []).
  { intros Hnil. rewrite Hnil in Hrl. discriminate Hrl. }
  destruct (argmin_of_spec Hne) as [_ [Hlt Hleast]].
  rewrite Hrl in Hlt. split; assumption.
Qed.

Lemma ReducedCollisionFreeConst_with_jacobian_least_witness :
  exists closest : nat -> nat,
    ReducedCollisionFreeConst__evaluate {| as_CollFreeConst := wall_clearance |}
                                        clear_then_colliding true
    = Ok ({| shape := [2; 1];
             data := map (fun i => nth (closest i)
                                       (row_of 2 clear_then_colliding_residual i) 0%float)
                         (seq 0 2) |},
          {| shape := [2; 1; 2];
             data := flat_map (fun i => chunk (closest i) 2
                                              (chunk i (2 * 2)
                                                     (data clear_then_colliding_jacobian)))
                              (seq 0 2) |})
    /\ forall i, i < 2 ->
         closest i < 2
         /\ least_of (row_of 2 clear_then_colliding_residual i)
                     (nth (closest i) (row_of 2 clear_then_colliding_residual i) 0%float).
Proof.
  apply (@ReducedCollisionFreeConst_with_jacobian_least
           {| as_CollFreeConst := wall_clearance |} clear_then_colliding
           clear_then_colliding_residual clear_then_colliding_jacobian 1 1 2).
  - vm_compute. reflexivity.
  - reflexivity.
  - reflexivity.
  - reflexivity.
Defined.

(** A list cut into [n] blocks of [c] elements is the blocks put together. *)
Lemma chunks_cover {A : Type} (c : nat) :
  forall (n : nat) (l : list A),
    length l = n * c -> flat_map (fun i => chunk i c l) (seq 0 n) = l.
Proof.
  induction n as [| n IH]; intros l Hlen.
  - destruct l; [reflexivity | discriminate Hlen].
  - cbn [seq flat_map]. rewrite <- seq_shift, flat_map_map.
    transitivity (firstn c l ++ skipn c l); [| apply firstn_skipn]. f_equal.
    rewrite <- (IH (skipn c l)) by (rewrite length_skipn, Hlen; simpl; lia).
    apply flat_map_ext_in. intros i _. unfold chunk.
    rewrite skipn_skipn. f_equal. f_equal. simpl. lia.
Qed.

Lemma forallb_ext_in {A : Type} (f g : A -> bool) (l : list A) :
  (forall x, In x l -> f x = g x) -> forallb f l = forallb g l.
Proof.
  induction l as [| x l IH]; intros Hext; simpl; [reflexivity |].
  rewrite (Hext x) by (left; reflexivity).
  rewrite IH by (intros y Hy; apply Hext; right; exact Hy). reflexivity.
Qed.

(** X3. With a Jacobian, [ReducedCollisionFreeConst] accepts a batch (all
    residuals [> 0]) exactly when [CollFreeConst] does. *)
Theorem ReducedCollisionFreeConst_accepts_as_CollFreeConst
        (c : ReducedCollisionFreeConst) (qs fss jss : ndarray) (n m l : nat) :
  CollFreeConst__evaluate (as_CollFreeConst c) qs true = Ok (fss, jss) ->
  shape fss = [S n; S m] -> wf_ndarray fss ->
  shape jss = [S n; S m; l] ->
  exists F J,
    ReducedCollisionFreeConst__evaluate c qs true = Ok (F, J)
    /\ shape F = [S n; 1]
    /\ np_all_pos F = np_all_pos fss.
Proof.
  intros Hfull Hshape Hwf Hjs.
  rewrite (ReducedCollisionFreeConst__evaluate_rows c qs Hfull Hshape Hwf Hjs).
  eexists. eexists. split; [reflexivity |]. split; [reflexivity |].
  assert (Hlen : length (data fss) = S n * S m).
  { unfold wf_ndarray, size in Hwf. rewrite Hshape in Hwf.
    cbn [prod_shape fold_right] in Hwf. rewrite Nat.mul_1_r in Hwf. exact Hwf. }
  unfold np_all_pos. cbn [data].
  rewrite <- (chunks_cover (S m) (S n) (data fss) Hlen).
  rewrite forallb_flat_map, forallb_of_map.
  apply forallb_ext_in. intros i Hi. apply in_seq in Hi.
  fold (row_of (S m) fss i).
  assert (Hrl : length (row_of (S m) fss i) = S m).
  { unfold row_of. apply chunk_length. rewrite Hlen. nia. }
  assert (Hne : row_of (S m) fss i <> []).
  { intros Hnil. rewrite Hnil in Hrl. discriminate Hrl. }
  destruct (argmin_of_spec Hne) as [_ [Hlt Hleast]].
  apply least_positive; [apply nth_In; exact Hlt | exact Hleast].
Qed.

Lemma ReducedCollisionFreeConst_accepts_as_CollFreeConst_witness :
  exists F J,
    ReducedCollisionFreeConst__evaluate {| as_CollFreeConst := wall_clearance |}
                                        clear_then_colliding true = Ok (F, J)
    /\ shape F = [2; 1]
    /\ np_all_pos F = np_all_pos clear_then_colliding_residual.
Proof.
  apply (@ReducedCollisionFreeConst_accepts_as_CollFreeConst
           {| as_CollFreeConst := wall_clearance |} clear_then_colliding
           clear_then_colliding_residual clear_then_colliding_jacobian 1 1 2).
  - vm_compute. reflexivity.
  - reflexivity.
  - reflexivity.
  - reflexivity.
Defined.

Lemma nth_tiled (r : list float) (n k : nat) :
  k < n * length r ->
  nth k (concat (repeat r n)) 0%float = nth (k mod length r) r 0%float.
Proof.
  revert k. induction n as [| n IH]; intros k Hk; [simpl in Hk; lia |].
  cbn [repeat concat].
  assert (Hpos : length r <> 0) by (intros H0; rewrite H0 in Hk; lia).
  destruct (Nat.lt_ge_cases k (length r)) as [Hlt | Hge].
  - rewrite app_nth1 by exact Hlt. rewrite Nat.mod_small by exact Hlt. reflexivity.
  - rewrite app_nth2 by exact Hge. rewrite IH by (simpl in Hk; lia).
    f_equal.
    replace k with ((k - length r) + 1 * length r) at 2 by lia.
    rewrite Nat.Div0.mod_add. reflexivity.
Qed.

Lemma length_tiled (r : list float) (n : nat) :
  length (concat (repeat r n)) = n * length r.
Proof.
  induction n as [| n IH]; simpl; [reflexivity |].
  rewrite length_app, IH. reflexivity.
Qed.

(** X4. The residual of [CollFreeConst] at configuration [i] and feature [j] is
    the signed distance of that feature point less the clearance radius of
    feature [j]; asked for no Jacobian, the placeholder comes with it. *)
Theorem CollFreeConst_residual_is_distance_less_radius
        (c : CollFreeConst) (sdf : ndarray -> ndarray)
        (qs xss jacss sds : ndarray) (n d : nat) :
  collfree_sdf c = Some sdf ->
  shape qs = [n; d] ->
  kin_map (colkin c) qs = (xss, jacss) ->
  size xss = n * n_feature (colkin c) * dim_tspace (colkin c) ->
  sdf {| shape := [n * n_feature (colkin c); dim_tspace (colkin c)]; data := data xss |}
  = sds ->
  shape sds = [n * n_feature (colkin c)] -> wf_ndarray sds ->
  length (radius_list (colkin c)) = n_feature (colkin c) ->
  CollFreeConst__evaluate c qs false
  = Ok ({| shape := [n; n_feature (colkin c)];
           data := map (fun k => PrimFloat.sub
                                   (nth k (data sds) 0%float)
                                   (nth (k mod n_feature (colkin c))
                                        (radius_list (colkin c)) 0%float))
                       (seq 0 (n * n_feature (colkin c))) |},
        dummy_jacobian).
Proof.
  intros Hsdf Hqs Hkin Hsize Hsds Hshape Hwf Hrad.
  unfold CollFreeConst__evaluate, unpack_shape2. rewrite Hsdf, Hqs. cbn [bind].
  rewrite Hkin.
  set (nf := n_feature (colkin c)) in *. set (dt := dim_tspace (colkin c)) in *.
  unfold reshape at 1. cbn [filter length flat_map app prod_shape fold_right].
  assert (Hk1 : (n * nf * (dt * 1) =? size xss) = true)
    by (apply Nat.eqb_eq; rewrite Hsize; lia).
  rewrite Hk1. cbn [bind map]. rewrite Hsds.
  unfold np_sub.
  rewrite (@np_broadcast_vectors _ PrimFloat.sub (n * nf) sds
             (np_tile1 (radius_list (colkin c)) n)).
  - cbn [bind]. unfold reshape. cbn [filter length flat_map app prod_shape fold_right].
    unfold size. cbn [shape prod_shape fold_right].
    assert (Hk2 : (n * (nf * 1) =? n * nf * 1) = true) by (apply Nat.eqb_eq; lia).
    rewrite Hk2. cbn [bind map data]. f_equal. f_equal. f_equal.
    apply map_ext_in. intros k Hk. apply in_seq in Hk. f_equal.
    unfold np_tile1. cbn [np_array1 data].
    rewrite nth_tiled by (rewrite Hrad; lia). rewrite Hrad. reflexivity.
  - exact Hshape.
  - exact Hwf.
  - unfold np_tile1, np_array1. cbn [shape]. rewrite length_tiled, Hrad. reflexivity.
  - unfold wf_ndarray, size, np_tile1, np_array1. cbn [shape data prod_shape fold_right].
    lia.
Qed.

Lemma CollFreeConst_residual_is_distance_less_radius_witness :
  CollFreeConst__evaluate wall_clearance clear_then_colliding false
  = Ok ({| shape := [2; 2];
           data := map (fun k => PrimFloat.sub
                                   (nth k [1%float; 2%float; (-3)%float; 4%float] 0%float)
                                   (nth (k mod 2) [0.5%float; 0.25%float] 0%float))
                       (seq 0 (2 * 2)) |},
        dummy_jacobian).
Proof.
  apply (@CollFreeConst_residual_is_distance_less_radius
           wall_clearance wall_sdf clear_then_colliding
           (fst (kin_map coordinates_kin clear_then_colliding))
           (snd (kin_map coordinates_kin clear_then_colliding))
           (np_array1 [1%float; 2%float; (-3)%float; 4%float]) 2 2);
    reflexivity.
Defined.

(** ** The solve lifecycle *)

Section LifecycleProperties.
Context {G L M E : Type} {IG : ConstImpl G} {IL : ConstImpl L}
        {IM : ConstImpl M} {IE : ConstImpl E}.
Context {S R Gd : Type} {IS : SolverImpl (G := G) (L := L) (M := M) (E := E) S}
        {RP : ResultProtocol R} {RT : TimedResult R}.
Variable _solve : S -> option Gd -> outcome R.




Lemma solve_attempt_events (o : Solver S) (guiding_traj : option Gd)
      (raise_init_infeasible : bool) :
  fst (solve_attempt (L := L) (M := M) _solve o guiding_traj raise_init_infeasible) = []
  \/ fst (solve_attempt (L := L) (M := M) _solve o guiding_traj raise_init_infeasible)
     = [Solve guiding_traj].
Proof.
  unfold solve_attempt.
  destruct (problem o) as [| [p |]]; try (left; reflexivity).
  destruct (check_init_feasibility p) as [[[|] msg] | e]; try (left; reflexivity).
  - right. reflexivity.
  - destruct raise_init_infeasible; left; reflexivity.
Qed.

(** X7. Under a deadline, [signal.alarm(0)] is among the calls of [solve]
    exactly when [solve] returns.  Either way the handler is installed and
    the timer armed first; a returning call resets the alarm last and
    nowhere before; a raising call ends without the reset, the statement
    not being under a [finally]. *)
Theorem solve_resets_alarm_only_on_return (o : Solver S) (t : float)
        (guiding_traj : option Gd) (raise_init_infeasible : bool) (ts now : float) :
  timeout (solver_config (this o)) = Some t ->
  PrimFloat.ltb 0%float t = true ->
  exists middle,
    ~ In Alarm0 middle
    /\ match solve (L := L) (M := M) _solve o guiding_traj raise_init_infeasible ts now with
       | (events, Return _) => events = [SignalHandler; Setitimer t] ++ middle ++ [Alarm0]
       | (events, Throw _) => events = [SignalHandler; Setitimer t] ++ middle
       end.
Proof.
  intros Ht Hpos. unfold solve, arming, resetting. rewrite Ht, Hpos.
  pose proof (solve_attempt_events o guiding_traj raise_init_infeasible) as Hev.
  destruct (solve_attempt _solve o guiding_traj raise_init_infeasible)
    as [events tried]; cbn [fst] in Hev.
  exists events. split.
  - destruct Hev as [-> | ->]; simpl; intros Hin; [exact Hin |].
    destruct Hin as [Hin | []]; discriminate Hin.
  - destruct tried as [ret | []]; reflexivity.
Qed.

(** X8. Whatever [solve] returns carries the time elapsed between the two clock
    readings, also when [_solve] had set another value. *)
Theorem solve_returns_elapsed_time (o : Solver S) (guiding_traj : option Gd)
        (raise_init_infeasible : bool) (ts now : float) (ret : R)
        (events : list (lifecycle_event Gd)) :
  solve (L := L) (M := M) _solve o guiding_traj raise_init_infeasible ts now
  = (events, Return ret) ->
  time_elapsed ret = Some (PrimFloat.sub now ts).
Proof.
  unfold solve.
  destruct (match timeout (solver_config (this o)) with
            | Some t => PrimFloat.ltb 0%float t
            | None => true
            end); [| discriminate].
  destruct (solve_attempt _solve o guiding_traj raise_init_infeasible)
    as [evs [r | []]]; intros Hs; try discriminate Hs;
    injection Hs as _ <-; apply time_elapsed_set.
Qed.


(** X10. [setup] on a [ParallelSolver] sets the wrapped solver up for the same
    problem, and succeeds exactly when that set-up does: afterwards both
    hold the problem, and the configuration and the number of processes are
    unchanged. *)
Theorem ParallelSolver_setup_reaches_internal_solver
        (w : Solver (ParallelSolver S)) (p : Problem G L M E) :
  (forall w', setup w p = Return w' ->
     problem w' = Present (Some p)
     /\ setup (parallel_internal_solver (this w)) p
        = Return (parallel_internal_solver (this w'))
     /\ problem (parallel_internal_solver (this w')) = Present (Some p)
     /\ parallel_config (this w') = parallel_config (this w)
     /\ parallel_n_process (this w') = parallel_n_process (this w))
  /\ (forall e, setup w p = Throw e <-> _setup (this (parallel_internal_solver (this w))) p = Throw e).
Proof.
  unfold setup at 1 3. cbn [_setup ParallelSolver_impl]. unfold ParallelSolver__setup.
  unfold setup.
  destruct (_setup (this (parallel_internal_solver (this w))) p) as [s | e0].
  - split.
    + intros w' Hw. injection Hw as <-. cbn [problem this parallel_internal_solver
                                              parallel_config parallel_n_process].
      repeat split; reflexivity.
    + intros e. split; discriminate.
  - split.
    + intros w' Hw. discriminate Hw.
    + intros e. split; intros He; injection He as <-; reflexivity.
Qed.

End LifecycleProperties.



Lemma solve_resets_alarm_only_on_return_witness :
  exists middle,
    ~ In Alarm0 middle
    /\ match solve stub_solve stub_on_boxed_problem None true 1%float 3%float with
       | (events, Return _) =>
           events = [SignalHandler; Setitimer 0.5%float] ++ middle ++ [Alarm0]
       | (events, Throw _) => events = [SignalHandler; Setitimer 0.5%float] ++ middle
       end.
Proof.
  refine (solve_resets_alarm_only_on_return stub_solve stub_on_boxed_problem
            (t := 0.5%float) None true 1%float 3%float _ _).
  - reflexivity.
  - reflexivity.
Defined.

Lemma solve_returns_elapsed_time_witness :
  time_elapsed (set_time_elapsed (scratch_solve echo_solver None) 2%float)
  = Some (PrimFloat.sub 3%float 1%float).
Proof.
  refine (solve_returns_elapsed_time stub_solve stub_on_boundary_problem None true
            1%float 3%float
            (events := [SignalHandler; Setitimer 0.5%float; Solve None; Alarm0]) _).
  vm_compute. reflexivity.
Defined.


(** ** The racing meta-solver and a missing result *)




(** ** Retrieval from the case base *)

Lemma StronglySorted_firstn {A : Type} (P : A -> A -> Prop) (k : nat) (l : list A) :
  StronglySorted P l -> StronglySorted P (firstn k l).
Proof.
  revert k. induction l as [| x l IH]; intros k Hs; destruct k; simpl; try constructor.
  - inversion Hs; subst. apply IH. assumption.
  - inversion Hs as [| ? ? Htail Hhead]; subst.
    apply Forall_forall. intros y Hy. rewrite Forall_forall in Hhead.
    apply Hhead. apply (in_firstn_in _ _ _ Hy).
Qed.

(** X12. [_knn_trajectories] returns the trajectories of the [knn] cases nearest
    to the query (of all cases if there are fewer), nearest first: their
    distances never decrease along the list, and no case left out is nearer
    than a case retrieved. *)
Theorem _knn_trajectories_nearest_first
        (R : Type) (s : NearestNeigborSolver R) (query_desc : ndarray) (sqdists : list float) :
  (0 <= knn s)%Z ->
  sqdists_to (vec_descs s) query_desc = Ok sqdists ->
  length (trajectories s) = length sqdists ->
  exists idxs,
    _knn_trajectories s query_desc = Ok (map (fun i => nth i (trajectories s) None) idxs)
    /\ length idxs = Nat.min (Z.to_nat (knn s)) (length sqdists)
    /\ NoDup idxs
    /\ (forall i, In i idxs -> i < length sqdists)
    /\ StronglySorted (in_order sqdists) idxs
    /\ (forall a b, In a idxs -> b < length sqdists -> ~ In b idxs ->
                    np_lt (nth b sqdists nan) (nth a sqdists nan) = false).
Proof.
  intros Hk Hsq Hlen.
  exists (firstn (Z.to_nat (knn s)) (np_argsort sqdists)).
  assert (Hrange : forall i, In i (firstn (Z.to_nat (knn s)) (np_argsort sqdists)) ->
                             i < length sqdists).
  { intros i Hi. apply np_argsort_in_range. apply (in_firstn_in _ _ _ Hi). }
  split; [| split; [| split; [| split; [| split]]]].
  - rewrite (_knn_trajectories_ranked s query_desc Hk), Hsq. cbn [bind].
    apply mapM_getitem. intros j Hj. rewrite Hlen. apply Hrange. exact Hj.
  - rewrite length_firstn.
    rewrite (Permutation_length (np_argsort_perm sqdists)), length_seq. reflexivity.
  - pose proof (np_argsort_NoDup sqdists) as Hnd.
    rewrite <- (firstn_skipn (Z.to_nat (knn s)) (np_argsort sqdists)) in Hnd.
    apply NoDup_app_remove_r in Hnd. exact Hnd.
  - exact Hrange.
  - apply StronglySorted_firstn. apply np_argsort_sorted.
  - intros a b Ha Hb Hnb.
    apply (np_argsort_prefix_nearest sqdists (Z.to_nat (knn s))); [exact Ha |].
    assert (Hin : In b (np_argsort sqdists)).
    { apply (Permutation_in _ (Permutation_sym (np_argsort_perm sqdists))).
      apply in_seq. lia. }
    rewrite <- (firstn_skipn (Z.to_nat (knn s)) (np_argsort sqdists)) in Hin.
    apply in_app_or in Hin. destruct Hin as [Hin | Hin]; [contradiction | exact Hin].
Qed.

Lemma _knn_trajectories_nearest_first_witness :
  exists idxs,
    _knn_trajectories twin_solver (np_array1 [10.5%float])
    = Ok (map (fun i => nth i (trajectories twin_solver) None) idxs)
    /\ length idxs = Nat.min (Z.to_nat (knn twin_solver)) (length twin_sqdists)
    /\ NoDup idxs
    /\ (forall i, In i idxs -> i < length twin_sqdists)
    /\ StronglySorted (in_order twin_sqdists) idxs
    /\ (forall a b, In a idxs -> b < length twin_sqdists -> ~ In b idxs ->
                    np_lt (nth b twin_sqdists nan) (nth a twin_sqdists nan) = false).
Proof.
  apply (@_knn_trajectories_nearest_first PlainResult twin_solver
           (np_array1 [10.5%float]) twin_sqdists).
  - simpl. lia.
  - vm_compute. reflexivity.
  - reflexivity.
Defined.

(** X13. With [knn = 0] nothing is retrieved, and every query is answered with
    the abnormal result without a call of the internal solver, whatever the
    threshold. *)
Theorem NearestNeigborSolver__solve_knn_zero
        (R : Type) (RP : ResultProtocol R) (s : NearestNeigborSolver R)
        (query_desc : ndarray) (sqdists : list float) :
  knn s = 0%Z ->
  sqdists_to (vec_descs s) query_desc = Ok sqdists ->
  NearestNeigborSolver__solve s (Some query_desc) = Ok (abnormal, []).
Proof.
  intros Hk Hsq. unfold NearestNeigborSolver__solve, _knn_trajectories.
  rewrite Hsq, Hk. cbn [bind].
  rewrite py_slice_prefix by lia. cbn [Z.to_nat firstn mapM bind without_none flat_map length].
  destruct (count_ge (0 - 0) (infeasibility_threshold s)); reflexivity.
Qed.

Lemma NearestNeigborSolver__solve_knn_zero_witness :
  NearestNeigborSolver__solve
    {| config := default_config; internal_solver := echo_solver;
       vec_descs := twin_vec_descs; trajectories := map snd twin_dataset;
       knn := 0%Z; infeasibility_threshold := PyInt 2 |}
    (Some (np_array1 [10.5%float]))
  = Ok (abnormal, []).
Proof.
  apply (@NearestNeigborSolver__solve_knn_zero PlainResult PlainResult_protocol
           {| config := default_config; internal_solver := echo_solver;
              vec_descs := twin_vec_descs; trajectories := map snd twin_dataset;
              knn := 0%Z; infeasibility_threshold := PyInt 2 |}
           (np_array1 [10.5%float]) twin_sqdists).
  - reflexivity.
  - vm_compute. reflexivity.
Defined.

(** X14. Given an explicit threshold, [init] calibrates nothing: for a non-empty
    case base whose feature vectors all have [d] entries it returns a solver
    for every [knn], with the threshold as passed, the feature vectors as an
    [(N, d)] array and the trajectories in the order of the case base. *)
Theorem NearestNeigborSolver_init_explicit_threshold
        (R : Type) (solver_type : SolverConfig -> ScratchSolver R) (config : SolverConfig)
        (dataset : list (list float * option Trajectory)) (knn : Z)
        (threshold : number) (d : nat) :
  dataset <> [] ->
  Forall (fun case => length (fst case) = d) dataset ->
  NearestNeigborSolver_init solver_type config dataset knn (Some threshold)
  = Ok {| config := config;
          internal_solver := solver_type config;
          vec_descs := {| shape := [length dataset; d];
                          data := concat (map fst dataset) |};
          trajectories := map snd dataset;
          knn := knn;
          infeasibility_threshold := threshold |}.
Proof.
  intros Hne Hall. unfold NearestNeigborSolver_init.
  destruct dataset as [| case dataset]; [contradiction Hne; reflexivity |].
  rewrite (@np_array_of_uniform [d]).
  - cbn [bind]. rewrite !length_map. rewrite flat_map_map.
    cbn [np_array1 data]. rewrite flat_map_concat_map, map_id. reflexivity.
  - discriminate.
  - apply Forall_forall. intros a Ha.
    apply in_map_iff in Ha. destruct Ha as [desc [<- Hdesc]].
    apply in_map_iff in Hdesc. destruct Hdesc as [c [<- Hc]].
    rewrite Forall_forall in Hall. cbn [np_array1 shape]. rewrite (Hall c Hc). reflexivity.
Qed.

Lemma NearestNeigborSolver_init_explicit_threshold_witness :
  NearestNeigborSolver_init (fun _ => echo_solver) default_config twin_dataset 1
                            (Some (PyFloat 0.5%float))
  = Ok {| config := default_config;
          internal_solver := echo_solver;
          vec_descs := {| shape := [length twin_dataset; 1];
                          data := concat (map fst twin_dataset) |};
          trajectories := map snd twin_dataset;
          knn := 1%Z;
          infeasibility_threshold := PyFloat 0.5%float |}.
Proof.
  apply (@NearestNeigborSolver_init_explicit_threshold PlainResult (fun _ => echo_solver)
           default_config twin_dataset 1 (PyFloat 0.5%float) 1).
  - discriminate.
  - repeat constructor.
Defined.

(** ** One configuration in a box, through [evaluate_single] *)

Lemma flat_map_length_const {A B : Type} (f : A -> list B) (c : nat) (l : list A) :
  (forall x, In x l -> length (f x) = c) -> length (flat_map f l) = length l * c.
Proof.
  induction l as [| x l IH]; intros Hc; simpl; [reflexivity |].
  rewrite length_app, (Hc x) by (left; reflexivity).
  rewrite IH by (intros y Hy; apply Hc; right; exact Hy). reflexivity.
Qed.

Lemma length_np_eye (d : nat) : length (data (np_eye d)) = d * d.
Proof.
  unfold np_eye. cbn [data].
  rewrite (@flat_map_length_const _ _ _ d).
  - rewrite length_seq. reflexivity.
  - intros i _. rewrite length_map, length_seq. reflexivity.
Qed.

Lemma chunk_whole {A : Type} (c : nat) (l : list A) :
  length l = c -> chunk 0 c l = l.
Proof.
  intros Hl. unfold chunk. cbn [Nat.mul skipn]. rewrite <- Hl. apply firstn_all.
Qed.

(** X16. A box built from bounds of length [d] and evaluated at one configuration
    of length [d] gives the residual [[q - lb; ub - q]] (the [d] lower
    margins, then the [d] upper margins) and the Jacobian [[I; -I]]. *)
Theorem BoxConst_evaluate_single (d : nat) (q l u : list float) :
  length q = d -> length l = d -> length u = d ->
  (o <- BoxConst_init (np_array1 l) (np_array1 u) ;;
   evaluate_single o (np_array1 q) true)
  = Ok ({| shape := [d + d];
           data := map (fun i => PrimFloat.sub (nth i q 0%float) (nth i l 0%float)) (seq 0 d)
                   ++ map (fun i => PrimFloat.sub (nth i u 0%float) (nth i q 0%float))
                          (seq 0 d) |},
        {| shape := [d + d; d];
           data := data (np_eye d) ++ data (np_neg (np_eye d)) |}).
Proof.
  intros Hq Hl Hu.
  unfold BoxConst_init, reflect_skrobot_model, new_object.
  cbn [self _reflect_skrobot_model BoxConst_impl bind].
  unfold evaluate_single. cbn [ndim np_array1 shape length Nat.eqb py_assert bind].
  rewrite evaluate_flag_set by reflexivity.
  cbn [self _evaluate BoxConst_impl].
  assert (Hqs : expand_dims0 (np_array1 q) = np_array2 d [q]).
  { unfold expand_dims0, np_array2, np_array1. cbn [shape data concat length].
    rewrite app_nil_r, Hq. reflexivity. }
  rewrite Hqs, (@BoxConst__evaluate_one_configuration d q l u Hq Hl Hu). cbn [bind].
  unfold getitem. cbn [shape Nat.ltb Nat.leb bind data prod_shape fold_right].
  rewrite !chunk_whole.
  - reflexivity.
  - rewrite length_app. unfold np_neg. cbn [data]. rewrite length_map, !length_np_eye. lia.
  - rewrite length_app, !length_map, !length_seq. lia.
Qed.

Lemma BoxConst_evaluate_single_witness :
  (o <- BoxConst_init (lb unit_box) (ub unit_box) ;;
   evaluate_single o origin2 true)
  = Ok ({| shape := [2 + 2];
           data := map (fun i => PrimFloat.sub (nth i [0%float; 0%float] 0%float)
                                               (nth i [(-1)%float; (-1)%float] 0%float))
                       (seq 0 2)
                   ++ map (fun i => PrimFloat.sub (nth i [1%float; 1%float] 0%float)
                                                  (nth i [0%float; 0%float] 0%float))
                          (seq 0 2) |},
        {| shape := [2 + 2; 2];
           data := data (np_eye 2) ++ data (np_neg (np_eye 2)) |}).
Proof.
  apply (@BoxConst_evaluate_single 2 [0%float; 0%float] [(-1)%float; (-1)%float]
                                   [1%float; 1%float]); reflexivity.
Defined.

(** ** Composites and the readiness of their members *)

Lemma mapM_raises_at {A B : Type} (f : A -> result B) (before : list A) (x : A)
      (after : list A) (e : exn) :
  Forall (fun a => exists b, f a = Ok b) before ->
  f x = Raise e ->
  mapM f (before ++ x :: after) = Raise e.
Proof.
  intros Hbefore Hx. induction Hbefore as [| a before [b Hb] _ IH]; simpl.
  - rewrite Hx. reflexivity.
  - rewrite Hb. cbn [bind]. rewrite IH. reflexivity.
Qed.

Lemma mapM_raise_inv {A B : Type} (f : A -> result B) (l : list A) (e : exn) :
  mapM f l = Raise e -> exists x, In x l /\ f x = Raise e.
Proof.
  induction l as [| x l IH]; simpl; intros Hr; [discriminate Hr |].
  destruct (f x) as [y | e'] eqn:Hx; cbn [bind] in Hr.
  - destruct (mapM f l) as [ys | e''] eqn:Hm; cbn [bind] in Hr; [discriminate Hr |].
    injection Hr as ->. destruct (IH eq_refl) as [x' [Hin Hx']].
    exists x'. split; [right; exact Hin | exact Hx'].
  - injection Hr as ->. exists x. split; [left; reflexivity | exact Hx].
Qed.

(** X17. Reflection on a composite reflects every member, in order: afterwards
    every member is ready, and the members are those the members' own
    reflections return; it fails only with the exception of a member's
    reflection. *)
Theorem CompositeConst_reflect_reaches_members
        (M : Type) (IM : ConstImpl M)
        (c : AbstractConst (CompositeConst M)) (robot_model : option RobotModel) :
  (forall c', reflect_skrobot_model c robot_model = Ok c' ->
     reflect_robot_flag c' = true
     /\ composite_is_equality (self c') = composite_is_equality (self c)
     /\ Forall2 (fun member member' => reflect_skrobot_model member robot_model = Ok member')
                (const_list (self c)) (const_list (self c'))
     /\ Forall (fun member' => reflect_robot_flag member' = true) (const_list (self c')))
  /\ (forall e, reflect_skrobot_model c robot_model = Raise e ->
        exists member, In member (const_list (self c))
                       /\ reflect_skrobot_model member robot_model = Raise e).
Proof.
  assert (Hrefl :
            reflect_skrobot_model c robot_model
            = match mapM (fun const => reflect_skrobot_model const robot_model)
                         (const_list (self c)) with
              | Ok members =>
                  Ok {| reflect_robot_flag := true;
                        self := {| const_list := members;
                                   composite_is_equality := composite_is_equality (self c) |} |}
              | Raise e => Raise e
              end).
  { unfold reflect_skrobot_model at 1.
    cbn [_reflect_skrobot_model CompositeConst_impl].
    unfold CompositeConst__reflect_skrobot_model.
    destruct (mapM _ (const_list (self c))); reflexivity. }
  rewrite Hrefl. clear Hrefl.
  destruct (mapM (fun const => reflect_skrobot_model const robot_model)
                 (const_list (self c))) as [members | e0] eqn:Hm.
  - split; [| intros e He; discriminate He].
    intros c' Hc. injection Hc as <-. cbn [reflect_robot_flag self const_list
                                            composite_is_equality].
    apply mapM_ok_Forall2 in Hm.
    split; [reflexivity |]. split; [reflexivity |]. split; [exact Hm |].
    clear -Hm. induction Hm as [| m m' l l' Hmm _ IH]; constructor.
    + apply (reflect_sets_flag _ _ Hmm).
    + exact IH.
  - split; [intros c' Hc; discriminate Hc |].
    intros e He. injection He as <-. apply mapM_raise_inv in Hm. exact Hm.
Qed.

(** X18. A composite is ready from its construction, but its members are not
    checked: when a member on which no reflection has run is reached, the
    composite's [evaluate] raises that member's [RuntimeError], naming the
    member's type. *)
Theorem composite_evaluate_needs_ready_members
        (M : Type) (IM : ConstImpl M)
        (c : AbstractConst (CompositeConst M))
        (before : list (AbstractConst M)) (member : AbstractConst M)
        (after : list (AbstractConst M)) (qs : ndarray) (with_jacobian : bool) :
  reflect_robot_flag c = true ->
  const_list (self c) = before ++ member :: after ->
  Forall (fun b => exists r, evaluate b qs with_jacobian = Ok r) before ->
  reflect_robot_flag member = false ->
  evaluate c qs with_jacobian
  = Raise (RuntimeError (not_reflected_message (type_name (self member)))).
Proof.
  intros Hflag Hlist Hbefore Hmember.
  rewrite evaluate_flag_set by exact Hflag.
  cbn [_evaluate CompositeConst_impl]. unfold CompositeConst__evaluate.
  rewrite Hlist.
  rewrite (@mapM_raises_at _ _ (fun const => evaluate const qs with_jacobian)
             before member after
             (RuntimeError (not_reflected_message (type_name (self member))))).
  - reflexivity.
  - exact Hbefore.
  - apply evaluate_flag_unset. exact Hmember.
Qed.

Lemma composite_evaluate_needs_ready_members_witness :
  evaluate ready_and_fresh two_configurations false
  = Raise (RuntimeError (not_reflected_message "BoxConst")).
Proof.
  apply (@composite_evaluate_needs_ready_members BoxConst BoxConst_impl ready_and_fresh
           [ready unit_box] (new_object wide_box) [] two_configurations false).
  - reflexivity.
  - reflexivity.
  - constructor; [| constructor]. eexists. vm_compute. reflexivity.
  - reflexivity.
Defined.

(** X19. The constructor of a composite accepts exactly the lists whose members
    all have the composite's polarity, and then returns a composite that is
    ready and holds the list as given; otherwise its assertion fails. *)
Theorem CompositeConst_init_polarity
        (M : Type) (IM : ConstImpl M) (is_eq : bool) (l : list (AbstractConst M)) :
  CompositeConst_init is_eq l
  = if forallb (fun const => Bool.eqb (is_equality (self const)) is_eq) l
    then Ok {| reflect_robot_flag := true;
               self := {| const_list := l; composite_is_equality := is_eq |} |}
    else Raise (AssertionError "const.is_equality() == self.is_equality()").
Proof.
  unfold CompositeConst_init.
  assert (Hloop :
            mapM (fun const => py_assert (Bool.eqb (is_equality (self const)) is_eq)
                                         "const.is_equality() == self.is_equality()") l
            = if forallb (fun const => Bool.eqb (is_equality (self const)) is_eq) l
              then Ok (map (fun _ => tt) l)
              else Raise (AssertionError "const.is_equality() == self.is_equality()")).
  { induction l as [| const l IH]; [reflexivity |].
    cbn [mapM forallb map]. unfold py_assert at 1.
    destruct (Bool.eqb (is_equality (self const)) is_eq); cbn [bind andb]; [| reflexivity].
    rewrite IH. destruct (forallb _ l); reflexivity. }
  rewrite Hloop. destruct (forallb _ l); reflexivity.
Qed.

(** ** Box limits from a robot description *)

Lemma for_each_joint_bounds (urdf : URDF) (joint_names : list string) :
  has_limits urdf joint_names ->
  exists bounds,
    for_each (joint_bounds urdf) joint_names = Return bounds
    /\ Forall2 (fun joint_name b =>
                  exists joint l, joint_map urdf joint_name = Some joint
                                  /\ limit joint = Some l /\ b = bounds_of_limit l)
               joint_names bounds.
Proof.
  unfold has_limits. induction 1 as [| name names [joint [l [Hj Hl]]] _ [bounds [Hb Hall]]].
  - exists []. split; [reflexivity | constructor].
  - exists (bounds_of_limit l :: bounds). split.
    + cbn [for_each]. unfold joint_bounds at 1. rewrite Hj, Hl. cbn [and_then].
      rewrite Hb. reflexivity.
    + constructor; [| exact Hall]. exists joint, l. repeat split; assumption.
Qed.

Lemma base_bounds_items (base_lb base_ub : list float) :
  3 <= length base_lb -> 3 <= length base_ub ->
  for_each (fun i => lift (l <- vector_item base_lb i ;;
                           u <- vector_item base_ub i ;;
                           Ok (l, u)))
           (seq 0 3)
  = Return (combine (firstn 3 base_lb) (firstn 3 base_ub)).
Proof.
  intros Hlb Hub.
  destruct base_lb as [| l0 [| l1 [| l2 base_lb]]]; try (simpl in Hlb; lia).
  destruct base_ub as [| u0 [| u1 [| u2 base_ub]]]; try (simpl in Hub; lia).
  reflexivity.
Qed.

Lemma map_fst_combine_same {A B : Type} (l : list A) (l' : list B) :
  length l = length l' -> map fst (combine l l') = l /\ map snd (combine l l') = l'.
Proof.
  revert l'. induction l as [| x l IH]; intros [| y l'] Hlen; try discriminate Hlen.
  - split; reflexivity.
  - simpl. destruct (IH l') as [H1 H2]; [simpl in Hlen; lia |]. rewrite H1, H2.
    split; reflexivity.
Qed.

Lemma BoxConst_from_urdf_spec (urdf : URDF) (joint_names : list string)
      (base_lb base_ub : list float) :
  has_limits urdf joint_names ->
  3 <= length base_lb -> 3 <= length base_ub ->
  exists bounds,
    Forall2 (fun joint_name b =>
               exists joint l, joint_map urdf joint_name = Some joint
                               /\ limit joint = Some l /\ b = bounds_of_limit l)
            joint_names bounds
    /\ BoxConst_from_urdf urdf joint_names (Some (base_lb, base_ub))
       = Return (ready {| lb := np_array1 (map fst bounds ++ firstn 3 base_lb);
                          ub := np_array1 (map snd bounds ++ firstn 3 base_ub) |}).
Proof.
  intros Hlim Hlb Hub.
  destruct (for_each_joint_bounds Hlim) as [bounds [Hb Hall]].
  exists bounds. split; [exact Hall |].
  unfold BoxConst_from_urdf. rewrite Hb. cbn [and_then].
  rewrite (base_bounds_items base_lb base_ub Hlb Hub). cbn [and_then].
  destruct (@map_fst_combine_same _ _ (firstn 3 base_lb) (firstn 3 base_ub)) as [H1 H2].
  { rewrite !length_firstn. lia. }
  rewrite H1, H2. reflexivity.
Qed.

(** X20. For joints that all have a limit and base bounds of three or more
    entries, [from_urdf] builds a ready box of [len(joint_names) + 3]
    dimensions: one pair of bounds per joint, a missing or infinite bound
    replaced by [-2 pi] or [2 pi], then the first three base bounds; base
    bounds past the third are not used. *)
Theorem BoxConst_from_urdf_uses_three_base_bounds
        (urdf : URDF) (joint_names : list string) (base_lb base_ub : list float) :
  has_limits urdf joint_names ->
  3 <= length base_lb -> 3 <= length base_ub ->
  (exists bounds,
     Forall2 (fun joint_name b =>
                exists joint l, joint_map urdf joint_name = Some joint
                                /\ limit joint = Some l /\ b = bounds_of_limit l)
             joint_names bounds
     /\ BoxConst_from_urdf urdf joint_names (Some (base_lb, base_ub))
        = Return (ready {| lb := np_array1 (map fst bounds ++ firstn 3 base_lb);
                           ub := np_array1 (map snd bounds ++ firstn 3 base_ub) |}))
  /\ BoxConst_from_urdf urdf joint_names (Some (base_lb, base_ub))
     = BoxConst_from_urdf urdf joint_names (Some (firstn 3 base_lb, firstn 3 base_ub)).
Proof.
  intros Hlim Hlb Hub. split; [apply BoxConst_from_urdf_spec; assumption |].
  unfold BoxConst_from_urdf.
  rewrite (base_bounds_items base_lb base_ub Hlb Hub).
  rewrite (base_bounds_items (firstn 3 base_lb) (firstn 3 base_ub))
    by (rewrite length_firstn; lia).
  rewrite !firstn_firstn. reflexivity.
Qed.

Lemma toy_urdf_has_limits (joint_names : list string) : has_limits toy_urdf joint_names.
Proof.
  apply Forall_forall. intros name _. unfold toy_urdf. cbn [joint_map].
  destruct (String.eqb name "free"); eexists; eexists; split; reflexivity.
Qed.

Lemma BoxConst_from_urdf_uses_three_base_bounds_witness :
  (exists bounds,
     Forall2 (fun joint_name b =>
                exists joint l, joint_map toy_urdf joint_name = Some joint
                                /\ limit joint = Some l /\ b = bounds_of_limit l)
             ["a"; "free"] bounds
     /\ BoxConst_from_urdf toy_urdf ["a"; "free"]
          (Some ([5%float; 6%float; 7%float; 8%float], [15%float; 16%float; 17%float]))
        = Return (ready {| lb := np_array1 (map fst bounds
                                                   ++ firstn 3 [5%float; 6%float; 7%float;
                                                                8%float]);
                           ub := np_array1 (map snd bounds
                                                   ++ firstn 3 [15%float; 16%float;
                                                                17%float]) |}))
  /\ BoxConst_from_urdf toy_urdf ["a"; "free"]
       (Some ([5%float; 6%float; 7%float; 8%float], [15%float; 16%float; 17%float]))
     = BoxConst_from_urdf toy_urdf ["a"; "free"]
         (Some (firstn 3 [5%float; 6%float; 7%float; 8%float],
                firstn 3 [15%float; 16%float; 17%float])).
Proof.
  apply (@BoxConst_from_urdf_uses_three_base_bounds toy_urdf ["a"; "free"]
           [5%float; 6%float; 7%float; 8%float] [15%float; 16%float; 17%float]).
  - apply toy_urdf_has_limits.
  - simpl. lia.
  - simpl. lia.
Defined.

(** X21. The box of the Jaxon robot has 34 dimensions: its 31 control joints and
    three base dimensions, bounded by the first three of the six base bounds
    given ([-1, -1, -2] and [1, 1, 2]). *)
Theorem JaxonConfig_get_box_const_dimension (urdf : URDF) :
  has_limits urdf JaxonConfig__get_control_joint_names ->
  exists o,
    JaxonConfig_get_box_const urdf = Return o
    /\ reflect_robot_flag o = true
    /\ shape (lb (self o)) = [34] /\ shape (ub (self o)) = [34]
    /\ skipn 31 (data (lb (self o))) = [(-1)%float; (-1)%float; (-2)%float]
    /\ skipn 31 (data (ub (self o))) = [1%float; 1%float; 2%float].
Proof.
  intros Hlim. unfold JaxonConfig_get_box_const.
  destruct (@BoxConst_from_urdf_spec urdf JaxonConfig__get_control_joint_names
              [(-1)%float; (-1)%float; (-2)%float; (-1)%float; (-1)%float; (-1)%float]
              [1%float; 1%float; 2%float; 1%float; 1%float; 1%float] Hlim)
    as [bounds [Hall Hbox]]; [simpl; lia | simpl; lia |].
  eexists. split; [exact Hbox |].
  assert (Hlen : length bounds = 31).
  { rewrite <- (Forall2_length Hall). reflexivity. }
  cbn [ready reflect_robot_flag self lb ub np_array1 shape data].
  split; [reflexivity |].
  rewrite !length_app, !length_map, Hlen.
  split; [reflexivity |]. split; [reflexivity |].
  split.
  - rewrite skipn_app, length_map, Hlen.
    rewrite skipn_all2 by (rewrite length_map; lia). reflexivity.
  - rewrite skipn_app, length_map, Hlen.
    rewrite skipn_all2 by (rewrite length_map; lia). reflexivity.
Qed.

Lemma JaxonConfig_get_box_const_dimension_witness :
  exists o,
    JaxonConfig_get_box_const toy_urdf = Return o
    /\ reflect_robot_flag o = true
    /\ shape (lb (self o)) = [34] /\ shape (ub (self o)) = [34]
    /\ skipn 31 (data (lb (self o))) = [(-1)%float; (-1)%float; (-2)%float]
    /\ skipn 31 (data (ub (self o))) = [1%float; 1%float; 2%float].
Proof.
  apply (JaxonConfig_get_box_const_dimension (toy_urdf_has_limits _)).
Defined.

Lemma for_each_throws_at {A B : Type} (f : A -> outcome B) (before : list A) (x : A)
      (after : list A) (e : exn) :
  Forall (fun a => exists b, f a = Return b) before ->
  f x = Throw e ->
  for_each f (before ++ x :: after) = Throw e.
Proof.
  intros Hbefore Hx. induction Hbefore as [| a before [b Hb] _ IH]; simpl.
  - rewrite Hx. reflexivity.
  - rewrite Hb. cbn [and_then]. rewrite IH. reflexivity.
Qed.

(** X22. A joint name the description does not know makes [from_urdf] fail with
    [KeyError] for the first such name, whatever the base bounds. *)
Theorem BoxConst_from_urdf_unknown_joint
        (urdf : URDF) (before : list string) (joint_name : string) (after : list string)
        (base_bounds : option (list float * list float)) :
  has_limits urdf before ->
  joint_map urdf joint_name = None ->
  BoxConst_from_urdf urdf (before ++ joint_name :: after) base_bounds
  = Throw (KeyError joint_name).
Proof.
  intros Hlim Hname. unfold BoxConst_from_urdf.
  rewrite (@for_each_throws_at _ _ (joint_bounds urdf) before joint_name after
             (KeyError joint_name)).
  - reflexivity.
  - unfold has_limits in Hlim. apply Forall_forall. intros name Hin.
    rewrite Forall_forall in Hlim. destruct (Hlim name Hin) as [joint [l [Hj Hl]]].
    eexists. unfold joint_bounds. rewrite Hj, Hl. reflexivity.
  - unfold joint_bounds. rewrite Hname. reflexivity.
Qed.

Lemma BoxConst_from_urdf_unknown_joint_witness :
  BoxConst_from_urdf known_joint_urdf (["known"] ++ "elbow" :: ["known"]) None
  = Throw (KeyError "elbow").
Proof.
  apply (@BoxConst_from_urdf_unknown_joint known_joint_urdf ["known"] "elbow" ["known"] None).
  - constructor; [| constructor]. eexists. eexists. split; reflexivity.
  - reflexivity.
Defined.

(** ** Trajectory feasibility under the reduced collision constraint *)

Section ReducedFeasibility.
Context {G M E : Type} {IG : ConstImpl G} {IM : ConstImpl M} {IE : ConstImpl E}.
Variable is_valid_motion_step :
  ndarray -> ndarray -> ndarray -> IneqConst ReducedCollisionFreeConst M -> bool.

(** X23. When the global inequality constraint is a [ReducedCollisionFreeConst],
    the goal is met and the motion steps pass, [is_satisfied] answers by the
    clearances of the first waypoint alone: the residuals of the later
    waypoints are not looked at. *)
Theorem is_satisfied_reduced_checks_first_waypoint
        (p : Problem G ReducedCollisionFreeConst M E)
        (o : AbstractConst ReducedCollisionFreeConst) (traj : Trajectory)
        (q_end vals jac qs fss jss : ndarray) (n d m : nat) :
  global_ineq_const p = Some (inl o) ->
  reflect_robot_flag o = true ->
  traj_last traj = Ok q_end ->
  evaluate_single (goal_const p) q_end false = Ok (vals, jac) ->
  PrimFloat.ltb (eqconst_admissible_mse p) (dot_self vals) = false ->
  traj_numpy traj = Ok qs ->
  shape qs = [S n; d] ->
  n_feature (colkin (as_CollFreeConst (self o))) = S m ->
  CollFreeConst__evaluate (as_CollFreeConst (self o)) qs false = Ok (fss, jss) ->
  wf_ndarray fss ->
  motion_steps_valid is_valid_motion_step p (inl o) (consecutive_pairs traj) = Ok true ->
  is_satisfied is_valid_motion_step p traj
  = Ok (forallb (PrimFloat.ltb 0%float) (firstn (S m) (data fss))).
Proof.
  intros Hc Hflag Hlast Hgoal Hmse Hqs Hshape Hm Hfull Hwf Hsteps.
  destruct (@ReducedCollisionFreeConst__evaluate_first_row (self o) qs fss jss n d m
              Hshape Hm Hfull Hwf) as [x [Hred [_ [_ Hpos]]]].
  unfold is_satisfied. rewrite Hlast. cbn [bind]. rewrite Hgoal. cbn [bind].
  rewrite Hmse, Hc, Hqs. cbn [bind ineq_evaluate].
  rewrite evaluate_flag_set by exact Hflag.
  cbn [_evaluate ReducedCollisionFreeConst_impl]. rewrite Hred. cbn [bind].
  unfold np_all_pos. cbn [data forallb]. rewrite andb_true_r, Hpos.
  destruct (forallb (PrimFloat.ltb 0%float) (firstn (S m) (data fss)));
    cbn [negb]; [exact Hsteps | reflexivity].
Qed.

End ReducedFeasibility.

Lemma is_satisfied_reduced_checks_first_waypoint_witness :
  is_satisfied any_step wall_problem into_the_wall
  = Ok (forallb (PrimFloat.ltb 0%float) (firstn 2 (data clear_then_colliding_residual))).
Proof.
  refine (@is_satisfied_reduced_checks_first_waypoint
            ConfigPointConst BoxConst ConfigPointConst _ _ any_step wall_problem
            (ready {| as_CollFreeConst := wall_clearance |}) into_the_wall
            (np_array1 [(-3)%float; 4%float])
            (np_array1 [0%float; 0%float]) {| shape := [1]; data := [nan] |}
            clear_then_colliding clear_then_colliding_residual dummy_jacobian 1 2 1
            _ _ _ _ _ _ _ _ _ _ _).
  - reflexivity.
  - reflexivity.
  - reflexivity.
  - vm_compute. reflexivity.
  - vm_compute. reflexivity.
  - reflexivity.
  - reflexivity.
  - reflexivity.
  - vm_compute. reflexivity.
  - reflexivity.
  - reflexivity.
Defined.
